(** * Twitter video downloader: URL validation, format ranking, job store

    A shallow embedding of [twitter_downloader.py] and [web_server.py].

    Conventions of the embedding.
    - A Python [str] is the [string] of its UTF-8 bytes, so that a character
      is one to four [ascii]s (a lone surrogate, which a [str] can hold, has
      no place among the characters and is not met by any class).
      [str.strip], the slice [[:100]] and the classes [\w] and [\d] of the
      [re] module go by characters.  The classes are those of [str.isalnum]
      and [str.isdecimal]; what these answer beyond ASCII is a parameter,
      [Unicode], of all that depends on the validator.  [str.lower] is
      written on the ASCII letters: the needles it is used with, 'protected'
      and 'not found', meet nothing else.
    - Dictionaries that the extraction engine hands to the program
      (format entries, the info dictionary, progress-hook events) are
      [gmap string pyval]; dictionaries that the program builds from a
      literal with a fixed key set are records or constructors.
    - The two global dictionaries [download_progress] and
      [download_results] are [gmap]s keyed by the progress id.
    - The extraction engine ([yt_dlp]) is a record of outcomes, one per call
      the program makes; every call the program makes is logged as an
      [action], so that "no engine call" is a statement about that log.
    - A download thread is the list of atomic actions it performs; the
      scheduler interleaves these with requests. *)

From Stdlib Require Import ZArith QArith Lqa Ascii String List Bool Lia.
From Stdlib Require Import Sorting.Sorted Sorting.Permutation QArith.Qround.
From stdpp Require Import base option list gmap strings pretty.

Close Scope Q_scope.
Local Open Scope Z_scope.
Local Open Scope stdpp_scope.

(* ===================================================================== *)
(** * Part I: definitions                                                 *)
(* ===================================================================== *)

(** ** Strings *)

Module Str.

Definition to_list (s : string) : list ascii := list_ascii_of_string s.
Definition of_list (l : list ascii) : string := string_of_list_ascii l.

(** [c in range lo..hi] on character codes. *)
Definition between (lo hi : N) (c : ascii) : bool :=
  (lo <=? N_of_ascii c)%N && (N_of_ascii c <=? hi)%N.

Definition is_upper : ascii -> bool := between 65 90.

(** *** Characters beyond ASCII

    A [str] is held as the bytes of its UTF-8 encoding: a character is one
    to four bytes.  What the code does character by character ([str.strip],
    the slice [[:100]], the classes [\w] and [\d]) is written on these
    groups of bytes. *)

(** A continuation byte, [10xxxxxx]. *)
Definition is_cont : ascii -> bool := between 128 191.

(** The code point that the bytes [w] encode, when [w] is the encoding of
    one character: no over-long form, no surrogate, nothing beyond
    U+10FFFF. *)
Definition point (w : list ascii) : option N :=
  match w with
  | [a] => if (N_of_ascii a <? 128)%N then Some (N_of_ascii a) else None
  | [a; b] =>
      if between 194 223 a && is_cont b
      then Some ((N_of_ascii a - 192) * 64 + (N_of_ascii b - 128))%N
      else None
  | [a; b; c] =>
      let p := ((N_of_ascii a - 224) * 4096 + (N_of_ascii b - 128) * 64
                + (N_of_ascii c - 128))%N in
      if between 224 239 a && is_cont b && is_cont c
         && (2048 <=? p)%N && negb ((55296 <=? p)%N && (p <=? 57343)%N)
      then Some p else None
  | [a; b; c; d] =>
      let p := ((N_of_ascii a - 240) * 262144 + (N_of_ascii b - 128) * 4096
                + (N_of_ascii c - 128) * 64 + (N_of_ascii d - 128))%N in
      if between 240 244 a && is_cont b && is_cont c && is_cont d
         && (65536 <=? p)%N && (p <=? 1114111)%N
      then Some p else None
  | _ => None
  end.

(** [len(s)]: the number of characters, each of which has one byte that is
    no continuation byte. *)
Fixpoint len (s : string) : nat :=
  match s with
  | EmptyString => 0
  | String c s' => if is_cont c then len s' else S (len s')
  end.

(** [str.isspace] on one character, which is what [str.strip] removes: tab
    to carriage return, the separators U+001C to U+001F, the space, U+0085,
    U+00A0, U+1680, U+2000 to U+200A, U+2028, U+2029, U+202F, U+205F and
    U+3000. *)
Definition is_space (p : N) : bool :=
  ((9 <=? p) && (p <=? 13) || (28 <=? p) && (p <=? 32)
   || (p =? 133) || (p =? 160) || (p =? 5760)
   || (8192 <=? p) && (p <=? 8202)
   || (p =? 8232) || (p =? 8233) || (p =? 8239) || (p =? 8287) || (p =? 12288))%N.

(** The bytes [w] are one character, of the class [p]. *)
Definition is_char (p : N -> bool) (w : list ascii) : bool :=
  match point w with
  | Some c => p c
  | None => false
  end.

(** The bytes [w] are one whitespace character. *)
Definition space_at : list ascii -> bool := is_char is_space.

(** [s] is a run of characters of the class [p]. *)
Definition run (p : N -> bool) (s : string) : Prop :=
  exists chars, to_list s = concat chars /\ Forall (fun w => is_char p w = true) chars.

(** What is left of [l] when the leading groups of one, two or three
    elements that [sp] holds of are dropped. *)
Fixpoint skip (sp : list ascii -> bool) (l : list ascii) : list ascii :=
  match l with
  | [] => []
  | a :: l1 =>
      if sp [a] then skip sp l1 else
      match l1 with
      | [] => l
      | b :: l2 =>
          if sp [a; b] then skip sp l2 else
          match l2 with
          | [] => l
          | c :: l3 => if sp [a; b; c] then skip sp l3 else l
          end
      end
  end.

Definition lower_char (c : ascii) : ascii :=
  if is_upper c then ascii_of_N (N_of_ascii c + 32) else c.

(** [s.lower()], on the ASCII letters.  Of the characters beyond ASCII that
    [str.lower] changes, only U+0130 and U+212A give an ASCII letter, [i] and
    [k]. *)
Fixpoint lower (s : string) : string :=
  match s with
  | EmptyString => EmptyString
  | String c s' => String (lower_char c) (lower s')
  end.

(** [s.lstrip()] *)
Definition lstrip (s : string) : string := of_list (skip space_at (to_list s)).

(** [s.rstrip()]: the same from the end, where the bytes of a character
    come last byte first. *)
Definition rstrip (s : string) : string :=
  of_list (rev (skip (fun w => space_at (rev w)) (rev (to_list s)))).

(** [s.strip()] *)
Definition strip (s : string) : string := rstrip (lstrip s).

Fixpoint starts_with (p s : string) : bool :=
  match p, s with
  | EmptyString, _ => true
  | String a p', String b s' => if ascii_dec a b then starts_with p' s' else false
  | String _ _, EmptyString => false
  end.

(** [needle in hay] *)
Fixpoint contains (needle hay : string) : bool :=
  starts_with needle hay ||
  match hay with
  | EmptyString => false
  | String _ hay' => contains needle hay'
  end.

End Str.

(** ** The character tables of the interpreter *)

(** [str.isalnum] and [str.isdecimal] on the characters beyond ASCII.  They
    come from the Unicode database that the interpreter was built with, of
    which the program has no copy, and are taken as they come: what is
    proved holds whatever the two tables are. *)
Class Unicode : Type := {
  isalnum : N -> bool;
  isdecimal : N -> bool
}.

(** [\w] of a [str] pattern: [c.isalnum() or c == '_']. *)
Definition is_word `{Unicode} (c : N) : bool :=
  if (c <? 128)%N
  then ((65 <=? c) && (c <=? 90) || (97 <=? c) && (c <=? 122)
        || (48 <=? c) && (c <=? 57) || (c =? 95))%N
  else isalnum c.

(** [\d] of a [str] pattern: [c.isdecimal()]. *)
Definition is_digit `{Unicode} (c : N) : bool :=
  if (c <? 128)%N then ((48 <=? c) && (c <=? 57))%N else isdecimal c.

(** ** Regular expressions, as far as the URL patterns use them *)

Module Re.

Inductive regex : Type :=
| Void
| Eps
| Chr (c : ascii)
| Group (n : nat) (p : list ascii -> bool)   (* the words of [n] bytes that [p] holds of *)
| Alt (r1 r2 : regex)
| Seq (r1 r2 : regex)
| Star (r : regex).

(** A run of literal characters; an escaped [\.] is the literal dot. *)
Fixpoint Lit (s : string) : regex :=
  match s with
  | EmptyString => Eps
  | String c s' => Seq (Chr c) (Lit s')
  end.

(** [r?] *)
Definition Opt (r : regex) : regex := Alt r Eps.
(** [r+] *)
Definition Plus (r : regex) : regex := Seq r (Star r).
(** One character of the class [p], which is one to four bytes. *)
Definition Char (p : N -> bool) : regex :=
  Alt (Group 1 (Str.is_char p))
    (Alt (Group 2 (Str.is_char p))
      (Alt (Group 3 (Str.is_char p)) (Group 4 (Str.is_char p)))).

(** The words of a pattern. *)
Inductive matches : regex -> list ascii -> Prop :=
| M_eps : matches Eps []
| M_chr c : matches (Chr c) [c]
| M_group n p w : length w = n -> p w = true -> matches (Group n p) w
| M_alt_l r1 r2 w : matches r1 w -> matches (Alt r1 r2) w
| M_alt_r r1 r2 w : matches r2 w -> matches (Alt r1 r2) w
| M_seq r1 r2 w1 w2 :
    matches r1 w1 -> matches r2 w2 -> matches (Seq r1 r2) (w1 ++ w2)
| M_star_nil r : matches (Star r) []
| M_star_cons r w1 w2 :
    matches r w1 -> matches (Star r) w2 -> matches (Star r) (w1 ++ w2).

Fixpoint nullable (r : regex) : bool :=
  match r with
  | Void => false
  | Eps => true
  | Chr _ => false
  | Group n p => match n with O => p [] | S _ => false end
  | Alt r1 r2 => nullable r1 || nullable r2
  | Seq r1 r2 => nullable r1 && nullable r2
  | Star _ => true
  end.

Fixpoint deriv (a : ascii) (r : regex) : regex :=
  match r with
  | Void => Void
  | Eps => Void
  | Chr c => if ascii_dec a c then Eps else Void
  | Group n p =>
      match n with
      | O => Void
      | S n' => Group n' (fun w => p (a :: w))
      end
  | Alt r1 r2 => Alt (deriv a r1) (deriv a r2)
  | Seq r1 r2 =>
      if nullable r1
      then Alt (Seq (deriv a r1) r2) (deriv a r2)
      else Seq (deriv a r1) r2
  | Star r1 => Seq (deriv a r1) (Star r1)
  end.

(** [re.match(pattern, s)] as a truth value: the pattern is tried at the
    start of [s] only, and need not reach its end. *)
Fixpoint match_ (r : regex) (s : list ascii) : bool :=
  nullable r ||
  match s with
  | [] => false
  | a :: s' => match_ (deriv a r) s'
  end.

End Re.

(** ** [TwitterDownloader.is_valid_twitter_url] *)

Import Re.

Section Validator.
Context `{U : Unicode}.

(** [https?://] *)
Definition re_scheme : regex :=
  Seq (Lit "http") (Seq (Opt (Chr "s")) (Lit "://")).

(** [https?://(?:www\.)?HOST/\w+/status/\d+] *)
Definition re_status (host : string) : regex :=
  Seq re_scheme
   (Seq (Opt (Lit "www."))
     (Seq (Lit host)
       (Seq (Lit "/")
         (Seq (Plus (Char is_word))
           (Seq (Lit "/status/") (Plus (Char is_digit))))))).

Definition twitter_patterns : list regex :=
  [ re_status "twitter.com";
    re_status "x.com";
    Seq re_scheme (Seq (Lit "t.co/") (Plus (Char is_word))) ].

Definition is_valid_twitter_url (url : string) : bool :=
  existsb (fun pattern => match_ pattern (Str.to_list url)) twitter_patterns.

End Validator.

(** The three documented shapes, written out as the spec words them: the
    status URL of a host, and the link-shortener form.  A user name and a
    short code are one or more word characters, a status id is one or more
    digits, as [\w] and [\d] have them. *)
Module Shape.

Section Shapes.
Context `{U : Unicode}.

Definition scheme (s : string) : Prop := s = "http" \/ s = "https".
Definition www (s : string) : Prop := s = "" \/ s = "www.".
Definition word (s : string) : Prop := s <> "" /\ Str.run is_word s.
Definition number (s : string) : Prop := s <> "" /\ Str.run is_digit s.

Definition status_url (host u : string) : Prop :=
  exists sch w user num,
    scheme sch /\ www w /\ word user /\ number num /\
    u = sch +:+ "://" +:+ w +:+ host +:+ "/" +:+ user +:+ "/status/" +:+ num.

Definition short_link (u : string) : Prop :=
  exists sch code,
    scheme sch /\ word code /\ u = sch +:+ "://t.co/" +:+ code.

Definition documented (u : string) : Prop :=
  status_url "twitter.com" u \/ status_url "x.com" u \/ short_link u.

(** [url] starts with a documented shape. *)
Definition starts_with_documented (url : string) : Prop :=
  exists shape rest, documented shape /\ url = shape +:+ rest.

End Shapes.

End Shape.

(** ** Python values *)

(** The values that occur in the dictionaries of the extraction engine and
    in a request body.  A float is held by the rational it denotes. *)
Inductive pyval : Type :=
| PyNone
| PyInt (z : Z)
| PyFloat (q : Q)
| PyStr (s : string).

Abbreviation dict := (gmap string pyval).

Module Py.

(** [bool(v)] *)
Definition truthy (v : pyval) : bool :=
  match v with
  | PyNone => false
  | PyInt z => negb (z =? 0)
  | PyFloat q => negb (Qeq_bool q 0)
  | PyStr s => negb (String.eqb s "")
  end.

(** [d.get(k)] *)
Definition get (d : dict) (k : string) : pyval := default PyNone (d !! k).
(** [d.get(k, v)] *)
Definition get_or (d : dict) (k : string) (v : pyval) : pyval := default v (d !! k).

Definition number (v : pyval) : option Q :=
  match v with
  | PyInt z => Some (inject_Z z)
  | PyFloat q => Some q
  | _ => None
  end.

(** [a == b]: never raises. *)
Definition eq (a b : pyval) : bool :=
  match a, b with
  | PyNone, PyNone => true
  | PyStr s, PyStr t => String.eqb s t
  | _, _ =>
      match number a, number b with
      | Some x, Some y => Qeq_bool x y
      | _, _ => false
      end
  end.

Definition type_name (v : pyval) : string :=
  match v with
  | PyNone => "NoneType"
  | PyInt _ => "int"
  | PyFloat _ => "float"
  | PyStr _ => "str"
  end.

(** The text of the [TypeError] that [a < b] raises. *)
Definition lt_type_error (a b : pyval) : string :=
  "'<' not supported between instances of '" +:+ type_name a +:+
  "' and '" +:+ type_name b +:+ "'".

(** [a < b]: numbers with numbers, strings with strings; anything else
    raises [TypeError] ([inl] carries its text). *)
Definition lt (a b : pyval) : string + bool :=
  match a, b with
  | PyStr s, PyStr t => inr (String.ltb s t)
  | _, _ =>
      match number a, number b with
      | Some x, Some y => inr (negb (Qle_bool y x))
      | _, _ => inl (lt_type_error a b)
      end
  end.

(** [(a1, a2) < (b1, b2)]: the first components that differ under [==]
    decide, by [<]. *)
Definition pair_lt (a b : pyval * pyval) : string + bool :=
  if negb (eq a.1 b.1) then lt a.1 b.1
  else if negb (eq a.2 b.2) then lt a.2 b.2
  else inr false.

(** [l.sort(key=key, reverse=True)]: a stable sort into descending key
    order, written as an insertion sort.  An element is compared with those
    that follow it in the list; it moves behind the ones whose key is
    greater and stays ahead of the first one whose key is not.  A comparison
    that raises ends the sort with its error.  What a sort that succeeds
    returns does not depend on the sorting method, there being one stable
    descending order; a sort by [<] raises whenever the list holds two keys
    that cannot be compared, and only the operand order in the text of the
    error depends on the method, for lists of more than two entries. *)
Fixpoint insert_desc {A : Type} (key : A -> pyval * pyval) (x : A) (l : list A)
  : string + list A :=
  match l with
  | [] => inr [x]
  | y :: l' =>
      match pair_lt (key x) (key y) with
      | inl e => inl e
      | inr true =>
          match insert_desc key x l' with
          | inl e => inl e
          | inr r => inr (y :: r)
          end
      | inr false => inr (x :: l)
      end
  end.

Fixpoint sort_desc {A : Type} (key : A -> pyval * pyval) (l : list A)
  : string + list A :=
  match l with
  | [] => inr []
  | x :: l' =>
      match sort_desc key l' with
      | inl e => inl e
      | inr s => insert_desc key x s
      end
  end.

(** [int(x)] of a float: truncation towards zero. *)
Definition int (x : Q) : Z := Z.quot (Qnum x) (Z.pos (Qden x)).

End Py.

(** ** The data of the web server *)

(** The seven status words of a progress entry. *)
Inductive JobStatus : Type :=
| Starting | Extracting | Downloading | Finished | Completed | Error | Unknown.

Definition status_str (s : JobStatus) : string :=
  match s with
  | Starting => "starting"
  | Extracting => "extracting"
  | Downloading => "downloading"
  | Finished => "finished"
  | Completed => "completed"
  | Error => "error"
  | Unknown => "unknown"
  end.

(** One entry of [video_formats] in [get_video_info_web]: the dictionary
    literal [quality_info], whose eleven keys are always present. *)
Record quality_info : Type := {
  q_format_id : pyval;
  q_ext : pyval;
  q_quality : pyval;
  q_resolution : pyval;
  q_width : pyval;
  q_height : pyval;
  q_fps : pyval;
  q_filesize : pyval;
  q_filesize_approx : pyval;
  q_tbr : pyval;
  q_vbr : pyval
}.

(** The dictionaries the two downloader methods return.  ['success'] is
    [False] for [Failure] and [True] for the other two. *)
Inductive payload : Type :=
| Failure (error : string) (message : option string)
| VideoInfo (title uploader duration thumbnail : pyval)
            (formats : list quality_info)
| Downloaded (title uploader duration : pyval) (filename filepath : string)
             (quality resolution : pyval).

Definition success (r : payload) : bool :=
  match r with
  | Failure _ _ => false
  | _ => true
  end.

(** [result.get('message', v)] *)
Definition message_or (r : payload) (v : string) : string :=
  match r with
  | Failure _ (Some m) => m
  | _ => v
  end.

(** A value of [download_progress]: the keys its dictionary literals use,
    and ['result'], which only [get_progress] sets. *)
Record progress : Type := {
  p_status : JobStatus;
  p_percent : string;
  p_message : option string;
  p_speed : option pyval;
  p_eta : option pyval;
  p_filename : option pyval;
  p_result : option payload
}.

Definition progress_msg (s : JobStatus) (percent message : string) : progress :=
  {| p_status := s; p_percent := percent; p_message := Some message;
     p_speed := None; p_eta := None; p_filename := None; p_result := None |}.

(** [progress['result'] = result] *)
Definition set_result (p : progress) (r : payload) : progress :=
  {| p_status := p_status p; p_percent := p_percent p; p_message := p_message p;
     p_speed := p_speed p; p_eta := p_eta p; p_filename := p_filename p;
     p_result := Some r |}.

(** The two global dictionaries. *)
Record store : Type := {
  download_progress : gmap string progress;
  download_results : gmap string payload
}.

Definition empty_store : store :=
  {| download_progress := ∅; download_results := ∅ |}.

(** What a run of the program does, one atomic step each: writes to the
    global dictionaries, and calls into the extraction engine. *)
Inductive action : Type :=
| SetProgress (progress_id : string) (p : progress)
| SetResult (progress_id : string) (r : payload)
| ExtractInfo (format : option pyval) (url : string)
| Download (format : pyval) (url : string)
| PrepareFilename
| Popen (cmd : list pyval).

Definition is_engine_call (a : action) : bool :=
  match a with
  | SetProgress _ _ | SetResult _ _ => false
  | _ => true
  end.

Definition perform (a : action) (st : store) : store :=
  match a with
  | SetProgress id p =>
      {| download_progress := <[id := p]> (download_progress st);
         download_results := download_results st |}
  | SetResult id r =>
      {| download_progress := download_progress st;
         download_results := <[id := r]> (download_results st) |}
  | _ => st
  end.

(** ** The extraction engine *)

Inductive outcome (A : Type) : Type :=
| Returns (a : A)
| DownloadError (msg : string)      (* raise yt_dlp.DownloadError(msg) *)
| OtherError (msg : string).        (* any other exception; [msg] is its str *)
Arguments Returns {A} a.
Arguments DownloadError {A} msg.
Arguments OtherError {A} msg.

(** The info dictionary of a probe: its scalar entries and, when the key
    is there, the list under ['formats']. *)
Record info_dict : Type := {
  info_fields : dict;
  info_formats : option (list dict)
}.

(** The argument [d] of a progress hook: [d['status']] and the other keys. *)
Record hook_event : Type := {
  h_status : string;
  h_data : dict
}.

(** What the engine does in the calls of one request.  The optional format
    is [opts['format']] of the [YoutubeDL] object the call is made on. *)
Record Engine : Type := {
  extract_info : option pyval -> string -> outcome (option info_dict);
  download : pyval -> string -> list hook_event * outcome unit;
  prepare_filename : info_dict -> outcome string
}.

(** ** Method bodies: a log of actions, and an early [return] *)

(** A piece of a method body: the actions it performed, and either the
    dictionary it returned with ([inl]) or a value to go on with. *)
Definition prog (A : Type) : Type := list action * (payload + A).

Global Instance prog_ret : MRet prog := fun A a => ([], inr a).

Global Instance prog_bind : MBind prog := fun A B k m =>
  match m with
  | (log, inl r) => (log, inl r)
  | (log, inr a) => let '(log', b) := k a in (log ++ log', b)
  end.

(** [return r] *)
Definition return_ {A : Type} (r : payload) : prog A := ([], inl r).

Definition emit (a : action) : prog unit := ([a], inr tt).
Definition emits (l : list action) : prog unit := (l, inr tt).

Definition run_prog (m : prog payload) : payload * list action :=
  match m with
  | (log, inl r) => (r, log)
  | (log, inr r) => (r, log)
  end.

(** The two [except] clauses that close [get_video_info_web] and
    [download_video_web]. *)
Definition download_error (error_msg : string) : payload :=
  if Str.contains "Private" error_msg || Str.contains "protected" (Str.lower error_msg)
  then Failure "Private account" (Some "This tweet is from a private account")
  else if Str.contains "not found" (Str.lower error_msg)
  then Failure "Tweet not found" (Some "Tweet not found - it might have been deleted")
  else Failure "Download error" (Some error_msg).

Definition unexpected_error (msg : string) : payload :=
  Failure "Unexpected error" (Some msg).

Definition raised {A : Type} (o : outcome A) : payload + A :=
  match o with
  | Returns a => inr a
  | DownloadError msg => inl (download_error msg)
  | OtherError msg => inl (unexpected_error msg)
  end.

(** A call into the engine from inside the [try] block. *)
Definition call {A : Type} (a : action) (o : outcome A) : prog A :=
  ([a], raised o).

Definition invalid_url : payload :=
  Failure "Invalid Twitter URL format" (Some "Please provide a valid Twitter/X URL").
Definition no_video_found : payload :=
  Failure "No video found" (Some "No video found at this URL").
Definition no_video_content : payload :=
  Failure "No video content" (Some "This tweet contains no video content").

(** [not info]: [None], or a dictionary without any key. *)
Definition info_falsy (info : option info_dict) : bool :=
  match info with
  | None => true
  | Some i =>
      bool_decide (info_fields i = ∅) &&
      match info_formats i with None => true | Some _ => false end
  end.

(** [info.get('formats', [])] *)
Definition formats_of (i : info_dict) : list dict := default [] (info_formats i).

(** [f.get('vcodec') != 'none'] *)
Definition has_video (f : dict) : bool := negb (Py.eq (Py.get f "vcodec") (PyStr "none")).

Definition quality_info_of (f : dict) : quality_info :=
  {| q_format_id := Py.get f "format_id";
     q_ext := Py.get_or f "ext" (PyStr "mp4");
     q_quality := Py.get_or f "format_note" (PyStr "Unknown");
     q_resolution := Py.get_or f "resolution" (PyStr "Unknown");
     q_width := Py.get f "width";
     q_height := Py.get f "height";
     q_fps := Py.get f "fps";
     q_filesize := Py.get f "filesize";
     q_filesize_approx := Py.get f "filesize_approx";
     q_tbr := Py.get f "tbr";
     q_vbr := Py.get f "vbr" |}.

(** The loop that fills [video_formats]. *)
Definition video_formats_of (formats : list dict) : list quality_info :=
  quality_info_of <$>
    filter (fun f => has_video f && Py.truthy (Py.get f "url") = true) formats.

(** [lambda x: (x.get('height', 0), x.get('tbr', 0))].  Both keys are always
    present in a [quality_info], so [get] answers the stored value, which is
    [None] where the engine gave none, and never the default. *)
Definition sort_key (x : quality_info) : pyval * pyval := (q_height x, q_tbr x).

(** ** [WebTwitterDownloader] *)

Section Server.
Context `{U : Unicode}.

(** [self.progress_id] is set and not empty. *)
Definition hooked (progress_id : option string) : option string :=
  match progress_id with
  | Some id => if String.eqb id "" then None else Some id
  | None => None
  end.

Definition _progress_hook (progress_id : option string) (d : hook_event) : list action :=
  match hooked progress_id with
  | None => []
  | Some id =>
      if String.eqb (h_status d) "downloading" then
        match Py.get_or (h_data d) "_percent_str" (PyStr "0%") with
        | PyStr percent =>
            [SetProgress id
               {| p_status := Downloading;
                  p_percent := Str.strip percent;
                  p_message := None;
                  p_speed := Some (Py.get_or (h_data d) "_speed_str" (PyStr "N/A"));
                  p_eta := Some (Py.get_or (h_data d) "_eta_str" (PyStr "N/A"));
                  p_filename := Some (Py.get_or (h_data d) "filename" (PyStr "Unknown"));
                  p_result := None |}]
        | _ => []     (* [.strip()] raises; the bare [except] passes *)
        end
      else if String.eqb (h_status d) "finished" then
        [SetProgress id
           {| p_status := Finished;
              p_percent := "100%";
              p_message := None;
              p_speed := None;
              p_eta := None;
              p_filename := Some (Py.get_or (h_data d) "filename" (PyStr "Unknown"));
              p_result := None |}]
      else []
  end.

Definition get_video_info_web (eng : Engine) (url : string) : payload * list action :=
  if negb (is_valid_twitter_url url) then (invalid_url, [])
  else run_prog (
    info ← call (ExtractInfo None url) (extract_info eng None url);
    match info with
    | Some i =>
        if info_falsy info then return_ no_video_found else
        let video_formats := video_formats_of (formats_of i) in
        match video_formats with
        | [] => return_ no_video_content
        | _ =>
            match Py.sort_desc sort_key video_formats with
            | inl e => return_ (unexpected_error e)
            | inr sorted =>
                mret (VideoInfo
                       (Py.get_or (info_fields i) "title" (PyStr "Unknown title"))
                       (Py.get_or (info_fields i) "uploader" (PyStr "Unknown"))
                       (Py.get_or (info_fields i) "duration" (PyStr "Unknown"))
                       (Py.get (info_fields i) "thumbnail")
                       sorted)
            end
        end
    | None => return_ no_video_found
    end).

(** [os.path.basename] *)
Fixpoint basename (path : string) : string :=
  match path with
  | EmptyString => EmptyString
  | String c rest =>
      if Str.contains "/" rest then basename rest
      else if ascii_dec c "/" then rest
      else path
  end.

(** [self.ydl_opts['format']] *)
Definition default_format : pyval := PyStr "best[ext=mp4]/best".

Definition download_video_web (eng : Engine) (progress_id : option string)
    (url : string) (format_id : pyval) : payload * list action :=
  if negb (is_valid_twitter_url url) then (invalid_url, [])
  else run_prog (
    match hooked progress_id with
    | Some id => emit (SetProgress id
                   (progress_msg Extracting "0%" "Extracting video information..."))
    | None => mret tt
    end ;;
    let format := if Py.truthy format_id then format_id else default_format in
    info ← call (ExtractInfo (Some format) url) (extract_info eng (Some format) url);
    match info with
    | Some i =>
        if info_falsy info then return_ no_video_found else
        let formats := formats_of i in
        match filter (fun f => has_video f = true) formats with
        | [] => return_ no_video_content
        | _ =>
            emit (Download format url) ;;
            emits (concat (_progress_hook progress_id <$> (download eng format url).1)) ;;
            (([], raised (download eng format url).2) : prog unit) ;;
            filename ← call PrepareFilename (prepare_filename eng i);
            let selected_format :=
              if Py.truthy format_id
              then List.find (fun f => Py.eq (Py.get f "format_id") format_id) formats
              else None in
            mret (Downloaded
                   (Py.get_or (info_fields i) "title" (PyStr "Unknown title"))
                   (Py.get_or (info_fields i) "uploader" (PyStr "Unknown"))
                   (Py.get_or (info_fields i) "duration" (PyStr "Unknown"))
                   (basename filename)
                   filename
                   match selected_format with
                   | Some f => Py.get_or f "format_note" (PyStr "Auto")
                   | None => PyStr "Auto"
                   end
                   match selected_format with
                   | Some f => Py.get_or f "resolution" (PyStr "Unknown")
                   | None => PyStr "Best available"
                   end)
        end
    | None => return_ no_video_found
    end).

(** ** The request handlers *)

(** The JSON body of a POST request: an object whose [url], when present,
    is a string.  These are the bodies on which the first two statements of
    a handler, [data.get('url', '')] and [.strip()], return; on any other
    body (no object, or a [url] that is no string) they raise before the
    handler has done anything. *)
Record request : Type := {
  req_url : option string;
  req_format_id : pyval          (* [data.get('format_id')] *)
}.

(** [data.get('url', '').strip()] *)
Definition url_of (data : request) : string := Str.strip (default "" (req_url data)).

Definition url_required : payload := Failure "URL is required" None.

(** What a handler sends back. *)
Inductive response : Type :=
| Json (r : payload)
| Started (progress_id : string)
      (* {'success': True, 'progress_id': progress_id, 'message': 'Download started'} *)
| Stream (selected_format : quality_info) (clean_title : string) (cmd : list pyval)
      (* the body is the output of [cmd]; the attachment is named
         f"{clean_title}_{selected_format['resolution']}.{selected_format['ext']}" *)
| Snapshot (p : progress).

(** [/video_info] *)
Definition get_video_info (data : request) (eng : Engine) : response * list action :=
  let url := url_of data in
  if String.eqb url "" then (Json url_required, [])
  else let '(result, log) := get_video_info_web eng url in (Json result, log).

(** [f"download_{int(time.time())}"] *)
Definition new_progress_id (now : Q) : string := "download_" +:+ pretty (Py.int now).

(** The function [download_thread] that [download_video] defines and starts. *)
Definition download_thread (eng : Engine) (progress_id url : string) (format_id : pyval)
  : list action :=
  let '(result, log) := download_video_web eng (Some progress_id) url format_id in
  log ++
  [ SetResult progress_id result;
    SetProgress progress_id
      (if success result
       then progress_msg Completed "100%" "Download completed successfully!"
       else progress_msg Error "0%" (message_or result "Download failed")) ].

(** [/download].  [now] is the reading of [time.time()].  The answer comes
    with the new store and the thread that was started, if any. *)
Definition download_video (data : request) (now : Q) (eng : Engine) (st : store)
  : response * store * option (list action) :=
  let url := url_of data in
  let format_id := req_format_id data in
  if String.eqb url "" then (Json url_required, st, None)
  else
    let progress_id := new_progress_id now in
    (Started progress_id,
     perform (SetProgress progress_id
                (progress_msg Starting "0%" "Initializing download...")) st,
     Some (download_thread eng progress_id url format_id)).

Definition unknown_progress : progress :=
  progress_msg Unknown "0%" "Unknown progress ID".

(** [/progress/<progress_id>].  [download_progress.get] hands out the stored
    dictionary itself, so the assignment to [progress['result']] is a write
    to the store; the default dictionary is a fresh one. *)
Definition get_progress (progress_id : string) (st : store) : progress * store :=
  match download_progress st !! progress_id, download_results st !! progress_id with
  | Some p, Some result =>
      (set_result p result,
       {| download_progress := <[progress_id := set_result p result]> (download_progress st);
          download_results := download_results st |})
  | Some p, None => (p, st)
  | None, Some result => (set_result unknown_progress result, st)
  | None, None => (unknown_progress, st)
  end.

(** The [re.sub] of [stream_download] on one character: each of the nine
    characters less-than, greater-than, colon, double quote, slash,
    backslash, bar, question mark and star becomes an underscore. *)
Definition clean_char (c : ascii) : ascii :=
  if existsb (fun x => (N_of_ascii c =? x)%N) [60; 62; 58; 34; 47; 92; 124; 63; 42]%N
  then "_"%char else c.

Fixpoint clean_string (s : string) : string :=
  match s with
  | EmptyString => EmptyString
  | String c s' => String (clean_char c) (clean_string s')
  end.

(** [s[:n]]: the first [n] characters, each with its continuation bytes. *)
Fixpoint take_chars (n : nat) (s : string) : string :=
  match s with
  | EmptyString => EmptyString
  | String c s' =>
      if Str.is_cont c then String c (take_chars n s')
      else match n with
           | O => EmptyString
           | S n' => String c (take_chars n' s')
           end
  end.

(** The substitution applied to [info_result['title'] or 'twitter_video'],
    cut to its first 100 characters; [re.sub] raises [TypeError] on a title
    that is neither falsy nor a string. *)
Definition clean_title (title : pyval) : string + string :=
  if Py.truthy title then
    match title with
    | PyStr s => inr (take_chars 100 (clean_string s))
    | _ => inl "expected string or bytes-like object"
    end
  else inr (take_chars 100 (clean_string "twitter_video")).

(** [/stream_download] from the validity check on: the part of the handler
    that follows the 'URL is required' answer. *)
Definition stream_download_from_url (eng : Engine) (url : string) (format_id : pyval)
  : response * list action :=
  if negb (is_valid_twitter_url url) then (Json invalid_url, [])
  else
    let '(info_result, log) := get_video_info_web eng url in
    match info_result with
    | VideoInfo title _ _ _ formats =>
        let requested :=
          if Py.truthy format_id
          then List.find (fun fmt => Py.eq (q_format_id fmt) format_id) formats
          else None in
        let selected_format :=
          match requested with
          | Some fmt => Some fmt
          | None => head formats            (* info_result['formats'][0] *)
          end in
        match selected_format with
        | None => (Json (Failure "Download error" (Some "list index out of range")), log)
        | Some fmt =>
            match clean_title title with
            | inl e => (Json (Failure "Download error" (Some e)), log)
            | inr clean =>
                let cmd := [PyStr "yt-dlp"; PyStr "--format"; q_format_id fmt;
                            PyStr "--output"; PyStr "-"; PyStr url] in
                (Stream fmt clean cmd, log ++ [Popen cmd])
                (* [generate()] starts the process when the body is sent *)
            end
        end
    | _ => (Json info_result, log)
    end.

Definition stream_download (data : request) (eng : Engine) : response * list action :=
  let url := url_of data in
  let format_id := req_format_id data in
  if String.eqb url "" then (Json url_required, [])
  else stream_download_from_url eng url format_id.

(** ** The running server *)

(** The store and the download threads that were started, each with the
    actions it has still to perform.  A request handler runs as one step;
    a thread is interleaved with the handlers and with the other threads
    between any two of its writes and engine calls.  The handlers of
    [/video_info] and [/stream_download] touch neither the store nor the
    threads and are no events of the server. *)
Record server : Type := {
  srv_store : store;
  srv_threads : list (list action)
}.

Definition initial : server := {| srv_store := empty_store; srv_threads := [] |}.

(** What can happen next: a request comes in, or a thread takes a step. *)
Inductive event : Type :=
| PostDownload (data : request) (now : Q) (eng : Engine)
| GetProgress (progress_id : string)
| ThreadStep (n : nat).

Definition step (e : event) (s : server) : server * option response :=
  match e with
  | PostDownload data now eng =>
      let '(resp, st, th) := download_video data now eng (srv_store s) in
      ({| srv_store := st;
          srv_threads := srv_threads s ++ match th with Some t => [t] | None => [] end |},
       Some resp)
  | GetProgress id =>
      let '(p, st) := get_progress id (srv_store s) in
      ({| srv_store := st; srv_threads := srv_threads s |}, Some (Snapshot p))
  | ThreadStep n =>
      match srv_threads s !! n with
      | Some (a :: rest) =>
          ({| srv_store := perform a (srv_store s);
              srv_threads := <[n := rest]> (srv_threads s) |}, None)
      | _ => (s, None)
      end
  end.

(** A run: the events in order, with the answers they got. *)
Fixpoint run (es : list event) (s : server) : server * list (event * response) :=
  match es with
  | [] => (s, [])
  | e :: es' =>
      let '(s', r) := step e s in
      let '(s'', rs) := run es' s' in
      (s'', match r with Some resp => (e, resp) :: rs | None => rs end)
  end.

(** The answers of [/progress/<progress_id>] in a run, in order. *)
Fixpoint polled (progress_id : string) (rs : list (event * response)) : list progress :=
  match rs with
  | [] => []
  | (GetProgress id, Snapshot p) :: rs' =>
      if String.eqb id progress_id then p :: polled progress_id rs'
      else polled progress_id rs'
  | _ :: rs' => polled progress_id rs'
  end.

(** ** Vocabulary of the properties *)

(** [needle] occurs in [hay]. *)
Definition occurs (needle hay : string) : Prop :=
  exists before after, hay = before +:+ needle +:+ after.

(** [needle], a lower-case word, occurs in [hay] in some letter case. *)
Definition occurs_anycase (needle hay : string) : Prop :=
  exists before word after,
    hay = before +:+ word +:+ after /\ Str.lower word = needle.

(** The names under ['error'] in the dictionaries of the two methods. *)
Definition error_names : list string :=
  [ "Invalid Twitter URL format"; "No video found"; "No video content";
    "Private account"; "Tweet not found"; "Download error"; "Unexpected error" ].

(** The order of the ranking, on keys whose two parts are numbers: [a] comes
    before [b] when its height is greater, or the heights are equal and
    its bitrate is not smaller. *)
Definition numeric_key (k : pyval * pyval) : Prop :=
  is_Some (Py.number k.1) /\ is_Some (Py.number k.2).

Definition ranks_before (a b : pyval * pyval) : Prop :=
  match Py.number a.1, Py.number b.1, Py.number a.2, Py.number b.2 with
  | Some h1, Some h2, Some t1, Some t2 =>
      (h2 < h1)%Q \/ ((h1 == h2)%Q /\ (t2 <= t1)%Q)
  | _, _, _, _ => False
  end.

(** Equal height and equal bitrate. *)
Definition same_rank (a b : pyval * pyval) : bool :=
  Py.eq a.1 b.1 && Py.eq a.2 b.2.

(** [fmt] is the first entry of [formats] whose ['format_id'] equals
    [format_id]. *)
Definition first_match (format_id : pyval) (formats : list quality_info)
    (fmt : quality_info) : Prop :=
  exists before after,
    formats = before ++ fmt :: after /\
    Py.eq (q_format_id fmt) format_id = true /\
    Forall (fun f => Py.eq (q_format_id f) format_id = false) before.

Definition no_match (format_id : pyval) (formats : list quality_info) : Prop :=
  Forall (fun f => Py.eq (q_format_id f) format_id = false) formats.

(** [yt-dlp --format FMT --output - URL] *)
Definition stream_cmd (fmt : quality_info) (url : string) : list pyval :=
  [PyStr "yt-dlp"; PyStr "--format"; q_format_id fmt;
   PyStr "--output"; PyStr "-"; PyStr url].

(** Two progress entries agree on every key but ['result']. *)
Definition same_fields (p q : progress) : Prop :=
  p_status p = p_status q /\ p_percent p = p_percent q /\
  p_message p = p_message q /\ p_speed p = p_speed q /\
  p_eta p = p_eta q /\ p_filename p = p_filename q.

Definition terminal (s : JobStatus) : bool :=
  match s with
  | Completed | Error => true
  | _ => false
  end.

(** The place of a status in the order of a job's life. *)
Definition rank (s : JobStatus) : nat :=
  match s with
  | Unknown => 0
  | Starting => 1
  | Extracting => 2
  | Downloading => 3
  | Finished => 4
  | Completed => 5
  | Error => 6
  end.

(** [b] may be seen after [a]: the same status again, or a later one when
    [a] is not terminal. *)
Definition may_follow (a b : JobStatus) : Prop :=
  a = b \/ (terminal a = false /\ (rank a < rank b)%nat).

(** The status that [/progress/<progress_id>] reports in store [st]. *)
Definition status_in (st : store) (progress_id : string) : JobStatus :=
  match download_progress st !! progress_id with
  | Some p => p_status p
  | None => Unknown
  end.

(** The statuses a list of actions writes under [progress_id], in order. *)
Fixpoint writes_to (progress_id : string) (l : list action) : list JobStatus :=
  match l with
  | [] => []
  | SetProgress id p :: l' =>
      if String.eqb id progress_id
      then p_status p :: writes_to progress_id l'
      else writes_to progress_id l'
  | _ :: l' => writes_to progress_id l'
  end.

(** No hook event with status 'downloading' comes after one with status
    'finished'. *)
Fixpoint hooks_in_order (hs : list hook_event) : bool :=
  match hs with
  | [] => true
  | h :: hs' =>
      (if String.eqb (h_status h) "finished"
       then forallb (fun h' => negb (String.eqb (h_status h') "downloading")) hs'
       else true)
      && hooks_in_order hs'
  end.

Definition engine_in_order (eng : Engine) : Prop :=
  forall format url, hooks_in_order (download eng format url).1 = true.

(** The event is a [/download] request that starts a job under [progress_id]. *)
Definition creates (progress_id : string) (e : event) : bool :=
  match e with
  | PostDownload data now _ =>
      negb (String.eqb (url_of data) "") && String.eqb (new_progress_id now) progress_id
  | _ => false
  end.

Definition created_in_order (progress_id : string) (e : event) : Prop :=
  match e with
  | PostDownload _ _ eng => creates progress_id e = true -> engine_in_order eng
  | _ => True
  end.

(** A list of actions never writes a terminal status under an id for which
    no result is stored: [have] holds the ids with a stored result. *)
Fixpoint result_first (have : gset string) (l : list action) : Prop :=
  match l with
  | [] => True
  | SetProgress id p :: l' =>
      (terminal (p_status p) = true -> id ∈ have) /\ result_first have l'
  | SetResult id _ :: l' => result_first ({[id]} ∪ have) l'
  | _ :: l' => result_first have l'
  end.

(** An action that neither stores a result nor writes a terminal status. *)
Definition quiet (a : action) : bool :=
  match a with
  | SetProgress _ p => negb (terminal (p_status p))
  | SetResult _ _ => false
  | _ => true
  end.

(** In the store, a terminal status is backed by a stored result, and no
    thread will write a terminal status before its result. *)
Definition results_precede (s : server) : Prop :=
  (forall id p,
     download_progress (srv_store s) !! id = Some p ->
     terminal (p_status p) = true ->
     id ∈ dom (download_results (srv_store s))) /\
  Forall (result_first (dom (download_results (srv_store s)))) (srv_threads s).

(** The number of [/download] requests in [es] that start a job under
    [progress_id]. *)
Definition creations (progress_id : string) (es : list event) : nat :=
  length (List.filter (creates progress_id) es).

(** The statuses that the polls of [progress_id] see in the run of [es]
    from [s], oldest first. *)
Definition polled_statuses (progress_id : string) (es : list event) (s : server)
  : list JobStatus :=
  p_status <$> polled progress_id (run es s).2.

(** The statuses that thread [k] has still to write under [progress_id]. *)
Definition pending (progress_id : string) (k : nat) (s : server) : list JobStatus :=
  writes_to progress_id (default [] (srv_threads s !! k)).

(** Only thread [k] writes under [progress_id], and what it will write
    continues the stored status in order. *)
Definition in_order (progress_id : string) (k : nat) (s : server) : Prop :=
  (forall n t, srv_threads s !! n = Some t -> n <> k -> writes_to progress_id t = []) /\
  StronglySorted may_follow
    (status_in (srv_store s) progress_id :: pending progress_id k s).

(** Nothing is stored, and nothing will be written, under [progress_id]. *)
Definition fresh (progress_id : string) (s : server) : Prop :=
  download_progress (srv_store s) !! progress_id = None /\
  forall n t, srv_threads s !! n = Some t -> writes_to progress_id t = [].

(** The answers to [/progress] in a list of answers. *)
Definition snapshots (rs : list (event * response)) : list progress :=
  omap (fun er => match er.2 with Snapshot p => Some p | _ => None end) rs.

End Server.

(** ** Sample inputs *)

Module Sample.

Definition url : string := "https://x.com/user/status/123456".

(** A format entry with a video codec and a source location. *)
Definition entry (format_id : string) (height : option Z) (tbr : option Q) : dict :=
  let base : dict :=
    {[ "format_id" := PyStr format_id; "vcodec" := PyStr "h264";
       "url" := PyStr "https://video.twimg.com/v.mp4" ]} in
  let with_height :=
    match height with Some h => <["height" := PyInt h]> base | None => base end in
  match tbr with Some t => <["tbr" := PyFloat t]> with_height | None => with_height end.

Definition hook (status : string) : hook_event :=
  {| h_status := status; h_data := ∅ |}.

(** An engine that finds [formats], reports [hooks] while it downloads, and
    fails nowhere. *)
Definition engine (formats : list dict) (hooks : list hook_event) : Engine :=
  {| extract_info := fun _ _ =>
       Returns (Some {| info_fields := {[ "title" := PyStr "clip" ]};
                        info_formats := Some formats |});
     download := fun _ _ => (hooks, Returns tt);
     prepare_filename := fun _ => Returns "downloads/user_clip_1.mp4" |}.

Definition two_formats : list dict :=
  [ entry "http-832" (Some 480) (Some (832 # 1)%Q);
    entry "http-2176" (Some 720) (Some (2176 # 1)%Q) ].

(** The second entry carries no height. *)
Definition height_missing : list dict :=
  [ entry "http-2176" (Some 720) (Some (2176 # 1)%Q);
    entry "hls-audio-video" None (Some (832 # 1)%Q) ].

Definition plain : Engine := engine two_formats [hook "downloading"; hook "finished"].

(** Two files are fetched one after the other, as for a format selector
    that names a video and an audio stream. *)
Definition two_files : Engine :=
  engine two_formats
    [hook "downloading"; hook "finished"; hook "downloading"; hook "finished"].

Definition post (u : string) (format_id : pyval) : request :=
  {| req_url := Some u; req_format_id := format_id |}.

(** A run with one job, polled before each step of its thread. *)
Definition polled_run (data : request) (eng : Engine) (steps : nat) : list event :=
  PostDownload data 0%Q eng
  :: concat (replicate steps [GetProgress "download_0"; ThreadStep 0])
  ++ [GetProgress "download_0"].

Definition finished_entry : progress :=
  {| p_status := Finished; p_percent := "100%"; p_message := None;
     p_speed := None; p_eta := None; p_filename := Some (PyStr "clip.mp4");
     p_result := None |}.

(** A store in the state between the two last writes of a download thread. *)
Definition result_stored : store :=
  {| download_progress := {[ "download_1700000000" := finished_entry ]};
     download_results := {[ "download_1700000000" := invalid_url ]} |}.

End Sample.

(** ** [TwitterDownloader.download_video], the command-line method *)

Module TwitterDownloader.

Section Method.
Context `{U : Unicode}.

(** The [print] statements of the method, one constructor each, with the
    values they interpolate. *)
Inductive line : Type :=
| InvalidFormat                 (* Invalid Twitter URL format *)
| PleaseProvide                 (* Please provide a valid Twitter/X URL like: *)
| ExampleTwitter
| ExampleX
| Processing (url : string)
| OutputDirectory (output_dir : string)
| ExtractingInformation
| NoVideoFound
| NoVideoContent
| OnlyImagesOrText
| VideoFound (title : pyval)
| Author (uploader : pyval)
| Duration (duration : pyval)
| StartingDownload
| DownloadCompleted
| DownloadErrorLine (msg : string)
| HintPrivate
| HintDeleted
| UnexpectedErrorLine (msg : string).

Inductive effect : Type :=
| Print (l : line)
| Call (a : action).

(** The [except yt_dlp.DownloadError] clause. *)
Definition download_error_lines (msg : string) : list effect :=
  Print (DownloadErrorLine msg) ::
  if Str.contains "Private" msg || Str.contains "protected" (Str.lower msg)
  then [Print HintPrivate]
  else if Str.contains "not found" (Str.lower msg)
  then [Print HintDeleted]
  else [].

Definition except {A : Type} (o : outcome A) : list effect :=
  match o with
  | Returns _ => []
  | DownloadError msg => download_error_lines msg
  | OtherError msg => [Print (UnexpectedErrorLine msg)]
  end.

(** The method answers [True] or [False]; what it prints and calls comes
    with the answer.  It runs under [self.ydl_opts], whose format is
    [default_format] and which has no progress hook. *)
Definition download_video (eng : Engine) (output_dir url : string)
  : bool * list effect :=
  if negb (is_valid_twitter_url url)
  then (false, [Print InvalidFormat; Print PleaseProvide;
                Print ExampleTwitter; Print ExampleX])
  else
    let before :=
      [Print (Processing url); Print (OutputDirectory output_dir);
       Print ExtractingInformation;
       Call (ExtractInfo (Some default_format) url)] in
    match extract_info eng (Some default_format) url with
    | Returns info =>
        match info with
        | Some i =>
            if info_falsy info then (false, before ++ [Print NoVideoFound]) else
            match filter (fun f => has_video f = true) (formats_of i) with
            | [] => (false, before ++ [Print NoVideoContent; Print OnlyImagesOrText])
            | _ =>
                let found :=
                  [Print (VideoFound
                            (Py.get_or (info_fields i) "title" (PyStr "Unknown title")));
                   Print (Author (Py.get_or (info_fields i) "uploader" (PyStr "Unknown")));
                   Print (Duration (Py.get_or (info_fields i) "duration" (PyStr "Unknown")));
                   Print StartingDownload;
                   Call (Download default_format url)] in
                match (download eng default_format url).2 with
                | Returns _ => (true, before ++ found ++ [Print DownloadCompleted])
                | failed => (false, before ++ found ++ except failed)
                end
            end
        | None => (false, before ++ [Print NoVideoFound])
        end
    | failed => (false, before ++ except failed)
    end.

Definition is_error_line (e : effect) : bool :=
  match e with
  | Print InvalidFormat | Print NoVideoFound | Print NoVideoContent
  | Print (DownloadErrorLine _) | Print (UnexpectedErrorLine _) => true
  | _ => false
  end.

Definition calls (l : list effect) : list action :=
  omap (fun e => match e with Call a => Some a | Print _ => None end) l.

End Method.

End TwitterDownloader.

(** ** The files of the [downloads] directory *)

Record file_stat : Type := {
  is_file : bool;            (* [file_path.is_file()] *)
  st_size : Z;
  st_mtime : Q
}.

(** The directory [downloads]: [None] when it does not exist, else its
    entries by name. *)
Abbreviation directory := (option (gmap string file_stat)).

(** One dictionary of the list under ['files']. *)
Record listed_file : Type := {
  lf_name : string;
  lf_size : Z;
  lf_modified : Q
}.

(** [/downloads].  The entries come in the order of the directory scan. *)
Definition list_downloads (downloads : directory) : list listed_file :=
  match downloads with
  | None => []
  | Some entries =>
      (fun ne : string * file_stat =>
         {| lf_name := ne.1; lf_size := st_size ne.2; lf_modified := st_mtime ne.2 |})
      <$> filter (fun ne : string * file_stat => is_file ne.2 = true)
                 (map_to_list entries)
  end.

(** What [download_file] returns.  [SendFile path] is the call
    [send_file(path, as_attachment=True)]: what comes of it is Flask's
    doing, which opens [path] on its own and may fail to. *)
Inductive file_response : Type :=
| SendFile (path : string)
| FileNotFound.                  (* {'error': 'File not found'}, 404 *)

(** [/download_file/<filename>]; the route hands over one path segment.
    [downloads] is the directory as [exists()], [is_file()] and [glob] see
    it. *)
Definition download_file (downloads : directory) (filename : string) : file_response :=
  match downloads with
  | None => FileNotFound
  | Some entries =>
      match entries !! filename with
      | Some st => if is_file st then SendFile ("downloads/" +:+ filename) else FileNotFound
      | None => FileNotFound
      end
  end.

(** ** Vocabulary of the further properties *)

Section Further.
Context `{U : Unicode}.

(** A thread that runs to its end, alone. *)
Definition run_actions (l : list action) (st : store) : store :=
  foldl (fun st a => perform a st) st l.

(** The action writes under [id], in either dictionary. *)
Definition mentions (id : string) (a : action) : bool :=
  match a with
  | SetProgress i _ | SetResult i _ => String.eqb i id
  | _ => false
  end.

Definition engine_calls (l : list action) : list action :=
  List.filter is_engine_call l.

(** [opts['format']] of [download_video_web]. *)
Definition format_of (format_id : pyval) : pyval :=
  if Py.truthy format_id then format_id else default_format.

(** [None], a number or a string. *)
Definition kind_of (v : pyval) : nat :=
  match v with
  | PyNone => 0
  | PyInt _ | PyFloat _ => 1
  | PyStr _ => 2
  end.

(** The nine characters that [stream_download] replaces in a title. *)
Definition forbidden (c : ascii) : bool :=
  existsb (fun x => (N_of_ascii c =? x)%N) [60; 62; 58; 34; 47; 92; 124; 63; 42]%N.

(** Nothing is stored under [id], and no thread will write under it. *)
Definition absent (id : string) (s : server) : Prop :=
  download_progress (srv_store s) !! id = None /\
  download_results (srv_store s) !! id = None /\
  Forall (Forall (fun a => mentions id a = false)) (srv_threads s).


(** [skip] stops where no group of one, two or three elements at the head
    of the list satisfies the test. *)
Definition stops (sp : list ascii -> bool) (l : list ascii) : Prop :=
  match l with
  | [] => True
  | a :: l1 =>
      sp [a] = false /\
      match l1 with
      | [] => True
      | b :: l2 =>
          sp [a; b] = false /\
          match l2 with
          | [] => True
          | c :: _ => sp [a; b; c] = false
          end
      end
  end.

(** The ways in which [skip] drops one group. *)
Definition group (sp : list ascii -> bool) (w : list ascii) : Prop :=
  match w with
  | [a] => sp [a] = true
  | [a; b] => sp [a] = false /\ sp [a; b] = true
  | [a; b; c] => sp [a] = false /\ sp [a; b] = false /\ sp [a; b; c] = true
  | _ => False
  end.

(** [w] is a run of whitespace characters. *)
Definition whitespace (w : string) : Prop := Str.run Str.is_space w.

(** An action of [download_video_web]: no result is stored, and a progress
    entry is written without the key ['result']. *)
Definition plain_write (a : action) : Prop :=
  match a with
  | SetProgress _ p => p_result p = None
  | SetResult _ _ => False
  | _ => True
  end.

(** Under [id], the action stores no result but [r], and writes a progress
    entry without the key ['result']. *)
Definition writes_result (id : string) (r : payload) (a : action) : Prop :=
  match a with
  | SetProgress i p => i = id -> p_result p = None
  | SetResult i r' => i = id -> r' = r
  | _ => True
  end.

(** [r] is the one result that is, or will be, stored under [id]. *)
Definition owned (id : string) (r : payload) (s : server) : Prop :=
  (forall r', download_results (srv_store s) !! id = Some r' -> r' = r) /\
  (forall p, download_progress (srv_store s) !! id = Some p ->
             p_result p = None \/ p_result p = Some r) /\
  Forall (Forall (writes_result id r)) (srv_threads s).

(** The result of the job that the request starts under [id]. *)
Definition result_of (id : string) (e : event) : option payload :=
  match e with
  | PostDownload data now eng =>
      if creates id e
      then Some (download_video_web eng (Some id) (url_of data) (req_format_id data)).1
      else None
  | _ => None
  end.



End Further.

Module Demo.

Definition listing : directory :=
  Some {[ "user_clip_1.mp4" := {| is_file := true; st_size := 1024; st_mtime := 0%Q |};
          "partial" := {| is_file := false; st_size := 0; st_mtime := 0%Q |} ]}.

(** What the engines of [Sample] find for a post. *)
Definition clip (formats : list dict) : info_dict :=
  {| info_fields := {[ "title" := PyStr "clip" ]}; info_formats := Some formats |}.

(** An engine whose probe finds the two formats of [Sample] under [title]. *)
Definition titled (title : pyval) : Engine :=
  {| extract_info := fun _ _ =>
       Returns (Some {| info_fields := {[ "title" := title ]};
                        info_formats := Some Sample.two_formats |});
     download := fun _ _ => ([], Returns tt);
     prepare_filename := fun _ => Returns "downloads/user_clip_1.mp4" |}.

(** A job under [download_0] runs while another id is polled. *)
Definition other_id_polled (id : string) : list event :=
  [ GetProgress id; PostDownload (Sample.post Sample.url PyNone) 0%Q Sample.plain;
    GetProgress id; ThreadStep 0; ThreadStep 0; GetProgress id ].

(** A space, U+00A0, U+2003 and a tab. *)
Definition spaces : string :=
  String " " (String (ascii_of_N 194) (String (ascii_of_N 160)
    (String (ascii_of_N 226) (String (ascii_of_N 128) (String (ascii_of_N 131)
      (String (ascii_of_N 9) "")))))).

(** The letter U+00E9, two bytes. *)
Definition e_acute : string := String (ascii_of_N 195) (String (ascii_of_N 169) "").

(** The digit U+0661, two bytes. *)
Definition arabic_one : string := String (ascii_of_N 217) (String (ascii_of_N 161) "").

End Demo.

(** ** Tables for the examples *)

(** Tables that hold nothing beyond ASCII.  The examples and the instances
    of the theorems at sample inputs are computed with them; the text that
    reaches the validator there is ASCII, so that no table is consulted. *)
Definition ascii_tables : Unicode :=
  {| isalnum := fun _ => false; isdecimal := fun _ => false |}.

(* ===================================================================== *)
(** * Part II: proofs                                                     *)
(* ===================================================================== *)

Section Samples.
#[local] Existing Instance ascii_tables.

Example valid_x : is_valid_twitter_url "https://x.com/user/status/123456" = true.
Proof. reflexivity. Qed.
Example valid_tco_trailing : is_valid_twitter_url "http://t.co/abc def" = true.
Proof. reflexivity. Qed.
Example invalid_plain : is_valid_twitter_url "not-a-url" = false.
Proof. reflexivity. Qed.
Example invalid_leading_space : is_valid_twitter_url " https://x.com/user/status/1" = false.
Proof. reflexivity. Qed.

End Samples.

Section Proofs.
Context `{U : Unicode}.
Example strip_ex : Str.strip "  a b  " = "a b".
Proof. reflexivity. Qed.

(** ** Facts on strings *)

Lemma to_list_app (a b : string) :
  Str.to_list (a +:+ b) = Str.to_list a ++ Str.to_list b.
Proof. induction a as [|c a IH]; simpl; [done|]. by rewrite <- IH. Qed.

Lemma of_to_list (s : string) : Str.of_list (Str.to_list s) = s.
Proof. apply string_of_list_ascii_of_string. Qed.

Lemma to_of_list (l : list ascii) : Str.to_list (Str.of_list l) = l.
Proof. apply list_ascii_of_string_of_list_ascii. Qed.

Lemma to_list_inj (a b : string) : Str.to_list a = Str.to_list b -> a = b.
Proof. intros H. rewrite <- (of_to_list a), <- (of_to_list b). by rewrite H. Qed.

Lemma of_list_app (l k : list ascii) :
  Str.of_list (l ++ k) = Str.of_list l +:+ Str.of_list k.
Proof. apply to_list_inj. by rewrite to_list_app, !to_of_list. Qed.

(** ** The matcher decides membership of a prefix *)

Lemma nullable_matches (r : regex) : nullable r = true <-> matches r [].
Proof.
  split.
  - induction r as [| |c|n p|r1 IH1 r2 IH2|r1 IH1 r2 IH2|r IH];
      simpl; intros H; try discriminate.
    + constructor.
    + destruct n; [by constructor | discriminate].
    + apply orb_true_iff in H as [H|H]; [apply M_alt_l | apply M_alt_r]; auto.
    + apply andb_true_iff in H as [H1 H2].
      apply (M_seq r1 r2 [] []); auto.
    + constructor.
  - intros H. remember [] as w eqn:Hw.
    induction H as [|c|n p w Hl Hp|r1 r2 w H IH|r1 r2 w H IH
                   |r1 r2 w1 w2 H1 IH1 H2 IH2| |r w1 w2 H1 IH1 H2 IH2];
      simpl; try discriminate; auto.
    + subst. done.
    + rewrite IH; auto.
    + rewrite IH; auto using orb_true_r.
    + apply app_eq_nil in Hw as [-> ->]. rewrite IH1, IH2; auto.
Qed.

Lemma deriv_sound (a : ascii) (r : regex) :
  forall w, matches (deriv a r) w -> matches r (a :: w).
Proof.
  induction r as [| |c|n p|r1 IH1 r2 IH2|r1 IH1 r2 IH2|r IH]; simpl; intros w H.
  - inversion H.
  - inversion H.
  - destruct (ascii_dec a c) as [->|]; inversion H; subst. constructor.
  - destruct n as [|n]; inversion H; subst. by constructor.
  - inversion H; subst; [apply M_alt_l | apply M_alt_r]; auto.
  - destruct (nullable r1) eqn:Hn.
    + inversion H as [| | |? ? ? H1|? ? ? H1| | |]; subst.
      * inversion H1; subst. apply (M_seq r1 r2 (a :: _) _); auto.
      * apply (M_seq r1 r2 [] (a :: w)); auto. by apply nullable_matches.
    + inversion H; subst. apply (M_seq r1 r2 (a :: _) _); auto.
  - inversion H; subst. apply (M_star_cons r (a :: _) _); auto.
Qed.

Lemma deriv_complete (a : ascii) (r : regex) (v : list ascii) :
  matches r v -> forall w, v = a :: w -> matches (deriv a r) w.
Proof.
  induction 1 as [|c|n p v Hl Hp|r1 r2 v H IH|r1 r2 v H IH
                 |r1 r2 v1 v2 H1 IH1 H2 IH2| |r v1 v2 H1 IH1 H2 IH2];
    intros w Hv; simpl.
  - discriminate.
  - injection Hv as E1 E2; subst. destruct (ascii_dec a a); [constructor|done].
  - subst. simpl. by constructor.
  - apply M_alt_l; auto.
  - apply M_alt_r; auto.
  - destruct v1 as [|b v1]; simpl in Hv.
    + apply nullable_matches in H1. rewrite H1. apply M_alt_r; auto.
    + injection Hv as E1 E2; subst.
      assert (matches (Seq (deriv a r1) r2) (v1 ++ v2)) by (constructor; auto).
      destruct (nullable r1); [by apply M_alt_l | done].
  - discriminate.
  - destruct v1 as [|b v1]; simpl in Hv.
    + auto.
    + injection Hv as E1 E2; subst. constructor; auto.
Qed.

Lemma deriv_matches (a : ascii) (r : regex) (w : list ascii) :
  matches (deriv a r) w <-> matches r (a :: w).
Proof. split; [apply deriv_sound | intros H; by eapply deriv_complete]. Qed.

Lemma match_prefix (r : regex) (s : list ascii) :
  match_ r s = true <-> exists p q, s = p ++ q /\ matches r p.
Proof.
  revert r. induction s as [|a s IH]; intros r; simpl.
  - rewrite orb_false_r, nullable_matches. split.
    + intros H. by exists [], [].
    + intros (p & q & Hs & H). symmetry in Hs. by apply app_eq_nil in Hs as [-> _].
  - rewrite orb_true_iff, nullable_matches, IH. split.
    + intros [H | (p & q & -> & H)].
      * by exists [], (a :: s).
      * exists (a :: p), q. split; [done|]. by apply deriv_matches.
    + intros (p & q & Hs & H). destruct p as [|b p]; [by left|].
      injection Hs as <- ->. right. exists p, q. split; [done|].
      by apply deriv_matches.
Qed.

(** ** Words of the pattern constructors *)

Lemma matches_lit (s : string) (w : list ascii) :
  matches (Lit s) w <-> w = Str.to_list s.
Proof.
  revert w. induction s as [|c s IH]; intros w; simpl.
  - split; [by inversion 1 | intros ->; constructor].
  - split.
    + inversion 1 as [| | | | |? ? ? ? H1 H2| |]; subst.
      inversion H1; subst. apply IH in H2 as ->. done.
    + intros ->. apply (M_seq _ _ [c]); [constructor | by apply IH].
Qed.

Lemma matches_seq (r1 r2 : regex) (w : list ascii) :
  matches (Seq r1 r2) w <->
  exists w1 w2, w = w1 ++ w2 /\ matches r1 w1 /\ matches r2 w2.
Proof.
  split.
  - inversion 1; subst; eauto.
  - intros (w1 & w2 & -> & H1 & H2). by constructor.
Qed.

Lemma matches_opt (r : regex) (w : list ascii) :
  matches (Opt r) w <-> matches r w \/ w = [].
Proof.
  unfold Opt. split.
  - inversion 1 as [| | |? ? ? H1|? ? ? H1| | |]; subst; [by left|].
    inversion H1. by right.
  - intros [H| ->]; [by apply M_alt_l | apply M_alt_r; constructor].
Qed.

Lemma matches_group (n : nat) (p : list ascii -> bool) (w : list ascii) :
  matches (Group n p) w <-> length w = n /\ p w = true.
Proof.
  split; [by inversion 1 | intros [H1 H2]; by constructor].
Qed.

Lemma matches_alt (r1 r2 : regex) (w : list ascii) :
  matches (Alt r1 r2) w <-> matches r1 w \/ matches r2 w.
Proof.
  split.
  - inversion 1; subst; auto.
  - intros [H|H]; [by apply M_alt_l | by apply M_alt_r].
Qed.

(** The words of [Char p] are the encodings of the characters of [p]. *)
Lemma matches_char (p : N -> bool) (w : list ascii) :
  matches (Char p) w <-> Str.is_char p w = true.
Proof.
  unfold Char. rewrite !matches_alt, !matches_group. split.
  - intros [[_ H]|[[_ H]|[[_ H]|[_ H]]]]; exact H.
  - intros H. unfold Str.is_char in H.
    destruct w as [|a [|b [|c [|d [|e w]]]]]; try discriminate; auto 6.
Qed.

Lemma matches_star (r : regex) (w : list ascii) :
  matches (Star r) w <-> exists ws, w = concat ws /\ Forall (matches r) ws.
Proof.
  split.
  - intros H. remember (Star r) as r' eqn:Hr.
    induction H as [| | | | | | |r0 w1 w2 H1 _ H2 IH2]; try discriminate.
    + by exists [].
    + injection Hr as ->. destruct (IH2 eq_refl) as (ws & -> & Hws).
      exists (w1 :: ws). split; [done | by constructor].
  - intros (ws & -> & Hws). induction Hws as [|w1 ws H1 _ IH]; simpl; by constructor.
Qed.

Lemma is_char_nonempty (p : N -> bool) (w : list ascii) :
  Str.is_char p w = true -> w <> [].
Proof. by destruct w. Qed.

Lemma matches_scheme (w : list ascii) :
  matches re_scheme w <-> exists sch, Shape.scheme sch /\ w = Str.to_list (sch +:+ "://").
Proof.
  unfold re_scheme. rewrite matches_seq. split.
  - intros (w1 & w2 & -> & H1 & H2). apply matches_lit in H1 as ->.
    apply matches_seq in H2 as (w3 & w4 & -> & H3 & H4).
    apply matches_lit in H4 as ->. apply matches_opt in H3 as [H3| ->].
    + inversion H3; subst. exists "https". split; [by right | done].
    + exists "http". split; [by left | done].
  - intros (sch & [-> | ->] & ->).
    + exists (Str.to_list "http"), (Str.to_list "://"). split; [done|].
      split; [by apply matches_lit|]. apply matches_seq. exists [], (Str.to_list "://").
      split; [done|]. split; [apply matches_opt; by right | by apply matches_lit].
    + exists (Str.to_list "http"), (Str.to_list "s://"). split; [done|].
      split; [by apply matches_lit|]. apply matches_seq.
      exists (Str.to_list "s"), (Str.to_list "://").
      split; [done|]. split; [apply matches_opt; left; constructor | by apply matches_lit].
Qed.

Lemma matches_word (p : N -> bool) (w : list ascii) :
  matches (Plus (Char p)) w <->
  exists s, (s <> "" /\ Str.run p s) /\ w = Str.to_list s.
Proof.
  unfold Plus, Str.run. rewrite matches_seq. split.
  - intros (w1 & w2 & -> & H1 & H2). apply matches_char in H1.
    apply matches_star in H2 as (ws & -> & Hws).
    exists (Str.of_list (w1 ++ concat ws)). rewrite to_of_list.
    split; [|done]. split.
    + intros E. apply (f_equal Str.to_list) in E. rewrite to_of_list in E.
      apply app_eq_nil in E as [E _]. by apply is_char_nonempty in H1.
    + exists (w1 :: ws). split; [done|]. constructor; [done|].
      eapply Forall_impl; [exact Hws|]. intros x. apply matches_char.
  - intros (s & [Hne (chars & Hs & Hc)] & ->). rewrite Hs.
    destruct Hc as [|w1 ws H1 Hws].
    { destruct Hne. apply to_list_inj. by rewrite Hs. }
    exists w1, (concat ws). split; [done|]. split; [by apply matches_char|].
    apply matches_star. exists ws. split; [done|].
    eapply Forall_impl; [exact Hws|]. intros x. apply matches_char.
Qed.

Lemma matches_www (w : list ascii) :
  matches (Opt (Lit "www.")) w <-> exists s, Shape.www s /\ w = Str.to_list s.
Proof.
  rewrite matches_opt, matches_lit. split.
  - intros [-> | ->];
      [exists "www."; split; [by right | done] | exists ""; split; [by left | done]].
  - intros (s & [-> | ->] & ->); [by right | by left].
Qed.

Lemma matches_status (host : string) (w : list ascii) :
  matches (re_status host) w <->
  exists u, Shape.status_url host u /\ w = Str.to_list u.
Proof.
  unfold re_status, Shape.status_url.
  rewrite matches_seq. setoid_rewrite matches_scheme.
  setoid_rewrite matches_seq. setoid_rewrite matches_www.
  setoid_rewrite matches_seq. setoid_rewrite matches_lit.
  setoid_rewrite matches_seq. setoid_rewrite matches_lit.
  setoid_rewrite matches_seq. setoid_rewrite matches_word.
  setoid_rewrite matches_seq. setoid_rewrite matches_lit.
  setoid_rewrite matches_word.
  split.
  - intros (w1 & w2 & -> & (sch & Hsch & ->) & w3 & w4 & -> & (www & Hwww & ->)
            & w5 & w6 & -> & -> & w7 & w8 & -> & -> & w9 & w10 & ->
            & (user & Huser & ->) & w11 & w12 & -> & -> & num & Hnum & ->).
    eexists. split.
    + exists sch, www, user, num. repeat split; try done; apply Huser || apply Hnum.
    + rewrite !to_list_app, <- !app_assoc. done.
  - intros (u & (sch & www & user & num & Hsch & Hwww & Huser & Hnum & ->) & ->).
    exists (Str.to_list (sch +:+ "://")), (Str.to_list
      (www +:+ host +:+ "/" +:+ user +:+ "/status/" +:+ num)).
    split; [by rewrite !to_list_app, <- !app_assoc|].
    split; [by exists sch|].
    exists (Str.to_list www), (Str.to_list (host +:+ "/" +:+ user +:+ "/status/" +:+ num)).
    split; [by rewrite !to_list_app|]. split; [by exists www|].
    exists (Str.to_list host), (Str.to_list ("/" +:+ user +:+ "/status/" +:+ num)).
    split; [by rewrite !to_list_app|]. split; [done|].
    exists (Str.to_list "/"), (Str.to_list (user +:+ "/status/" +:+ num)).
    split; [by rewrite !to_list_app|]. split; [done|].
    exists (Str.to_list user), (Str.to_list ("/status/" +:+ num)).
    split; [by rewrite !to_list_app|]. split; [by exists user|].
    exists (Str.to_list "/status/"), (Str.to_list num).
    split; [by rewrite !to_list_app|]. split; [done|]. by exists num.
Qed.

Lemma matches_short (w : list ascii) :
  matches (Seq re_scheme (Seq (Lit "t.co/") (Plus (Char is_word)))) w <->
  exists u, Shape.short_link u /\ w = Str.to_list u.
Proof.
  unfold Shape.short_link.
  rewrite matches_seq. setoid_rewrite matches_scheme.
  setoid_rewrite matches_seq. setoid_rewrite matches_lit.
  setoid_rewrite matches_word.
  split.
  - intros (w1 & w2 & -> & (sch & Hsch & ->) & w3 & w4 & -> & -> & code & Hcode & ->).
    eexists. split.
    + exists sch, code. repeat split; try done; apply Hcode.
    + rewrite !to_list_app, <- !app_assoc. done.
  - intros (u & (sch & code & Hsch & Hcode & ->) & ->).
    exists (Str.to_list (sch +:+ "://")), (Str.to_list ("t.co/" +:+ code)).
    split; [by rewrite !to_list_app, <- !app_assoc|].
    split; [by exists sch|].
    exists (Str.to_list "t.co/"), (Str.to_list code).
    split; [by rewrite !to_list_app|]. split; [done|]. by exists code.
Qed.

Lemma match_shape (r : regex) (P : string -> Prop) (url : string) :
  (forall w, matches r w <-> exists u, P u /\ w = Str.to_list u) ->
  match_ r (Str.to_list url) = true <->
  exists shape rest, P shape /\ url = shape +:+ rest.
Proof.
  intros Hr. rewrite match_prefix. split.
  - intros (p & q & Hs & Hm). apply Hr in Hm as (u & Hu & ->).
    exists u, (Str.of_list q). split; [done|].
    apply to_list_inj. by rewrite to_list_app, to_of_list.
  - intros (shape & rest & Hs & ->).
    exists (Str.to_list shape), (Str.to_list rest).
    split; [by rewrite to_list_app|]. apply Hr. by exists shape.
Qed.

(** C8. [is_valid_twitter_url] answers true exactly for the strings that
    start with one of the three documented shapes (a twitter.com status URL,
    an x.com status URL, a t.co short link).  The match is a prefix match:
    whatever follows the shape is accepted, and a string that starts with
    none of the shapes is rejected.  A user name and a short code are runs
    of the characters of [\w], a status id is a run of those of [\d], ASCII
    or not, whatever the tables of the interpreter hold. *)
Theorem is_valid_twitter_url_prefix_of_shape (url : string) :
  is_valid_twitter_url url = true <-> Shape.starts_with_documented url.
Proof.
  unfold is_valid_twitter_url, twitter_patterns, Shape.starts_with_documented,
    Shape.documented. simpl existsb.
  rewrite orb_false_r, !orb_true_iff.
  rewrite (match_shape _ _ url (matches_status "twitter.com")).
  rewrite (match_shape _ _ url (matches_status "x.com")).
  rewrite (match_shape _ _ url matches_short).
  split.
  - intros [(s & r & H & ->) | [(s & r & H & ->) | (s & r & H & ->)]];
      exists s, r; auto.
  - intros (s & r & [H | [H | H]] & ->); [left | right; left | right; right];
      by exists s, r.
Qed.

(** Beyond ASCII the tables decide: a short code of one U+00E9 and a status
    id of one U+0661 are accepted when the tables have the one as a letter
    and the other as a decimal digit, as those of the interpreter do. *)
Example accented_short_code_accepted :
  isalnum 233 = true ->
  is_valid_twitter_url ("https://t.co/" +:+ Demo.e_acute) = true.
Proof.
  destruct U as [alnum decimal]. simpl. intros H. vm_compute. by rewrite H.
Qed.

Example arabic_indic_status_id_accepted :
  isdecimal 1633 = true ->
  is_valid_twitter_url ("https://x.com/user/status/" +:+ Demo.arabic_one) = true.
Proof.
  destruct U as [alnum decimal]. simpl. intros H. vm_compute. by rewrite H.
Qed.

(** ** Requests without a URL (C10) *)




End Proofs.

Section Samples.
#[local] Existing Instance ascii_tables.


End Samples.

Section Proofs.
Context `{U : Unicode}.

(** ** Invalid URLs (C7) *)

(** The handlers pass on the stripped URL. *)
Lemma invalid_url_handlers (data : request) (now : Q) (eng : Engine) (st : store) :
  url_of data <> "" ->
  is_valid_twitter_url (url_of data) = false ->
  get_video_info data eng = (Json invalid_url, []) /\
  stream_download data eng = (Json invalid_url, []) /\
  (download_video data now eng st).2 =
    Some [ SetResult (new_progress_id now) invalid_url;
           SetProgress (new_progress_id now)
             (progress_msg Error "0%" "Please provide a valid Twitter/X URL") ].
Proof.
  intros Hne H. unfold get_video_info, stream_download, download_video.
  destruct (String.eqb_spec (url_of data) "") as [E|_]; [done|].
  unfold stream_download_from_url, get_video_info_web, download_thread,
    download_video_web.
  rewrite H. done.
Qed.

(** C7. For every URL that [is_valid_twitter_url] rejects, the metadata
    query, the streaming path and the download job each end in the failure
    'Invalid Twitter URL format' and make no call to the engine: the logs
    of the first two are empty, the method of the job performs nothing, and
    the job's thread only stores the failure and the status 'error'.  The
    same holds for the three handlers on a request whose URL, stripped, is
    this URL and is not empty. *)
Theorem invalid_url_no_engine_call
    (eng : Engine) (url progress_id : string) (format_id : pyval) :
  is_valid_twitter_url url = false ->
  get_video_info_web eng url = (invalid_url, []) /\
  stream_download_from_url eng url format_id = (Json invalid_url, []) /\
  download_video_web eng (Some progress_id) url format_id = (invalid_url, []) /\
  download_thread eng progress_id url format_id =
    [ SetResult progress_id invalid_url;
      SetProgress progress_id
        (progress_msg Error "0%" "Please provide a valid Twitter/X URL") ] /\
  existsb is_engine_call (download_thread eng progress_id url format_id) = false /\
  (forall (data : request) (now : Q) (st : store),
     url_of data = url -> url <> "" ->
     get_video_info data eng = (Json invalid_url, []) /\
     stream_download data eng = (Json invalid_url, []) /\
     (download_video data now eng st).2 =
       Some [ SetResult (new_progress_id now) invalid_url;
              SetProgress (new_progress_id now)
                (progress_msg Error "0%" "Please provide a valid Twitter/X URL") ]).
Proof.
  intros H. split; [|split; [|split; [|split; [|split]]]].
  - unfold get_video_info_web. by rewrite H.
  - unfold stream_download_from_url. by rewrite H.
  - unfold download_video_web. by rewrite H.
  - unfold download_thread, download_video_web. by rewrite H.
  - unfold download_thread, download_video_web. by rewrite H.
  - intros data now st <- Hne. by apply invalid_url_handlers.
Qed.

End Proofs.

Section Samples.
#[local] Existing Instance ascii_tables.

Lemma invalid_url_no_engine_call_witness :
  get_video_info_web Sample.plain "not-a-url" = (invalid_url, []) /\
  stream_download_from_url Sample.plain "not-a-url" PyNone = (Json invalid_url, []) /\
  download_video_web Sample.plain (Some "download_0") "not-a-url" PyNone
    = (invalid_url, []) /\
  download_thread Sample.plain "download_0" "not-a-url" PyNone =
    [ SetResult "download_0" invalid_url;
      SetProgress "download_0"
        (progress_msg Error "0%" "Please provide a valid Twitter/X URL") ] /\
  existsb is_engine_call (download_thread Sample.plain "download_0" "not-a-url" PyNone)
    = false.
Proof.
  pose proof (invalid_url_no_engine_call Sample.plain "not-a-url" "download_0" PyNone
                eq_refl) as (H1 & H2 & H3 & H4 & H5 & _).
  repeat split; assumption.
Defined.

End Samples.

Section Proofs.
Context `{U : Unicode}.

(** ** Substrings *)

Lemma app_cons (c : ascii) (a b : string) : String c a +:+ b = String c (a +:+ b).
Proof. reflexivity. Qed.

Lemma app_empty_l (b : string) : "" +:+ b = b.
Proof. reflexivity. Qed.

Lemma app_assoc_s (a b c : string) : (a +:+ b) +:+ c = a +:+ b +:+ c.
Proof. induction a as [|x a IH]; [done|]. by rewrite !app_cons, IH. Qed.

Lemma starts_with_spec (p s : string) :
  Str.starts_with p s = true <-> exists r, s = p +:+ r.
Proof.
  revert s. induction p as [|a p IH]; intros s; simpl.
  - split; [intros _; by exists s | done].
  - destruct s as [|b s].
    + split; [done | intros (r & Hr); discriminate].
    + destruct (ascii_dec a b) as [->|Hab].
      * rewrite IH. split; intros (r & Hr); exists r.
        -- by rewrite app_cons, <- Hr.
        -- rewrite app_cons in Hr. by injection Hr.
      * split; [done|]. intros (r & Hr). rewrite app_cons in Hr.
        injection Hr as E _. by destruct Hab.
Qed.

Lemma contains_unfold (n h : string) :
  Str.contains n h =
  Str.starts_with n h ||
  match h with EmptyString => false | String _ h' => Str.contains n h' end.
Proof. by destruct h. Qed.

Lemma contains_spec (n h : string) : Str.contains n h = true <-> occurs n h.
Proof.
  unfold occurs. split.
  - induction h as [|c h IH]; rewrite contains_unfold, orb_true_iff.
    + intros [H|H]; [|done]. apply starts_with_spec in H as (r & Hr).
      exists "", r. by rewrite app_empty_l.
    + intros [H|H].
      * apply starts_with_spec in H as (r & Hr). exists "", r.
        by rewrite app_empty_l.
      * destruct (IH H) as (b & a & ->). exists (String c b), a.
        by rewrite app_cons.
  - intros (b & a & ->). induction b as [|c b IH].
    + rewrite app_empty_l, contains_unfold. apply orb_true_iff. left.
      apply starts_with_spec. by exists a.
    + rewrite app_cons, contains_unfold, IH. apply orb_true_r.
Qed.

Lemma lower_app (a b : string) : Str.lower (a +:+ b) = Str.lower a +:+ Str.lower b.
Proof. induction a as [|c a IH]; [done|]. simpl. by rewrite !app_cons, IH. Qed.

Lemma lower_split (h x y : string) :
  Str.lower h = x +:+ y ->
  exists h1 h2, h = h1 +:+ h2 /\ Str.lower h1 = x /\ Str.lower h2 = y.
Proof.
  revert h. induction x as [|c x IH]; intros h H.
  - exists "", h. by rewrite !app_empty_l in *.
  - destruct h as [|d h]; [discriminate|]. simpl in H. rewrite app_cons in H.
    injection H as Hc Hh. destruct (IH h Hh) as (h1 & h2 & -> & H1 & H2).
    exists (String d h1), h2. simpl. by rewrite app_cons, Hc, H1, H2.
Qed.

Lemma contains_lower_spec (n h : string) :
  Str.contains n (Str.lower h) = true <-> occurs_anycase n h.
Proof.
  rewrite contains_spec. unfold occurs, occurs_anycase. split.
  - intros (b & a & H). apply lower_split in H as (h1 & r & -> & H1 & H).
    apply lower_split in H as (w & h3 & -> & Hw & H3).
    by exists h1, w, h3.
  - intros (b & w & a & -> & Hw).
    exists (Str.lower b), (Str.lower a). by rewrite !lower_app, Hw.
Qed.

(** ** Classification of engine errors (C6) *)

(** C6, as the code has it.  A [DownloadError] is classified by its message:
    'Private account' when the message contains [Private] written exactly
    so, or [protected] in any letter case; otherwise 'Tweet not found' when
    it contains [not found] in any letter case; otherwise 'Download error',
    which keeps the message as it is. *)
Theorem download_error_classification (msg : string) :
  ((occurs "Private" msg \/ occurs_anycase "protected" msg) /\
   download_error msg =
     Failure "Private account" (Some "This tweet is from a private account"))
  \/
  (~ (occurs "Private" msg \/ occurs_anycase "protected" msg) /\
   occurs_anycase "not found" msg /\
   download_error msg =
     Failure "Tweet not found" (Some "Tweet not found - it might have been deleted"))
  \/
  (~ (occurs "Private" msg \/ occurs_anycase "protected" msg) /\
   ~ occurs_anycase "not found" msg /\
   download_error msg = Failure "Download error" (Some msg)).
Proof.
  unfold download_error.
  destruct (Str.contains "Private" msg) eqn:H1; simpl.
  { left. split; [|done]. left. by apply contains_spec. }
  destruct (Str.contains "protected" (Str.lower msg)) eqn:H2.
  { left. split; [|done]. right. by apply contains_lower_spec. }
  assert (~ (occurs "Private" msg \/ occurs_anycase "protected" msg)) as Hn.
  { intros [H|H].
    - apply contains_spec in H. congruence.
    - apply contains_lower_spec in H. congruence. }
  right. destruct (Str.contains "not found" (Str.lower msg)) eqn:H3.
  - left. repeat split; [done | by apply contains_lower_spec].
  - right. repeat split; [done|]. intros H. apply contains_lower_spec in H. congruence.
Qed.

End Proofs.

Section Samples.
#[local] Existing Instance ascii_tables.

(** C6 as stated fails: a message with [private] in lower case is not
    classified as private; it falls through to 'Download error'. *)
Lemma lowercase_private_not_classified :
  occurs_anycase "private" "This account is private" /\
  download_error "This account is private" =
    Failure "Download error" (Some "This account is private") /\
  download_error "This account is private" <>
    Failure "Private account" (Some "This tweet is from a private account").
Proof.
  split; [by exists "This account is ", "private", ""|].
  split; [reflexivity|]. vm_compute. discriminate.
Qed.

End Samples.

Section Proofs.
Context `{U : Unicode}.

(** ** Progress ids (C1) *)

Lemma new_progress_id_eq (now1 now2 : Q) :
  new_progress_id now1 = new_progress_id now2 <-> Py.int now1 = Py.int now2.
Proof.
  unfold new_progress_id. split; [|by intros ->].
  intros H. apply (inj (String.app "download_")) in H.
  by apply (inj pretty) in H.
Qed.

End Proofs.

Section Samples.
#[local] Existing Instance ascii_tables.

(** C1, at two requests in one second.  Two [/download] requests whose clock
    readings are 1700000000.2 and 1700000000.7 are both answered with the id
    [download_1700000000]; the second overwrites the progress entry of the
    first, and two threads run under the one id. *)
Theorem same_second_same_progress_id :
  let e1 := PostDownload (Sample.post Sample.url PyNone)
              (17000000002 # 10)%Q Sample.plain in
  let e2 := PostDownload (Sample.post "https://x.com/other/status/42" PyNone)
              (17000000007 # 10)%Q Sample.plain in
  (run [e1; e2] initial).2 =
    [ (e1, Started "download_1700000000"); (e2, Started "download_1700000000") ] /\
  size (download_progress (srv_store (run [e1; e2] initial).1)) = 1%nat /\
  length (srv_threads (run [e1; e2] initial).1) = 2%nat.
Proof. repeat split; vm_compute; reflexivity. Qed.

(** ** Ranking with a missing height (C4) *)

(** C4, at a format list whose second entry has no ['height'].  The entry
    built for it holds [None] under ['height'], the sort compares 720 with
    [None], and the method answers 'Unexpected error' in place of a ranked
    list in which the entry without a height comes last. *)
Theorem missing_height_breaks_ranking :
  get_video_info_web (Sample.engine Sample.height_missing []) Sample.url =
    (Failure "Unexpected error"
       (Some "'<' not supported between instances of 'int' and 'NoneType'"),
     [ExtractInfo None Sample.url]).
Proof. vm_compute. reflexivity. Qed.

(** ** The progress query and the store (C9) *)

(** C9 as stated fails: between the two last writes of a download thread,
    a query changes the stored progress entry. *)
Lemma get_progress_writes_store :
  (get_progress "download_1700000000" Sample.result_stored).2 <> Sample.result_stored.
Proof.
  intros H.
  assert (download_progress (get_progress "download_1700000000" Sample.result_stored).2
            !! "download_1700000000"
          = download_progress Sample.result_stored !! "download_1700000000") as E
    by (by rewrite H).
  vm_compute in E. discriminate.
Qed.

End Samples.

Section Proofs.
Context `{U : Unicode}.

(** C9, as the code has it.  A progress query leaves [download_results] and
    the set of ids in [download_progress] as they were, leaves the entry of
    every other id untouched, and changes in the entry of the queried id at
    most the key ['result'], under which it stores the result that
    [download_results] holds for the id.  What it returns for a known id is
    the stored entry itself, whole; for an unknown id it is the default
    entry, and the store is not touched. *)
Theorem get_progress_frame (progress_id : string) (st : store) :
  let p := (get_progress progress_id st).1 in
  let st' := (get_progress progress_id st).2 in
  download_results st' = download_results st /\
  dom (download_progress st') = dom (download_progress st) /\
  (forall id, id <> progress_id ->
     download_progress st' !! id = download_progress st !! id) /\
  (forall q, download_progress st !! progress_id = Some q ->
     download_progress st' !! progress_id = Some p /\
     same_fields p q /\
     (p_result p = p_result q \/
      p_result p = download_results st !! progress_id)) /\
  (download_progress st !! progress_id = None ->
     st' = st /\ same_fields p unknown_progress).
Proof.
  unfold get_progress, same_fields.
  destruct (download_progress st !! progress_id) as [q|] eqn:Hq;
    destruct (download_results st !! progress_id) as [r|] eqn:Hr; simpl.
  - split; [done|]. split; [|split; [|split; [|done]]].
    + rewrite dom_insert_L. apply elem_of_dom_2 in Hq.
      apply set_eq. intros x. rewrite elem_of_union, elem_of_singleton.
      split; [intros [->|]; done | by right].
    + intros id Hid. by rewrite lookup_insert_ne.
    + intros q' Hq'. injection Hq' as <-.
      split; [apply lookup_insert_eq|]. split; [done|]. by right.
  - split; [done|]. split; [done|]. split; [done|]. split; [|done].
    intros q' Hq'. injection Hq' as <-. split; [done|]. split; [done|]. by left.
  - split; [done|]. split; [done|]. split; [done|]. split; [done|].
    intros _. by split.
  - split; [done|]. split; [done|]. split; [done|]. split; [done|].
    intros _. by split.
Qed.

(** ** Format selection (C5) *)

Lemma find_first_match (format_id : pyval) (formats : list quality_info)
    (fmt : quality_info) :
  List.find (fun f => Py.eq (q_format_id f) format_id) formats = Some fmt ->
  first_match format_id formats fmt.
Proof.
  unfold first_match. induction formats as [|f fs IH]; simpl; [done|].
  destruct (Py.eq (q_format_id f) format_id) eqn:Hf.
  - intros [= ->]. by exists [], fs.
  - intros H. destruct (IH H) as (b & a & -> & Heq & Hb).
    exists (f :: b), a. repeat split; [done|]. by constructor.
Qed.

Lemma find_no_match (format_id : pyval) (formats : list quality_info) :
  List.find (fun f => Py.eq (q_format_id f) format_id) formats = None ->
  no_match format_id formats.
Proof.
  unfold no_match. induction formats as [|f fs IH]; simpl; [by constructor|].
  destruct (Py.eq (q_format_id f) format_id) eqn:Hf; [done|].
  intros H. constructor; auto.
Qed.

Lemma insert_desc_length {A : Type} (key : A -> pyval * pyval) (x : A)
    (l r : list A) :
  Py.insert_desc key x l = inr r -> length r = S (length l).
Proof.
  revert r. induction l as [|y l IH]; simpl; intros r.
  - by intros [= <-].
  - destruct (Py.pair_lt (key x) (key y)) as [e|[|]]; [done| |by intros [= <-]].
    destruct (Py.insert_desc key x l) as [e|r'] eqn:Hr; [done|].
    intros [= <-]. simpl. by rewrite (IH r').
Qed.

Lemma sort_desc_length {A : Type} (key : A -> pyval * pyval) (l r : list A) :
  Py.sort_desc key l = inr r -> length r = length l.
Proof.
  revert r. induction l as [|x l IH]; simpl; intros r.
  - by intros [= <-].
  - destruct (Py.sort_desc key l) as [e|s] eqn:Hs; [done|].
    intros H. apply insert_desc_length in H. by rewrite H, (IH s).
Qed.

Lemma download_error_name (msg : string) :
  exists e m, download_error msg = Failure e m /\ In e error_names.
Proof.
  unfold download_error, error_names.
  repeat case_match; eexists _, _; (split; [reflexivity|]); simpl; tauto.
Qed.

#[global] Arguments info_falsy : simpl never.
#[global] Arguments video_formats_of : simpl never.
#[global] Arguments formats_of : simpl never.
#[global] Arguments Py.sort_desc : simpl never.
#[global] Arguments download_error : simpl never.
#[global] Arguments is_valid_twitter_url : simpl never.

(** What a successful metadata query went through. *)
Lemma get_video_info_web_ranked (eng : Engine) (url : string)
    (title uploader duration thumbnail : pyval) (formats : list quality_info)
    (log : list action) :
  get_video_info_web eng url = (VideoInfo title uploader duration thumbnail formats, log) ->
  exists i,
    extract_info eng None url = Returns (Some i) /\
    video_formats_of (formats_of i) <> [] /\
    Py.sort_desc sort_key (video_formats_of (formats_of i)) = inr formats /\
    log = [ExtractInfo None url].
Proof.
  unfold get_video_info_web, invalid_url, no_video_found, no_video_content,
    unexpected_error.
  destruct (is_valid_twitter_url url); simpl; [|done].
  unfold mbind, prog_bind, call, raised.
  destruct (extract_info eng None url) as [[i|]|msg|msg]; simpl;
    [| done | destruct (download_error_name msg) as (e & m & -> & _); done | done].
  destruct (info_falsy (Some i)); simpl; [done|].
  destruct (video_formats_of (formats_of i)) as [|v vs] eqn:Hv; simpl; [done|].
  destruct (Py.sort_desc sort_key (v :: vs)) as [e|sorted] eqn:Hs; simpl; [done|].
  intros [= <- <- <- <- <- <-]. exists i. rewrite Hv. by repeat split.
Qed.

Lemma raised_name {A : Type} (o : outcome A) (e : string) (m : option string) :
  raised o = inl (Failure e m) -> In e error_names.
Proof.
  destruct o as [a|msg|msg]; simpl; [done| |].
  - destruct (download_error_name msg) as (e' & m' & -> & Hin). by intros [= <- _].
  - intros [= <- _]. unfold error_names. simpl. tauto.
Qed.

Lemma get_video_info_web_name (eng : Engine) (url e : string) (m : option string) :
  (get_video_info_web eng url).1 = Failure e m -> In e error_names.
Proof.
  unfold get_video_info_web.
  destruct (is_valid_twitter_url url); simpl;
    [|intros [= <- _]; unfold error_names; simpl; tauto].
  unfold mbind, prog_bind, call.
  destruct (raised (extract_info eng None url)) as [r|[i|]] eqn:Hr; simpl.
  - intros ->. by eapply raised_name.
  - destruct (info_falsy (Some i)); simpl;
      [intros [= <- _]; unfold error_names; simpl; tauto|].
    destruct (video_formats_of (formats_of i)) as [|v vs]; simpl;
      [intros [= <- _]; unfold error_names; simpl; tauto|].
    destruct (Py.sort_desc sort_key (v :: vs)); simpl; [|done].
    intros [= <- _]; unfold error_names; simpl; tauto.
  - intros [= <- _]; unfold error_names; simpl; tauto.
Qed.

(** ** The log and the result of a method body *)

Lemma bind_result {A B : Type} (m : prog A) (k : A -> prog B) :
  (m ≫= k).2 = match m.2 with inl r => inl r | inr a => (k a).2 end.
Proof.
  unfold mbind, prog_bind. destruct m as [log [r|a]]; simpl; [done|].
  by destruct (k a).
Qed.

Lemma bind_log {A B : Type} (m : prog A) (k : A -> prog B) :
  (m ≫= k).1 = m.1 ++ match m.2 with inl r => [] | inr a => (k a).1 end.
Proof.
  unfold mbind, prog_bind. destruct m as [log [r|a]]; simpl.
  - by rewrite app_nil_r.
  - by destruct (k a).
Qed.

Lemma run_prog_result (m : prog payload) :
  (run_prog m).1 = match m.2 with inl r => r | inr r => r end.
Proof. by destruct m as [log [r|r]]. Qed.

Lemma run_prog_log (m : prog payload) : (run_prog m).2 = m.1.
Proof. by destruct m as [log [r|r]]. Qed.

Lemma in_error_names (e : string) :
  In e error_names <->
  e = "Invalid Twitter URL format" \/ e = "No video found" \/
  e = "No video content" \/ e = "Private account" \/ e = "Tweet not found" \/
  e = "Download error" \/ e = "Unexpected error".
Proof. unfold error_names. simpl. intuition congruence. Qed.

#[global] Arguments mbind : simpl never.
#[global] Arguments prog_bind : simpl never.
#[global] Arguments has_video : simpl never.

Lemma download_video_web_name (eng : Engine) (progress_id : option string)
    (url : string) (format_id : pyval) (e : string) (m : option string) :
  (download_video_web eng progress_id url format_id).1 = Failure e m ->
  In e error_names.
Proof.
  unfold download_video_web.
  destruct (is_valid_twitter_url url); simpl;
    [|intros [= <- _]; apply in_error_names; tauto].
  rewrite run_prog_result, bind_result.
  replace (match hooked progress_id with
           | Some id => emit (SetProgress id
               (progress_msg Extracting "0%" "Extracting video information..."))
           | None => mret tt
           end).2 with (inr (A := payload) tt) by (by destruct (hooked progress_id)).
  rewrite bind_result. unfold call. cbn [fst snd].
  destruct (raised (extract_info eng _ url)) as [r|[i|]] eqn:Hr.
  - intros ->. by eapply raised_name.
  - destruct (info_falsy (Some i));
      [intros [= <- _]; apply in_error_names; tauto|].
    destruct (filter _ (formats_of i));
      [intros [= <- _]; apply in_error_names; tauto|].
    rewrite !bind_result. cbn [fst snd emit emits].
    destruct (raised (download eng _ url).2) as [r'|[]] eqn:Hr'.
    + intros ->. by eapply raised_name.
    + destruct (raised (prepare_filename eng i)) as [r''|f] eqn:Hr''.
      * intros ->. by eapply raised_name.
      * done.
  - intros [= <- _]; apply in_error_names; tauto.
Qed.

Lemma stream_download_name (eng : Engine) (url : string) (format_id : pyval)
    (e : string) (m : option string) :
  (stream_download_from_url eng url format_id).1 = Json (Failure e m) ->
  In e error_names.
Proof.
  unfold stream_download_from_url.
  destruct (is_valid_twitter_url url) eqn:Hv; simpl;
    [|intros [= <- _]; apply in_error_names; tauto].
  destruct (get_video_info_web eng url) as [info_result log] eqn:Hi.
  assert ((get_video_info_web eng url).1 = info_result) as Hi1 by (by rewrite Hi).
  destruct info_result as [e' m'|t u d th formats|]; simpl.
  - intros [= <- <-]. by apply get_video_info_web_name in Hi1.
  - repeat case_match; simpl; try done;
      intros [= <- _]; apply in_error_names; tauto.
  - done.
Qed.

End Proofs.

Section Samples.
#[local] Existing Instance ascii_tables.

(** C5 as stated fails: a streaming request for a format id that no format
    carries is answered with the stream of the best-ranked format. *)
Lemma absent_format_id_falls_back :
  let ranked := video_formats_of (rev Sample.two_formats) in
  let best := quality_info_of (Sample.entry "http-2176" (Some 720) (Some (2176 # 1)%Q)) in
  (get_video_info_web Sample.plain Sample.url).1
    = VideoInfo (PyStr "clip") (PyStr "Unknown") (PyStr "Unknown") PyNone ranked /\
  no_match (PyStr "no-such-format") ranked /\
  stream_download (Sample.post Sample.url (PyStr "no-such-format")) Sample.plain
    = (Stream best "clip" (stream_cmd best Sample.url),
       [ExtractInfo None Sample.url; Popen (stream_cmd best Sample.url)]).
Proof.
  repeat split; try (vm_compute; reflexivity).
  repeat constructor.
Qed.

End Samples.

Section Proofs.
Context `{U : Unicode}.

(** C5, as the code has it.  No path answers 'FormatNotFound'.  The
    streaming path looks the requested id up, by equality, among the ranked
    video formats of the metadata query, and takes the head of that list
    when the id is empty or matches none; the failures of the streaming
    path and of the download job carry one of the seven error names of the
    code, whatever the format id. *)
Theorem format_id_falls_back (eng : Engine) (url : string) (format_id : pyval) :
  (forall title uploader duration thumbnail formats log clean,
     get_video_info_web eng url
       = (VideoInfo title uploader duration thumbnail formats, log) ->
     clean_title title = inr clean ->
     exists fmt,
       stream_download_from_url eng url format_id
         = (Stream fmt clean (stream_cmd fmt url), log ++ [Popen (stream_cmd fmt url)]) /\
       ((Py.truthy format_id = true /\ first_match format_id formats fmt) \/
        ((Py.truthy format_id = false \/ no_match format_id formats) /\
         head formats = Some fmt))) /\
  (forall e m,
     (stream_download_from_url eng url format_id).1 = Json (Failure e m) ->
     In e error_names) /\
  (forall progress_id e m,
     (download_video_web eng progress_id url format_id).1 = Failure e m ->
     In e error_names).
Proof.
  split; [|split; [apply stream_download_name | intros; by eapply download_video_web_name]].
  intros title uploader duration thumbnail formats log clean Hinfo Hclean.
  destruct (get_video_info_web_ranked _ _ _ _ _ _ _ _ Hinfo) as (i & _ & Hne & Hsort & _).
  assert (exists f0 fs, formats = f0 :: fs) as (f0 & fs & Hf).
  { apply sort_desc_length in Hsort. destruct formats as [|f0 fs]; [|by eauto].
    destruct (video_formats_of (formats_of i)); [done | discriminate]. }
  unfold stream_download_from_url.
  destruct (is_valid_twitter_url url) eqn:Hv; simpl.
  2:{ unfold get_video_info_web in Hinfo. rewrite Hv in Hinfo. discriminate. }
  rewrite Hinfo.
  destruct (Py.truthy format_id) eqn:Ht.
  - destruct (List.find _ formats) as [fmt|] eqn:Hfind.
    + exists fmt. rewrite Hclean. split; [done|]. left.
      split; [done|]. by apply find_first_match.
    + exists f0. subst formats. simpl. rewrite Hclean. split; [done|]. right.
      split; [|done]. right. by apply find_no_match.
  - exists f0. subst formats. simpl. rewrite Hclean. split; [done|]. right.
    split; [by left | done].
Qed.

End Proofs.

Section Samples.
#[local] Existing Instance ascii_tables.

Lemma format_id_falls_back_witness :
  exists fmt,
    stream_download_from_url Sample.plain Sample.url (PyStr "no-such-format")
      = (Stream fmt "clip" (stream_cmd fmt Sample.url),
         [ExtractInfo None Sample.url] ++ [Popen (stream_cmd fmt Sample.url)]) /\
    ((Py.truthy (PyStr "no-such-format") = true /\
      first_match (PyStr "no-such-format")
        (video_formats_of (rev Sample.two_formats)) fmt) \/
     ((Py.truthy (PyStr "no-such-format") = false \/
       no_match (PyStr "no-such-format") (video_formats_of (rev Sample.two_formats))) /\
      head (video_formats_of (rev Sample.two_formats)) = Some fmt)).
Proof.
  apply (proj1 (format_id_falls_back Sample.plain Sample.url (PyStr "no-such-format"))
           (PyStr "clip") (PyStr "Unknown") (PyStr "Unknown") PyNone
           (video_formats_of (rev Sample.two_formats)) [ExtractInfo None Sample.url] "clip").
  - vm_compute. reflexivity.
  - reflexivity.
Defined.

End Samples.

Section Proofs.
Context `{U : Unicode}.

(** ** A result is stored before its terminal status (C2) *)

Lemma log_bind_forall {A B : Type} (P : action -> Prop) (m : prog A) (k : A -> prog B) :
  Forall P m.1 -> (forall a, m.2 = inr a -> Forall P (k a).1) ->
  Forall P (m ≫= k).1.
Proof.
  intros Hm Hk. rewrite bind_log. apply Forall_app. split; [done|].
  destruct m.2 as [r|a]; [constructor | by apply Hk].
Qed.

Lemma progress_hook_quiet (progress_id : option string) (d : hook_event) :
  Forall (fun a => quiet a = true) (_progress_hook progress_id d).
Proof.
  unfold _progress_hook. repeat case_match; repeat constructor.
Qed.

Lemma download_video_web_quiet (eng : Engine) (progress_id : option string)
    (url : string) (format_id : pyval) :
  Forall (fun a => quiet a = true)
    (download_video_web eng progress_id url format_id).2.
Proof.
  unfold download_video_web.
  destruct (is_valid_twitter_url url); simpl; [|constructor].
  rewrite run_prog_log. apply log_bind_forall.
  { destruct (hooked progress_id); repeat constructor. }
  intros _ _. apply log_bind_forall; [repeat constructor|].
  intros [i|] _; [|constructor].
  destruct (info_falsy (Some i)); [constructor|].
  destruct (filter _ (formats_of i)); [constructor|].
  apply log_bind_forall; [repeat constructor|]. intros _ _.
  apply log_bind_forall.
  { simpl. apply Forall_concat, Forall_fmap, Forall_forall.
    intros d _. apply progress_hook_quiet. }
  intros _ _. apply log_bind_forall; [constructor|]. intros _ _.
  apply log_bind_forall; [repeat constructor|]. intros f _. constructor.
Qed.

Lemma result_first_mono (have have' : gset string) (l : list action) :
  have ⊆ have' -> result_first have l -> result_first have' l.
Proof.
  revert have have'. induction l as [|a l IH]; intros have have' Hsub; simpl; [done|].
  destruct a as [id p|id r| | | |]; try (by apply IH).
  - intros [H1 H2]. split; [set_solver | by eapply IH].
  - apply IH. by apply union_mono_l.
Qed.

Lemma result_first_quiet_app (have : gset string) (l1 l2 : list action) :
  Forall (fun a => quiet a = true) l1 -> result_first have l2 ->
  result_first have (l1 ++ l2).
Proof.
  intros H1 H2. induction H1 as [|a l1 Ha _ IH]; simpl; [done|].
  destruct a as [id p|id r| | | |]; simpl in Ha; try done.
  split; [|done]. intros Ht. rewrite Ht in Ha. discriminate.
Qed.

Lemma download_thread_result_first (have : gset string) (eng : Engine)
    (progress_id url : string) (format_id : pyval) :
  result_first have (download_thread eng progress_id url format_id).
Proof.
  unfold download_thread.
  pose proof (download_video_web_quiet eng (Some progress_id) url format_id) as Hq.
  destruct (download_video_web eng (Some progress_id) url format_id) as [result log].
  apply result_first_quiet_app; [done|]. simpl. split; [|done]. set_solver.
Qed.

Lemma initial_results_precede : results_precede initial.
Proof.
  split; [|constructor]. intros id p H.
  change (download_progress (srv_store initial)) with (∅ : gmap string progress) in H.
  by rewrite lookup_empty in H.
Qed.

Lemma step_results_precede (e : event) (s : server) :
  results_precede s -> results_precede (step e s).1.
Proof.
  intros [H1 H2]. destruct s as [st ths]. unfold results_precede. simpl in *.
  destruct e as [data now eng|id|n]; simpl.
  - unfold download_video. destruct (String.eqb (url_of data) ""); simpl.
    { rewrite app_nil_r. by split. }
    split.
    + intros id p Hp Ht.
      destruct (decide (id = new_progress_id now)) as [->|Hne].
      * rewrite lookup_insert_eq in Hp. injection Hp as <-. discriminate.
      * rewrite lookup_insert_ne in Hp by done. by eapply H1.
    + apply Forall_app. split; [done|]. constructor; [|constructor].
      apply download_thread_result_first.
  - unfold get_progress.
    destruct (download_progress st !! id) as [p|] eqn:Hp;
      destruct (download_results st !! id) as [r|] eqn:Hr; simpl; try (by split).
    split; [|done]. intros id' p' Hp' Ht.
    destruct (decide (id' = id)) as [->|Hne].
    + rewrite lookup_insert_eq in Hp'. injection Hp' as <-. by eapply H1.
    + rewrite lookup_insert_ne in Hp' by done. by eapply H1.
  - destruct (ths !! n) as [[|a rest]|] eqn:Hn; simpl; try (by split).
    pose proof (Forall_lookup_1 _ _ _ _ H2 Hn) as Ha.
    destruct a as [id p|id r| | | |]; simpl in *;
      try (split; [done | by apply Forall_insert]).
    + destruct Ha as [Ha Hrest]. split; [|by apply Forall_insert].
      intros id' p' Hp' Ht. destruct (decide (id' = id)) as [->|Hne].
      * rewrite lookup_insert_eq in Hp'. injection Hp' as <-. auto.
      * rewrite lookup_insert_ne in Hp' by done. by eapply H1.
    + rewrite dom_insert_L. split.
      * intros id' p' Hp' Ht. apply elem_of_union_r. by eapply H1.
      * apply Forall_insert; [|done].
        eapply Forall_impl; [exact H2|]. intros l. apply result_first_mono. set_solver.
Qed.

Lemma get_progress_terminal (id : string) (s : server) :
  results_precede s ->
  terminal (p_status (get_progress id (srv_store s)).1) = true ->
  is_Some (p_result (get_progress id (srv_store s)).1).
Proof.
  intros [H1 _]. unfold get_progress.
  destruct (download_progress (srv_store s) !! id) as [p|] eqn:Hp;
    destruct (download_results (srv_store s) !! id) as [r|] eqn:Hr; simpl;
    try (by eauto); try done.
  intros Ht. apply (H1 id p Hp) in Ht. apply elem_of_dom in Ht as [r Hr'].
  congruence.
Qed.

Lemma run_snapshots (es : list event) (s : server) :
  results_precede s ->
  Forall (fun p => terminal (p_status p) = true -> is_Some (p_result p))
    (snapshots (run es s).2).
Proof.
  revert s. induction es as [|e es IH]; intros s Hs; simpl; [constructor|].
  pose proof (step_results_precede e s Hs) as Hs'.
  pose proof (get_progress_terminal) as Hg.
  destruct (step e s) as [s' r] eqn:He. simpl in Hs'.
  specialize (IH s' Hs'). destruct (run es s') as [s'' rs]. simpl in *.
  destruct r as [resp|]; [|done].
  unfold snapshots in *. simpl.
  destruct resp as [x|x|x y z|p]; simpl; try done.
  constructor; [|done].
  destruct e as [data now eng|id|n]; simpl in He.
  - unfold download_video in He. by destruct (String.eqb (url_of data) "").
  - specialize (Hg id s Hs). destruct (get_progress id (srv_store s)) as [p' st'].
    injection He as _ ->. exact Hg.
  - by repeat case_match.
Qed.

End Proofs.

Section Samples.
#[local] Existing Instance ascii_tables.

(** C2 as stated fails: a query that falls between the last two writes of a
    download thread sees the result while the status is still 'finished'. *)
Lemma result_seen_before_terminal_status :
  let es := PostDownload (Sample.post Sample.url PyNone) 0%Q Sample.plain
            :: replicate 7 (ThreadStep 0) ++ [GetProgress "download_0"] in
  exists p,
    snapshots (run es initial).2 = [p] /\
    p_status p = Finished /\ terminal (p_status p) = false /\
    is_Some (p_result p).
Proof.
  eexists. split; [vm_compute; reflexivity|]. simpl. eauto.
Qed.

End Samples.

Section Proofs.
Context `{U : Unicode}.

(** ** The order of the statuses of one job (C3) *)

Lemma may_follow_refl (a : JobStatus) : may_follow a a.
Proof. by left. Qed.

Lemma may_follow_trans (a b c : JobStatus) :
  may_follow a b -> may_follow b c -> may_follow a c.
Proof.
  intros [->|[Ha Hab]] [->|[Hb Hbc]]; unfold may_follow; auto.
  right. split; [done | lia].
Qed.

Lemma chain_cons (a b : JobStatus) (l : list JobStatus) :
  may_follow a b -> StronglySorted may_follow (b :: l) ->
  StronglySorted may_follow (a :: b :: l).
Proof.
  intros Hab Hb. constructor; [done|].
  apply StronglySorted_inv in Hb as [_ Hl]. constructor; [done|].
  eapply Forall_impl; [exact Hl|]. intros c. by apply may_follow_trans.
Qed.

Lemma chain_skip (a b : JobStatus) (l : list JobStatus) :
  may_follow a b -> StronglySorted may_follow (b :: l) ->
  StronglySorted may_follow (a :: l).
Proof.
  intros Hab Hb. apply (chain_cons a b l Hab) in Hb.
  apply StronglySorted_inv in Hb as [Hb Ha]. constructor.
  - by apply StronglySorted_inv in Hb as [Hb _].
  - by apply Forall_cons in Ha as [_ Ha].
Qed.

Lemma chain_app (l1 l2 : list JobStatus) (r : nat) :
  StronglySorted may_follow l1 -> StronglySorted may_follow l2 ->
  Forall (fun x => terminal x = false /\ (rank x <= r)%nat) l1 ->
  Forall (fun y => (r < rank y)%nat) l2 ->
  StronglySorted may_follow (l1 ++ l2).
Proof.
  intros H1 H2 Hl1 Hl2. induction H1 as [|x l1 Hs IH Hx]; simpl; [done|].
  apply Forall_cons in Hl1 as [[Hxt Hxr] Hl1]. constructor; [by apply IH|].
  apply Forall_app. split; [done|].
  eapply Forall_impl; [exact Hl2|]. intros y Hy. simpl in Hy.
  right. split; [done | lia].
Qed.

Lemma writes_to_app (id : string) (l1 l2 : list action) :
  writes_to id (l1 ++ l2) = writes_to id l1 ++ writes_to id l2.
Proof.
  induction l1 as [|a l1 IH]; simpl; [done|].
  destruct a as [id' p| | | | |]; try done.
  destruct (String.eqb id' id); simpl; by rewrite IH.
Qed.

Lemma writes_to_cons_nil (id : string) (a : action) (l : list action) :
  writes_to id (a :: l) = [] -> writes_to id l = [].
Proof.
  simpl. destruct a as [id' p| | | | |]; try done.
  by destruct (String.eqb id' id).
Qed.

(** What one hook event writes under [id]. *)
Lemma progress_hook_writes (progress_id : option string) (id : string)
    (d : hook_event) :
  writes_to id (_progress_hook progress_id d) = [] \/
  (h_status d = "downloading" /\
   writes_to id (_progress_hook progress_id d) = [Downloading]) \/
  (h_status d = "finished" /\
   writes_to id (_progress_hook progress_id d) = [Finished]).
Proof.
  unfold _progress_hook. destruct (hooked progress_id) as [id'|]; [|by left].
  destruct (String.eqb_spec (h_status d) "downloading") as [Hd|Hd].
  - destruct (Py.get_or _ _ _); simpl; try (by left).
    destruct (String.eqb id' id); [right; left | left]; done.
  - destruct (String.eqb_spec (h_status d) "finished") as [Hf|Hf]; [|by left].
    simpl. destruct (String.eqb id' id); [right; right | left]; done.
Qed.

Lemma hooks_writes_finished (progress_id : option string) (id : string)
    (hs : list hook_event) :
  forallb (fun h => negb (String.eqb (h_status h) "downloading")) hs = true ->
  Forall (fun s => s = Finished)
    (writes_to id (concat (_progress_hook progress_id <$> hs))).
Proof.
  induction hs as [|h hs IH]; simpl; [constructor|].
  intros H. apply andb_true_iff in H as [Hh Hhs].
  rewrite writes_to_app. apply Forall_app. split; [|by apply IH].
  destruct (progress_hook_writes progress_id id h) as [->|[[Hd ->]|[_ ->]]].
  - constructor.
  - rewrite Hd in Hh. discriminate.
  - by repeat constructor.
Qed.

Lemma hooks_writes_sorted (progress_id : option string) (id : string)
    (hs : list hook_event) :
  hooks_in_order hs = true ->
  StronglySorted may_follow
    (writes_to id (concat (_progress_hook progress_id <$> hs))) /\
  Forall (fun s => s = Downloading \/ s = Finished)
    (writes_to id (concat (_progress_hook progress_id <$> hs))).
Proof.
  induction hs as [|h hs IH]; simpl; [by split; constructor|].
  intros H. apply andb_true_iff in H as [Hh Hhs].
  destruct (IH Hhs) as [IH1 IH2]. rewrite writes_to_app.
  destruct (progress_hook_writes progress_id id h) as [->|[[Hd ->]|[Hf ->]]]; simpl.
  - by split.
  - split; [|by constructor; auto]. constructor; [done|].
    eapply Forall_impl; [exact IH2|]. intros s [->| ->]; [by left|].
    right. split; [done | simpl; lia].
  - rewrite Hf in Hh. simpl in Hh.
    pose proof (hooks_writes_finished progress_id id hs Hh) as Hfin.
    split; [|by constructor; auto]. constructor; [done|].
    eapply Forall_impl; [exact Hfin|]. intros s ->. by left.
Qed.

(** What the method of a job writes: 'extracting' at most once, then what
    the hooks of the download write. *)
Lemma download_video_web_writes (eng : Engine) (progress_id : option string)
    (url : string) (format_id : pyval) (id : string) :
  exists E H,
    writes_to id (download_video_web eng progress_id url format_id).2 = E ++ H /\
    (E = [] \/ (E = [Extracting] /\ hooked progress_id = Some id)) /\
    (H = [] \/
     exists format,
       H = writes_to id (concat (_progress_hook progress_id <$> (download eng format url).1))).
Proof.
  unfold download_video_web.
  destruct (is_valid_twitter_url url); simpl; [|exists [], []; auto].
  rewrite run_prog_log, bind_log, writes_to_app.
  eexists _, _. split; [reflexivity|]. split.
  { destruct (hooked progress_id) as [id'|]; simpl; [|by left].
    destruct (String.eqb_spec id' id) as [->|]; auto. }
  replace (match hooked progress_id with
           | Some id' => emit (SetProgress id'
               (progress_msg Extracting "0%" "Extracting video information..."))
           | None => mret tt
           end).2 with (inr (A := payload) tt) by (by destruct (hooked progress_id)).
  rewrite bind_log, writes_to_app. unfold call. cbn [fst snd writes_to app].
  destruct (raised (extract_info eng _ url)) as [r|[i|]]; [by left | | by left].
  destruct (info_falsy (Some i)); [by left|].
  destruct (filter _ (formats_of i)); [by left|].
  rewrite !bind_log, !writes_to_app. cbn [fst snd emit emits writes_to app].
  right. eexists. rewrite writes_to_app.
  match goal with
  | |- _ ++ ?X = _ => assert (X = []) as ->
  end.
  { destruct (raised (download eng _ url).2) as [r'|[]]; [done|].
    destruct (raised (prepare_filename eng i)); done. }
  by rewrite app_nil_r.
Qed.

Lemma download_video_web_writes_other (eng : Engine) (progress_id : option string)
    (url : string) (format_id : pyval) (id : string) :
  hooked progress_id <> Some id ->
  writes_to id (download_video_web eng progress_id url format_id).2 = [].
Proof.
  intros Hne.
  assert (forall d, writes_to id (_progress_hook progress_id d) = []) as Hhook.
  { intros d. unfold _progress_hook.
    destruct (hooked progress_id) as [id'|] eqn:Hh; [|done].
    assert (String.eqb id' id = false) as Hid by (apply String.eqb_neq; congruence).
    repeat case_match; simpl; by rewrite ?Hid. }
  destruct (download_video_web_writes eng progress_id url format_id id)
    as (E & H & -> & HE & HH).
  assert (H = []) as ->.
  { destruct HH as [->|[format ->]]; [done|].
    generalize ((download eng format url).1). intros hs.
    induction hs as [|d ds IH]; [done|].
    rewrite fmap_cons. simpl concat. rewrite writes_to_app, Hhook. exact IH. }
  rewrite app_nil_r. by destruct HE as [->|[_ ?]].
Qed.

Lemma hooked_some (id id' : string) : hooked (Some id) = Some id' -> id = id'.
Proof. unfold hooked. destruct (String.eqb id ""); congruence. Qed.

Lemma download_thread_writes_other (eng : Engine) (progress_id url : string)
    (format_id : pyval) (id : string) :
  id <> progress_id ->
  writes_to id (download_thread eng progress_id url format_id) = [].
Proof.
  intros Hne. unfold download_thread.
  pose proof (download_video_web_writes_other eng (Some progress_id) url format_id id) as Hw.
  destruct (download_video_web eng (Some progress_id) url format_id) as [result log].
  simpl in Hw. rewrite writes_to_app, Hw.
  - simpl. apply String.eqb_neq in Hne. rewrite String.eqb_sym in Hne. by rewrite Hne.
  - intros H. apply hooked_some in H. congruence.
Qed.

Lemma download_thread_writes_sorted (eng : Engine) (progress_id url : string)
    (format_id : pyval) :
  engine_in_order eng ->
  StronglySorted may_follow
    (Starting :: writes_to progress_id (download_thread eng progress_id url format_id)).
Proof.
  intros Heng. unfold download_thread.
  destruct (download_video_web_writes eng (Some progress_id) url format_id progress_id)
    as (E & H & Hw & HE & HH).
  destruct (download_video_web eng (Some progress_id) url format_id) as [result log].
  simpl in Hw. rewrite writes_to_app, Hw. simpl. rewrite String.eqb_refl.
  set (final := p_status (if success result
       then progress_msg Completed "100%" "Download completed successfully!"
       else progress_msg Error "0%" (message_or result "Download failed"))).
  assert (final = Completed \/ final = Error) as Hfinal
    by (unfold final; destruct (success result); auto).
  assert (StronglySorted may_follow H /\ Forall (fun s => s = Downloading \/ s = Finished) H)
    as [HH1 HH2].
  { destruct HH as [->|[format ->]]; [split; constructor|].
    apply hooks_writes_sorted, Heng. }
  change (Starting :: (E ++ H) ++ [final]) with ([Starting] ++ (E ++ H) ++ [final]).
  apply (chain_app _ _ 1).
  - repeat constructor.
  - apply (chain_app _ _ 4).
    + apply (chain_app _ _ 2); [| done | |].
      * destruct HE as [->|[-> _]]; repeat constructor.
      * destruct HE as [->|[-> _]]; repeat constructor.
      * eapply Forall_impl; [exact HH2|]. intros s [->| ->]; simpl; lia.
    + repeat constructor.
    + apply Forall_app. split.
      * destruct HE as [->|[-> _]]; repeat constructor.
      * eapply Forall_impl; [exact HH2|]. intros s [->| ->]; simpl; split; (done || lia).
    + repeat constructor. destruct Hfinal as [->| ->]; simpl; lia.
  - repeat constructor.
  - apply Forall_app. split; [apply Forall_app; split|].
    + destruct HE as [->|[-> _]]; repeat constructor.
    + eapply Forall_impl; [exact HH2|]. intros s [->| ->]; simpl; lia.
    + repeat constructor. destruct Hfinal as [->| ->]; simpl; lia.
Qed.

(** A query leaves every status as it is, and reports the stored one. *)
Lemma get_progress_status (id id' : string) (st : store) :
  status_in (get_progress id st).2 id' = status_in st id' /\
  p_status (get_progress id st).1 = status_in st id.
Proof.
  unfold get_progress, status_in.
  destruct (download_progress st !! id) as [p|] eqn:Hp;
    destruct (download_results st !! id) as [r|] eqn:Hr; simpl; try (by rewrite ?Hp).
  split; [|done]. destruct (decide (id' = id)) as [->|Hne].
  - by rewrite lookup_insert_eq, Hp.
  - by rewrite lookup_insert_ne.
Qed.

Lemma get_progress_fresh (id id' : string) (st : store) :
  download_progress st !! id' = None ->
  download_progress (get_progress id st).2 !! id' = None.
Proof.
  unfold get_progress. intros H.
  destruct (download_progress st !! id) as [p|] eqn:Hp;
    destruct (download_results st !! id) as [r|] eqn:Hr; simpl; try done.
  destruct (decide (id' = id)) as [->|Hne]; [congruence|].
  by rewrite lookup_insert_ne.
Qed.

(** A thread step that is not a write under [id] leaves the status of [id]. *)
Lemma perform_status (a : action) (st : store) (id : string) :
  writes_to id [a] = [] -> status_in (perform a st) id = status_in st id.
Proof.
  unfold status_in. destruct a as [id' p|id' r| | | |]; simpl; try done.
  destruct (String.eqb_spec id' id) as [->|Hne]; [done|].
  intros _. by rewrite lookup_insert_ne.
Qed.

Lemma perform_fresh (a : action) (st : store) (id : string) :
  writes_to id [a] = [] -> download_progress st !! id = None ->
  download_progress (perform a st) !! id = None.
Proof.
  destruct a as [id' p|id' r| | | |]; simpl; try done.
  destruct (String.eqb_spec id' id) as [->|Hne]; [done|].
  intros _ H. by rewrite lookup_insert_ne.
Qed.

Lemma writes_to_head (id : string) (a : action) (l : list action) :
  writes_to id (a :: l) = writes_to id [a] ++ writes_to id l.
Proof. apply (writes_to_app id [a] l). Qed.

Lemma writes_to_single (id : string) (a : action) :
  writes_to id [a] = [] \/
  exists p, a = SetProgress id p /\ writes_to id [a] = [p_status p].
Proof.
  destruct a as [id' p| | | | |]; simpl; try (by left).
  destruct (String.eqb_spec id' id) as [->|Hne]; [right; by exists p | by left].
Qed.

Lemma lookup_snoc_writes (id : string) (ths : list (list action)) (t x : list action)
    (n : nat) :
  writes_to id t = [] -> (ths ++ [t]) !! n = Some x ->
  ths !! n = Some x \/ writes_to id x = [].
Proof.
  intros Ht Hx. apply lookup_app_Some in Hx as [Hx|[_ Hx]]; [by left|].
  right. apply list_elem_of_lookup_2 in Hx. apply list_elem_of_singleton in Hx.
  by subst.
Qed.

Lemma pending_snoc (id : string) (k : nat) (st st' : store)
    (ths : list (list action)) (t : list action) :
  writes_to id t = [] ->
  pending id k {| srv_store := st'; srv_threads := ths ++ [t] |}
  = pending id k {| srv_store := st; srv_threads := ths |}.
Proof.
  intros Ht. unfold pending. simpl.
  destruct (ths !! k) as [x|] eqn:Hk.
  - by rewrite (lookup_app_l_Some _ _ _ _ Hk).
  - destruct ((ths ++ [t]) !! k) as [x|] eqn:Hk'; [|done].
    destruct (lookup_snoc_writes id ths t x k Ht Hk') as [H|H]; [congruence|].
    simpl. by rewrite H.
Qed.

#[global] Arguments new_progress_id : simpl never.
#[global] Arguments url_of : simpl never.
#[global] Arguments download_thread : simpl never.

Lemma creates_false (id : string) (data : request) (now : Q) (eng : Engine) :
  creates id (PostDownload data now eng) = false ->
  String.eqb (url_of data) "" = true \/ id <> new_progress_id now.
Proof.
  unfold creates. destruct (String.eqb (url_of data) ""); [by left|].
  rewrite andb_true_l. intros H. right. apply String.eqb_neq in H. congruence.
Qed.

(** The answers that one event adds to the polls of [id]. *)
Lemma polled_statuses_step (id : string) (e : event) (es : list event) (s : server) :
  polled_statuses id (e :: es) s =
  match e with
  | GetProgress id' =>
      if String.eqb id' id then [status_in (srv_store s) id] else []
  | _ => []
  end ++ polled_statuses id es (step e s).1.
Proof.
  unfold polled_statuses. simpl.
  destruct e as [data now eng|id'|n]; simpl.
  - unfold download_video. destruct (String.eqb (url_of data) ""); simpl;
      by destruct (run es _).
  - pose proof (get_progress_status id' id' (srv_store s)) as [_ Hp].
    destruct (get_progress id' (srv_store s)) as [p st'] eqn:Hg. simpl in *.
    destruct (run es _) as [s'' rs]. simpl.
    destruct (String.eqb_spec id' id) as [->|Hne]; [|done].
    simpl. by rewrite Hp.
  - destruct (srv_threads s !! n) as [[|a rest]|]; simpl; by destruct (run es _).
Qed.

(** Before the job is created, nothing changes for its id. *)
Lemma step_fresh (id : string) (e : event) (s : server) :
  fresh id s -> creates id e = false -> fresh id (step e s).1.
Proof.
  intros [H1 H2] Hc. destruct s as [st ths]. unfold fresh. simpl in *.
  destruct e as [data now eng|id'|n]; simpl.
  - unfold download_video.
    apply creates_false in Hc as [Hc|Hc].
    { rewrite Hc. simpl. rewrite app_nil_r. by split. }
    destruct (String.eqb (url_of data) ""); simpl; [rewrite app_nil_r; by split|].
    split; [by rewrite lookup_insert_ne|].
    intros n t Hn.
    eapply lookup_snoc_writes in Hn as [Hn|Hn]; [by eapply H2 | done |].
    by apply download_thread_writes_other.
  - pose proof (get_progress_fresh id' id st H1) as Hf.
    destruct (get_progress id' st) as [p st']. simpl in *. by split.
  - destruct (ths !! n) as [[|a rest]|] eqn:Hn; simpl; try (by split).
    pose proof (H2 n _ Hn) as Ha. rewrite writes_to_head in Ha.
    apply app_eq_nil in Ha as [Ha Hrest].
    split; [by apply perform_fresh|].
    intros n' t Hn'. destruct (decide (n' = n)) as [->|Hne].
    + rewrite list_lookup_insert_eq in Hn' by (by eapply lookup_lt_Some).
      by injection Hn' as <-.
    + rewrite list_lookup_insert_ne in Hn' by done. by eapply H2.
Qed.

(** The request that creates the job puts it in order. *)
Lemma step_creates (id : string) (e : event) (s : server) :
  fresh id s -> creates id e = true -> created_in_order id e ->
  in_order id (length (srv_threads s)) (step e s).1 /\
  status_in (srv_store (step e s).1) id = Starting.
Proof.
  intros [H1 H2] Hc Ho. destruct s as [st ths]. simpl in *.
  destruct e as [data now eng|id'|n]; try (unfold creates in Hc; discriminate).
  specialize (Ho Hc). unfold creates in Hc. apply andb_true_iff in Hc as [Hu Hid].
  apply String.eqb_eq in Hid. apply negb_true_iff in Hu.
  unfold in_order, pending, status_in, step, download_video. rewrite Hu. simpl.
  rewrite Hid, lookup_insert_eq. simpl. split; [split|done].
  - intros n t Hn Hne. apply lookup_app_Some in Hn as [Hn|[Hlen Hn]]; [by eapply H2|].
    destruct (n - length ths)%nat as [|m] eqn:Hm; [lia | done].
  - rewrite list_lookup_middle by done. simpl.
    by apply download_thread_writes_sorted.
Qed.

(** Once the job is in order, every event that does not create it anew
    keeps it in order and moves its status forward, if at all. *)
Lemma step_in_order (id : string) (k : nat) (e : event) (s : server) :
  in_order id k s -> creates id e = false ->
  in_order id k (step e s).1 /\
  may_follow (status_in (srv_store s) id) (status_in (srv_store (step e s).1) id).
Proof.
  intros [H1 H2] Hc. destruct s as [st ths]. unfold in_order. simpl in *.
  destruct e as [data now eng|id'|n]; simpl.
  - unfold download_video.
    apply creates_false in Hc as [Hc|Hc].
    { rewrite Hc. simpl. rewrite app_nil_r. split; [by split | by left]. }
    destruct (String.eqb (url_of data) ""); simpl;
      [rewrite app_nil_r; split; [by split | by left]|].
    pose proof (download_thread_writes_other eng (new_progress_id now)
                  (url_of data) (req_format_id data) id Hc) as Ht.
    assert (status_in
              {| download_progress :=
                   <[new_progress_id now := progress_msg Starting "0%"
                                              "Initializing download..."]>
                     (download_progress st);
                 download_results := download_results st |} id
            = status_in st id) as Hst.
    { unfold status_in. simpl. by rewrite lookup_insert_ne. }
    rewrite Hst. split; [|by left]. split.
    + intros n t Hn Hne.
      eapply lookup_snoc_writes in Hn as [Hn|Hn]; [by eapply H1 | done | done].
    + by rewrite (pending_snoc id k st _ ths _ Ht).
  - pose proof (get_progress_status id' id st) as [Hs _].
    destruct (get_progress id' st) as [p st']. simpl in *. rewrite Hs.
    split; [by split | by left].
  - destruct (ths !! n) as [[|a rest]|] eqn:Hn; simpl;
      try (split; [by split | by left]).
    assert (n < length ths)%nat as Hlen by (by eapply lookup_lt_Some).
    assert (forall n' t, <[n := rest]> ths !! n' = Some t -> n' <> k ->
                         writes_to id t = []) as H1'.
    { intros n' t Hn' Hne. destruct (decide (n' = n)) as [->|Hnn].
      - rewrite list_lookup_insert_eq in Hn' by done. injection Hn' as <-.
        eapply writes_to_cons_nil, H1; eauto.
      - rewrite list_lookup_insert_ne in Hn' by done. by eapply H1. }
    unfold pending in *. cbn [srv_threads srv_store] in *.
    destruct (decide (n = k)) as [->|Hnk].
    + rewrite list_lookup_insert_eq by done. rewrite Hn in H2.
      change (default [] (Some (a :: rest))) with (a :: rest) in H2.
      change (default [] (Some rest)) with rest.
      rewrite writes_to_head in H2.
      destruct (writes_to_single id a) as [Ha|(p & -> & Ha)]; rewrite Ha in H2.
      * rewrite (perform_status a st id Ha). split; [by split | by left].
      * cbn [app] in H2. apply StronglySorted_inv in H2 as [H2 Hall].
        apply Forall_cons in Hall as [Hp _].
        assert (status_in (perform (SetProgress id p) st) id = p_status p) as ->.
        { unfold status_in. simpl. by rewrite lookup_insert_eq. }
        by split.
    + rewrite list_lookup_insert_ne by done.
      pose proof (H1 n _ Hn Hnk) as Ha. rewrite writes_to_head in Ha.
      apply app_eq_nil in Ha as [Ha _].
      rewrite (perform_status a st id Ha). split; [by split | by left].
Qed.

Lemma creations_cons (id : string) (e : event) (es : list event) :
  creations id (e :: es) =
  ((if creates id e then 1 else 0) + creations id es)%nat.
Proof. unfold creations. simpl. by destruct (creates id e). Qed.

Lemma run_in_order (id : string) (es : list event) :
  forall (s : server) (k : nat),
    in_order id k s -> creations id es = 0%nat ->
    StronglySorted may_follow
      (status_in (srv_store s) id :: polled_statuses id es s).
Proof.
  induction es as [|e es IH]; intros s k Hs Hc.
  - repeat constructor.
  - rewrite creations_cons in Hc.
    destruct (creates id e) eqn:He; [lia|]. simpl in Hc.
    destruct (step_in_order id k e s Hs He) as [Hs' Hmove].
    specialize (IH _ k Hs' Hc). rewrite polled_statuses_step.
    pose proof (chain_skip _ _ _ Hmove IH) as Hskip.
    destruct e as [data now eng|id'|n]; simpl; try done.
    destruct (String.eqb id' id); simpl; [|done].
    by apply chain_cons; [left|].
Qed.

Lemma fresh_status (id : string) (s : server) :
  fresh id s -> status_in (srv_store s) id = Unknown.
Proof. intros [H _]. unfold status_in. by rewrite H. Qed.

Lemma run_fresh (id : string) (es : list event) :
  forall s : server,
    fresh id s -> (creations id es <= 1)%nat ->
    Forall (created_in_order id) es ->
    StronglySorted may_follow (Unknown :: polled_statuses id es s).
Proof.
  induction es as [|e es IH]; intros s Hs Hc Ho.
  - repeat constructor.
  - rewrite creations_cons in Hc. apply Forall_cons in Ho as [Ho Hos].
    rewrite polled_statuses_step.
    destruct (creates id e) eqn:He.
    + destruct (step_creates id e s Hs He Ho) as [Hs' Hst].
      assert (creations id es = 0%nat) as Hc' by lia.
      pose proof (run_in_order id es _ _ Hs' Hc') as Hrun. rewrite Hst in Hrun.
      destruct e as [data now eng|id'|n]; try (unfold creates in He; discriminate).
      simpl. eapply chain_skip; [|exact Hrun]. right. split; [done | simpl; lia].
    + pose proof (step_fresh id e s Hs He) as Hs'.
      specialize (IH _ Hs' ltac:(simpl in Hc; lia) Hos).
      destruct e as [data now eng|id'|n]; simpl; try done.
      destruct (String.eqb id' id); simpl; [|done].
      rewrite (fresh_status id s Hs). by apply chain_cons; [left|].
Qed.

Lemma initial_fresh (id : string) : fresh id initial.
Proof.
  split.
  - change (download_progress (srv_store initial)) with (∅ : gmap string progress).
    apply lookup_empty.
  - intros n t H. change (srv_threads initial) with (@nil (list action)) in H.
    by rewrite lookup_nil in H.
Qed.

(** C3, as the code has it.  Take a progress id that at most one request of
    the run is answered with, and let the engine of that request report its
    'downloading' events before its 'finished' events.  Then the statuses
    that the polls of the id see, in order, never step back: each is the
    one seen before or a later one in the order unknown, starting,
    extracting, downloading, finished, completed, error, and nothing but
    itself follows 'completed' or 'error'. *)
Theorem polled_statuses_in_order (progress_id : string) (es : list event) :
  (creations progress_id es <= 1)%nat ->
  Forall (created_in_order progress_id) es ->
  StronglySorted may_follow (polled_statuses progress_id es initial).
Proof.
  intros Hc Ho.
  pose proof (run_fresh progress_id es initial (initial_fresh _) Hc Ho) as H.
  by apply StronglySorted_inv in H as [H _].
Qed.

End Proofs.

Section Samples.
#[local] Existing Instance ascii_tables.

Lemma polled_statuses_in_order_witness :
  StronglySorted may_follow
    (polled_statuses "download_0"
       (Sample.polled_run (Sample.post Sample.url PyNone) Sample.plain 8) initial).
Proof.
  apply polled_statuses_in_order.
  - vm_compute. apply le_n.
  - unfold Sample.polled_run. simpl.
    repeat (apply Forall_cons; split); try apply Forall_nil; try exact I.
    intros _ format url. reflexivity.
Defined.

(** C3 as stated fails: when the engine fetches two files for one job, the
    polls see 'downloading' again after 'finished'. *)
Lemma second_file_steps_back :
  let es := Sample.polled_run
              (Sample.post Sample.url (PyStr "hls-1280+hls-audio-128000"))
              Sample.two_files 10 in
  polled_statuses "download_0" es initial =
    [ Starting; Extracting; Extracting; Extracting; Downloading; Finished;
      Downloading; Finished; Finished; Finished; Completed ] /\
  ~ StronglySorted may_follow (polled_statuses "download_0" es initial).
Proof.
  assert (polled_statuses "download_0"
            (Sample.polled_run
               (Sample.post Sample.url (PyStr "hls-1280+hls-audio-128000"))
               Sample.two_files 10) initial =
          [ Starting; Extracting; Extracting; Extracting; Downloading; Finished;
            Downloading; Finished; Finished; Finished; Completed ]) as E
    by (vm_compute; reflexivity).
  split; [exact E|]. cbv zeta. rewrite E. intros H.
  do 5 (apply StronglySorted_inv in H as [H _]).
  apply StronglySorted_inv in H as [_ H].
  apply Forall_cons in H as [[H|[_ H]] _]; [discriminate | simpl in H; lia].
Qed.

End Samples.

Section Proofs.
Context `{U : Unicode}.

(** ** Ranking when every height and bitrate is a number *)

Lemma pair_lt_numeric (a b : pyval * pyval) :
  numeric_key a -> numeric_key b ->
  (Py.pair_lt a b = inr true /\ ranks_before b a /\ same_rank a b = false) \/
  (Py.pair_lt a b = inr false /\ ranks_before a b).
Proof.
  destruct a as [h1 t1], b as [h2 t2].
  unfold numeric_key, ranks_before, same_rank, Py.pair_lt, Py.eq, Py.lt. simpl.
  intros [[qh1 Hh1] [qt1 Ht1]] [[qh2 Hh2] [qt2 Ht2]].
  rewrite Hh1, Hh2, Ht1, Ht2.
  assert (forall v q, Py.number v = Some q ->
            match v with PyNone => False | PyStr _ => False | _ => True end) as Hnum
    by (intros [] ?; simpl; done).
  pose proof (Hnum _ _ Hh1). pose proof (Hnum _ _ Hh2).
  pose proof (Hnum _ _ Ht1). pose proof (Hnum _ _ Ht2).
  assert (forall x y : Q, Qeq_bool x y = true <-> (x == y)%Q) as Heq
    by (intros; apply Qeq_bool_iff).
  assert (forall x y : Q, Qle_bool x y = true <-> (x <= y)%Q) as Hle
    by (intros; apply Qle_bool_iff).
  destruct h1, h2; try done; destruct t1, t2; try done; simpl in *;
    rewrite ?Hh1, ?Hh2, ?Ht1, ?Ht2;
    (destruct (Qeq_bool qh1 qh2) eqn:Eh; simpl;
     [ apply Heq in Eh;
       destruct (Qeq_bool qt1 qt2) eqn:Et; simpl;
       [ apply Heq in Et; right; split; [done|]; right; split; [done | lra]
       | destruct (Qle_bool qt2 qt1) eqn:El; simpl;
         [ apply Hle in El; right; split; [done|]; right; split; [done | lra]
         | left; split; [done|]; split; [|done];
           right; split; [lra|];
           destruct (Qle_bool qt1 qt2) eqn:El'; [by apply Hle|];
           assert (~ (qt2 <= qt1)%Q) by (rewrite <- Hle; congruence);
           assert (~ (qt1 <= qt2)%Q) by (rewrite <- Hle; congruence); lra ] ]
     | assert (~ (qh1 == qh2)%Q) by (rewrite <- Heq; congruence);
       destruct (Qle_bool qh2 qh1) eqn:El; simpl;
       [ apply Hle in El; right; split; [done|]; left; lra
       | left; split; [done|]; split; [|done]; left;
         assert (~ (qh2 <= qh1)%Q) by (rewrite <- Hle; congruence); lra ] ]).
Qed.

Lemma ranks_before_trans (a b c : pyval * pyval) :
  ranks_before a b -> ranks_before b c -> ranks_before a c.
Proof.
  unfold ranks_before.
  destruct (Py.number a.1), (Py.number b.1), (Py.number c.1),
    (Py.number a.2), (Py.number b.2), (Py.number c.2); try done.
  intros [H1|[H1 H1']] [H2|[H2 H2']]; [left|left|left|right; split]; lra.
Qed.

Lemma py_eq_common (k a b : pyval) :
  is_Some (Py.number b) -> Py.eq k a = true -> Py.eq k b = true -> Py.eq a b = true.
Proof.
  intros [qb Hb]. unfold Py.eq.
  destruct k, a, b; simpl in *; try done; rewrite ?Qeq_bool_iff; intros; lra.
Qed.

Lemma same_rank_common (k a b : pyval * pyval) :
  numeric_key b -> same_rank k a = true -> same_rank k b = true ->
  same_rank a b = true.
Proof.
  unfold same_rank. intros [Hb1 Hb2] Ha Hb.
  apply andb_true_iff in Ha as [Ha1 Ha2]. apply andb_true_iff in Hb as [Hk1 Hk2].
  apply andb_true_iff. split; eapply py_eq_common; eauto.
Qed.

Section Ranking.

Context {A : Type} (key : A -> pyval * pyval).

Let before (x y : A) : Prop := ranks_before (key x) (key y).
Let numeric (x : A) : Prop := numeric_key (key x).
Let class (k : pyval * pyval) (l : list A) : list A :=
  List.filter (fun z => same_rank k (key z)) l.

Lemma insert_desc_numeric (x : A) (s : list A) :
  numeric x -> Forall numeric s -> StronglySorted before s ->
  exists r,
    Py.insert_desc key x s = inr r /\
    Permutation (x :: s) r /\
    StronglySorted before r /\
    forall k, class k r = class k (x :: s).
Proof.
  intros Hx Hs Hsorted. induction Hsorted as [|y s Hsorted IH Hy].
  - exists [x]. repeat split; repeat constructor.
  - apply Forall_cons in Hs as [Hny Hs]. simpl.
    destruct (pair_lt_numeric (key x) (key y) Hx Hny) as [(-> & Hyx & Hne)|[-> Hxy]].
    + destruct (IH Hs) as (r & -> & Hperm & Hr & Hclass).
      exists (y :: r). split; [done|]. split; [|split].
      * rewrite perm_swap. by constructor.
      * constructor; [done|].
        eapply Permutation_Forall; [exact Hperm|]. by constructor.
      * intros k. unfold class in *. simpl. rewrite Hclass. simpl.
        destruct (same_rank k (key y)) eqn:Eky;
          destruct (same_rank k (key x)) eqn:Ekx; try done.
        pose proof (same_rank_common k (key x) (key y) Hny Ekx Eky). congruence.
    + exists (x :: y :: s). split; [done|]. split; [done|]. split; [|done].
      constructor; [by constructor|]. constructor; [done|].
      eapply Forall_impl; [exact Hy|]. intros z. by apply ranks_before_trans.
Qed.

(** On entries whose height and bitrate are numbers, the sort succeeds;
    its result holds the same entries, in descending order of height and
    then of bitrate, and entries of equal height and bitrate stay in the
    order they had. *)
Lemma sort_desc_numeric (l : list A) :
  Forall numeric l ->
  exists r,
    Py.sort_desc key l = inr r /\
    Permutation l r /\
    StronglySorted before r /\
    forall k, class k r = class k l.
Proof.
  induction l as [|x l IH]; intros Hl.
  - exists []. repeat split; constructor.
  - apply Forall_cons in Hl as [Hx Hl].
    destruct (IH Hl) as (s & Hs & Hperm & Hsorted & Hclass).
    assert (Forall numeric s) as Hns by (by eapply Permutation_Forall).
    destruct (insert_desc_numeric x s Hx Hns Hsorted) as (r & Hr & Hp & Hr' & Hc).
    exists r.
    change (Py.sort_desc key (x :: l)) with
      (match Py.sort_desc key l with
       | inl e => inl e
       | inr s => Py.insert_desc key x s
       end).
    rewrite Hs. split; [done|]. split; [|split; [done|]].
    + by rewrite <- Hp, <- Hperm.
    + intros k. rewrite Hc. unfold class in *. simpl. by rewrite Hclass.
Qed.

End Ranking.

(** The metadata query ranks as announced when every video format carries a
    numeric height and bitrate. *)
Lemma get_video_info_web_numeric (eng : Engine) (url : string) (i : info_dict) :
  is_valid_twitter_url url = true ->
  extract_info eng None url = Returns (Some i) ->
  info_falsy (Some i) = false ->
  video_formats_of (formats_of i) <> [] ->
  Forall (fun x => numeric_key (sort_key x)) (video_formats_of (formats_of i)) ->
  exists ranked,
    get_video_info_web eng url =
      (VideoInfo (Py.get_or (info_fields i) "title" (PyStr "Unknown title"))
                 (Py.get_or (info_fields i) "uploader" (PyStr "Unknown"))
                 (Py.get_or (info_fields i) "duration" (PyStr "Unknown"))
                 (Py.get (info_fields i) "thumbnail") ranked,
       [ExtractInfo None url]) /\
    Permutation (video_formats_of (formats_of i)) ranked /\
    StronglySorted (fun x y => ranks_before (sort_key x) (sort_key y)) ranked /\
    forall k,
      List.filter (fun z => same_rank k (sort_key z)) ranked =
      List.filter (fun z => same_rank k (sort_key z)) (video_formats_of (formats_of i)).
Proof.
  intros Hv Hi Hf Hne Hnum.
  destruct (sort_desc_numeric sort_key _ Hnum) as (ranked & Hs & Hperm & Hsorted & Hclass).
  exists ranked. split; [|by split].
  unfold get_video_info_web. rewrite Hv, Hi. simpl.
  unfold mbind, prog_bind, call, raised. rewrite Hf.
  destruct (video_formats_of (formats_of i)) as [|v vs]; [done|].
  by rewrite Hs.
Qed.

End Proofs.

Section Samples.
#[local] Existing Instance ascii_tables.

Example ranked_two_formats :
  (get_video_info_web Sample.plain Sample.url).1 =
    VideoInfo (PyStr "clip") (PyStr "Unknown") (PyStr "Unknown") PyNone
      [ quality_info_of (Sample.entry "http-2176" (Some 720) (Some (2176 # 1)%Q));
        quality_info_of (Sample.entry "http-832" (Some 480) (Some (832 # 1)%Q)) ].
Proof. vm_compute. reflexivity. Qed.

End Samples.

Section Proofs.
Context `{U : Unicode}.

(* ===================================================================== *)
(** * Part III: further properties of the code                            *)
(* ===================================================================== *)

(** ** Surrounding whitespace of the URL *)

Lemma skip_spec (sp : list ascii -> bool) (l : list ascii) :
  stops sp (Str.skip sp l) /\ exists pre, l = pre ++ Str.skip sp l.
Proof.
  remember (length l) as n eqn:Hn. revert l Hn.
  induction n as [n IH] using lt_wf_ind. intros l ->.
  destruct l as [|a l1]; [split; [done | by exists []]|].
  cbn [Str.skip]. destruct (sp [a]) eqn:H1.
  { destruct (IH (length l1) ltac:(simpl; lia) l1 eq_refl) as [Hs [pre Hp]].
    split; [done|]. exists (a :: pre). simpl. by rewrite <- Hp. }
  destruct l1 as [|b l2]; [split; [done | by exists []]|].
  destruct (sp [a; b]) eqn:H2.
  { destruct (IH (length l2) ltac:(simpl; lia) l2 eq_refl) as [Hs [pre Hp]].
    split; [done|]. exists (a :: b :: pre). simpl. by rewrite <- Hp. }
  destruct l2 as [|c l3]; [split; [done | by exists []]|].
  destruct (sp [a; b; c]) eqn:H3.
  { destruct (IH (length l3) ltac:(simpl; lia) l3 eq_refl) as [Hs [pre Hp]].
    split; [done|]. exists (a :: b :: c :: pre). simpl. by rewrite <- Hp. }
  split; [done | by exists []].
Qed.

Lemma stops_skip (sp : list ascii -> bool) (l : list ascii) :
  stops sp l -> Str.skip sp l = l.
Proof.
  destruct l as [|a [|b [|c l3]]]; simpl; try done.
  - by intros [-> _].
  - by intros [-> [-> _]].
  - by intros [-> [-> ->]].
Qed.

Lemma stops_prefix (sp : list ascii -> bool) (l k : list ascii) :
  stops sp (l ++ k) -> stops sp l.
Proof.
  destruct l as [|a [|b [|c l3]]]; simpl; try done.
  - by intros [? _].
  - by intros [? [? _]].
Qed.

Lemma strip_list (s : string) :
  exists l, Str.strip s = Str.of_list l /\
            stops Str.space_at l /\ stops (fun w => Str.space_at (rev w)) (rev l).
Proof.
  unfold Str.strip, Str.lstrip, Str.rstrip. rewrite to_of_list.
  set (l1 := Str.skip Str.space_at (Str.to_list s)).
  assert (stops Str.space_at l1) as H1 by apply skip_spec.
  destruct (skip_spec (fun w => Str.space_at (rev w)) (rev l1)) as [H2 [pre Hp]].
  exists (rev (Str.skip (fun w => Str.space_at (rev w)) (rev l1))).
  split; [done|]. rewrite rev_involutive. split; [|done].
  apply (stops_prefix _ _ (rev pre)). rewrite <- rev_app_distr, <- Hp.
  by rewrite rev_involutive.
Qed.

Lemma strip_stopped (l : list ascii) :
  stops Str.space_at l -> stops (fun w => Str.space_at (rev w)) (rev l) ->
  Str.strip (Str.of_list l) = Str.of_list l.
Proof.
  intros H1 H2. unfold Str.strip, Str.lstrip, Str.rstrip.
  rewrite !to_of_list, (stops_skip _ _ H1), (stops_skip _ _ H2).
  by rewrite rev_involutive.
Qed.

Lemma strip_idempotent (s : string) : Str.strip (Str.strip s) = Str.strip s.
Proof.
  destruct (strip_list s) as (l & -> & H1 & H2). by apply strip_stopped.
Qed.

Lemma skip_groups (sp : list ascii -> bool) (chars : list (list ascii)) (l : list ascii) :
  Forall (group sp) chars -> Str.skip sp (concat chars ++ l) = Str.skip sp l.
Proof.
  induction 1 as [|w chars Hw _ IH]; [done|].
  rewrite concat_cons, <- app_assoc.
  destruct w as [|a [|b [|c [|d w]]]]; try done; cbn [app Str.skip group] in *.
  - by rewrite Hw.
  - destruct Hw as [-> ->]. done.
  - destruct Hw as [-> [-> ->]]. done.
Qed.

Lemma skip_dropped (sp : list ascii -> bool) (l : list ascii) :
  exists chars, l = concat chars ++ Str.skip sp l /\ Forall (group sp) chars.
Proof.
  remember (length l) as n eqn:Hn. revert l Hn.
  induction n as [n IH] using lt_wf_ind. intros l ->.
  destruct l as [|a l1]; [by exists []|].
  cbn [Str.skip]. destruct (sp [a]) eqn:H1.
  { destruct (IH (length l1) ltac:(simpl; lia) l1 eq_refl) as (chars & Hp & Hc).
    exists ([a] :: chars). split; [simpl; by rewrite <- Hp|]. by constructor. }
  destruct l1 as [|b l2]; [by exists []|].
  destruct (sp [a; b]) eqn:H2.
  { destruct (IH (length l2) ltac:(simpl; lia) l2 eq_refl) as (chars & Hp & Hc).
    exists ([a; b] :: chars). split; [simpl; by rewrite <- Hp|]. by constructor. }
  destruct l2 as [|c l3]; [by exists []|].
  destruct (sp [a; b; c]) eqn:H3; [|by exists []].
  destruct (IH (length l3) ltac:(simpl; lia) l3 eq_refl) as (chars & Hp & Hc).
  exists ([a; b; c] :: chars). split; [simpl; by rewrite <- Hp|]. by constructor.
Qed.

(** The bytes of a whitespace character: one below 128, or a leading byte
    and one or two continuation bytes. *)
Lemma space_at_bytes (w : list ascii) :
  Str.space_at w = true ->
  match w with
  | [a] => (N_of_ascii a < 128)%N
  | [a; b] => Str.between 194 223 a = true /\ Str.is_cont b = true
  | [a; b; c] =>
      Str.between 224 239 a = true /\ Str.is_cont b = true /\ Str.is_cont c = true
  | _ => False
  end.
Proof.
  unfold Str.space_at, Str.is_char.
  destruct w as [|a [|b [|c [|d [|e w]]]]]; cbn [Str.point]; try done.
  - destruct (N.ltb_spec (N_of_ascii a) 128); done.
  - destruct (Str.between 194 223 a), (Str.is_cont b); done.
  - destruct (Str.between 224 239 a), (Str.is_cont b), (Str.is_cont c); done.
  - cbv zeta. set (p := (_ + _)%N).
    destruct (Str.between 240 244 a && Str.is_cont b && Str.is_cont c && Str.is_cont d);
      [|done]. cbn [andb].
    destruct (N.leb_spec 65536 p); [|done]. cbn [andb].
    destruct (p <=? 1114111)%N; [|done].
    unfold Str.is_space. intros Hsp. exfalso.
    repeat (apply orb_true_iff in Hsp as [Hsp|Hsp]);
      repeat (apply andb_true_iff in Hsp as [? Hsp]);
      repeat match goal with
             | H : (_ <=? _)%N = true |- _ => apply N.leb_le in H
             | H : (_ =? _)%N = true |- _ => apply N.eqb_eq in H
             end; lia.
Qed.

Lemma between_bounds (lo hi : N) (c : ascii) :
  Str.between lo hi c = true <-> (lo <= N_of_ascii c <= hi)%N.
Proof. unfold Str.between. rewrite andb_true_iff, !N.leb_le. done. Qed.

Lemma point_high (a : ascii) : (128 <= N_of_ascii a)%N -> Str.space_at [a] = false.
Proof.
  intros H. unfold Str.space_at, Str.is_char. cbn [Str.point].
  destruct (N.ltb_spec (N_of_ascii a) 128); [lia|done].
Qed.

Lemma space_at_second (a b : ascii) :
  Str.is_cont b = false -> Str.space_at [a; b] = false.
Proof.
  intros H. unfold Str.space_at, Str.is_char. cbn [Str.point]. by rewrite H, andb_false_r.
Qed.

Lemma space_at_lead2 (a b : ascii) :
  Str.between 194 223 a = false -> Str.space_at [a; b] = false.
Proof. intros H. unfold Str.space_at, Str.is_char. cbn [Str.point]. by rewrite H. Qed.

Lemma space_at_third (a b c : ascii) :
  Str.is_cont b = false \/ Str.is_cont c = false -> Str.space_at [a; b; c] = false.
Proof.
  intros H. unfold Str.space_at, Str.is_char. cbn [Str.point]. cbv zeta.
  destruct H as [-> | ->]; by rewrite ?andb_false_r.
Qed.

Lemma space_group (w : list ascii) :
  Str.space_at w = true ->
  group Str.space_at w /\ group (fun x => Str.space_at (rev x)) (rev w).
Proof.
  intros H. pose proof (space_at_bytes w H) as Hb.
  destruct w as [|a [|b [|c [|d w]]]]; try done; cbn [group rev app].
  - destruct Hb as [Ha Hb]. apply between_bounds in Ha.
    unfold Str.is_cont in Hb. apply between_bounds in Hb.
    split; split; try done; apply point_high; lia.
  - destruct Hb as (Ha & Hb & Hc). apply between_bounds in Ha.
    pose proof Hb as Hb'. unfold Str.is_cont in Hb', Hc.
    apply between_bounds in Hb', Hc.
    split; (split; [apply point_high; lia|]); (split; [|done]).
    + apply space_at_lead2. apply not_true_is_false. rewrite between_bounds. lia.
    + apply space_at_lead2. apply not_true_is_false. rewrite between_bounds. lia.
Qed.

Lemma space_first (w : list ascii) :
  Str.space_at w = true -> exists a r, w = a :: r /\ Str.is_cont a = false.
Proof.
  intros H. pose proof (space_at_bytes w H) as Hb.
  destruct w as [|a [|b [|c [|d w]]]]; try done; exists a; eexists; (split; [done|]);
    apply not_true_is_false; unfold Str.is_cont; rewrite between_bounds.
  - lia.
  - destruct Hb as [Ha _]. apply between_bounds in Ha. lia.
  - destruct Hb as [Ha _]. apply between_bounds in Ha. lia.
Qed.

Lemma whitespace_first (chars : list (list ascii)) (b : ascii) (k : list ascii) :
  Forall (fun x => Str.space_at x = true) chars ->
  concat chars = b :: k -> Str.is_cont b = false.
Proof.
  induction 1 as [|w chars Hw _ IH]; [done|].
  destruct (space_first w Hw) as (a & r & -> & Ha).
  simpl. by intros [= <- _].
Qed.

(** What [skip] has left stays left when whitespace is appended. *)
Lemma stops_app (u k : list ascii) :
  stops Str.space_at u -> u <> [] ->
  (forall b k', k = b :: k' -> Str.is_cont b = false) ->
  stops Str.space_at (u ++ k).
Proof.
  intros Hu Hne Hk.
  destruct u as [|a [|a2 [|a3 u]]]; [done| | |exact Hu].
  - destruct k as [|b k]; [done|]. pose proof (Hk b k eq_refl) as Hb.
    destruct Hu as [Ha _]. cbn [app stops]. split; [done|].
    split; [by apply space_at_second|].
    destruct k as [|c k]; [done|]. apply space_at_third. by left.
  - destruct k as [|b k]; [done|]. pose proof (Hk b k eq_refl) as Hb.
    destruct Hu as [Ha [Ha2 _]]. cbn [app stops]. split; [done|]. split; [done|].
    apply space_at_third. by right.
Qed.

Lemma strip_whitespace (before u after : string) :
  whitespace before -> whitespace after ->
  Str.strip (before +:+ u +:+ after) = Str.strip u.
Proof.
  intros (c1 & H1 & F1) (c2 & H2 & F2).
  unfold Str.strip, Str.lstrip, Str.rstrip.
  rewrite !to_list_app, H1, H2, !to_of_list.
  assert (Forall (group Str.space_at) c1) as G1.
  { eapply Forall_impl; [exact F1|]. intros w Hw. by apply space_group. }
  assert (Forall (group Str.space_at) c2) as G2.
  { eapply Forall_impl; [exact F2|]. intros w Hw. by apply space_group. }
  rewrite (skip_groups _ _ _ G1).
  destruct (skip_dropped Str.space_at (Str.to_list u)) as (cu & Hu & Gu).
  destruct (skip_spec Str.space_at (Str.to_list u)) as [Hstop _].
  set (u' := Str.skip Str.space_at (Str.to_list u)) in *.
  rewrite Hu at 1. rewrite <- app_assoc, (skip_groups _ _ _ Gu).
  destruct (decide (u' = [])) as [E|Hne].
  - rewrite E. cbn [app]. rewrite <- (app_nil_r (concat c2)), (skip_groups _ _ _ G2). done.
  - rewrite (stops_skip _ (u' ++ concat c2)).
    2:{ apply stops_app; [done..|]. intros b k' Hk. by eapply whitespace_first. }
    rewrite rev_app_distr. f_equal. f_equal.
    assert (forall l, Str.skip (fun w => Str.space_at (rev w)) (rev (concat c2) ++ l)
                      = Str.skip (fun w => Str.space_at (rev w)) l) as Hrev.
    { clear -F2. induction F2 as [|w c2 Hw _ IH]; [done|]. intros l.
      rewrite concat_cons, rev_app_distr, <- app_assoc, IH.
      pose proof (skip_groups (fun w => Str.space_at (rev w)) [rev w] l) as Hg.
      cbn [concat] in Hg. rewrite app_nil_r in Hg. apply Hg.
      constructor; [|constructor]. by apply space_group. }
    apply Hrev.
Qed.

(** The three POST handlers ignore whitespace around the URL: a request
    whose URL has whitespace characters before and after it, ASCII or not, is
    handled exactly as the request that carries the URL without them; and a
    URL that is already stripped is left as it is. *)
Theorem handlers_ignore_surrounding_whitespace
    (before u after : string) (format_id : pyval) (now : Q) (eng : Engine) (st : store) :
  whitespace before -> whitespace after ->
  let data := {| req_url := Some (before +:+ u +:+ after); req_format_id := format_id |} in
  let data' := {| req_url := Some (Str.strip u); req_format_id := format_id |} in
  url_of data = Str.strip u /\
  get_video_info data eng = get_video_info data' eng /\
  stream_download data eng = stream_download data' eng /\
  download_video data now eng st = download_video data' now eng st.
Proof.
  intros Hb Ha data data'.
  assert (url_of data = Str.strip u) as E by (by apply strip_whitespace).
  assert (url_of data' = Str.strip u) as E' by apply strip_idempotent.
  unfold get_video_info, stream_download, download_video. rewrite E, E'.
  by repeat split.
Qed.

End Proofs.

Section Samples.
#[local] Existing Instance ascii_tables.

Lemma handlers_ignore_surrounding_whitespace_witness :
  let data := {| req_url := Some (Demo.spaces +:+ Sample.url +:+ Demo.spaces);
                 req_format_id := PyNone |} in
  let data' := {| req_url := Some (Str.strip Sample.url); req_format_id := PyNone |} in
  url_of data = Str.strip Sample.url /\
  get_video_info data Sample.plain = get_video_info data' Sample.plain /\
  stream_download data Sample.plain = stream_download data' Sample.plain /\
  download_video data 0%Q Sample.plain empty_store
    = download_video data' 0%Q Sample.plain empty_store.
Proof.
  assert (whitespace Demo.spaces) as H.
  { exists [[" "%char]; [ascii_of_N 194; ascii_of_N 160];
            [ascii_of_N 226; ascii_of_N 128; ascii_of_N 131]; [ascii_of_N 9]].
    split; [reflexivity|]. repeat constructor. }
  apply (handlers_ignore_surrounding_whitespace Demo.spaces Sample.url Demo.spaces
           PyNone 0%Q Sample.plain empty_store H H).
Defined.

End Samples.

Section Proofs.
Context `{U : Unicode}.

(** ** Valid URLs *)

Lemma match_extends (r : regex) (s t : list ascii) :
  match_ r s = true -> match_ r (s ++ t) = true.
Proof.
  rewrite !match_prefix. intros (p & q & -> & Hp).
  exists p, (q ++ t). by rewrite app_assoc.
Qed.

Lemma match_scheme_first (r : regex) (s : list ascii) :
  match_ (Seq re_scheme r) s = true -> exists t, s = Str.to_list "http" ++ t.
Proof.
  rewrite match_prefix. intros (p & q & -> & Hp).
  apply matches_seq in Hp as (w1 & w2 & -> & H1 & _).
  unfold re_scheme in H1. apply matches_seq in H1 as (v1 & v2 & -> & Hv & _).
  apply matches_lit in Hv as ->. eexists. by rewrite <- !app_assoc.
Qed.

(** Whatever is appended to a valid URL, the URL stays valid; and a valid
    URL starts with [http], so that nothing, not even a blank, may come
    before the scheme. *)
Theorem valid_url_extends_and_starts_with_http (url rest : string) :
  is_valid_twitter_url url = true ->
  is_valid_twitter_url (url +:+ rest) = true /\
  exists tail, url = "http" +:+ tail.
Proof.
  unfold is_valid_twitter_url, twitter_patterns. simpl existsb.
  rewrite !orb_false_r, !orb_true_iff, to_list_app. intros H. split.
  - destruct H as [H|[H|H]]; [left | right; left | right; right];
      by apply match_extends.
  - assert (exists t, Str.to_list url = Str.to_list "http" ++ t) as [t Ht].
    { destruct H as [H|[H|H]]; by eapply match_scheme_first. }
    exists (Str.of_list t). apply to_list_inj.
    by rewrite to_list_app, to_of_list.
Qed.

End Proofs.

Section Samples.
#[local] Existing Instance ascii_tables.

Lemma valid_url_extends_and_starts_with_http_witness :
  is_valid_twitter_url ("https://x.com/user/status/123456" +:+ "?s=20") = true /\
  exists tail, "https://x.com/user/status/123456" = "http" +:+ tail.
Proof.
  apply (valid_url_extends_and_starts_with_http
           "https://x.com/user/status/123456" "?s=20").
  reflexivity.
Defined.

End Samples.

Section Proofs.
Context `{U : Unicode}.

(** ** The method of a job, case by case *)

(** [download_video_web] without the monad: one line per way out. *)
Lemma download_video_web_cases (eng : Engine) (progress_id : option string)
    (url : string) (format_id : pyval) :
  download_video_web eng progress_id url format_id =
  if negb (is_valid_twitter_url url) then (invalid_url, []) else
  let fmt := format_of format_id in
  let probe :=
    match hooked progress_id with
    | Some id => [SetProgress id
                    (progress_msg Extracting "0%" "Extracting video information...")]
    | None => []
    end ++ [ExtractInfo (Some fmt) url] in
  match extract_info eng (Some fmt) url with
  | DownloadError msg => (download_error msg, probe)
  | OtherError msg => (unexpected_error msg, probe)
  | Returns None => (no_video_found, probe)
  | Returns (Some i) =>
      if info_falsy (Some i) then (no_video_found, probe) else
      match filter (fun f => has_video f = true) (formats_of i) with
      | [] => (no_video_content, probe)
      | _ =>
          let fetch :=
            probe ++ Download fmt url
                  :: concat (_progress_hook progress_id <$> (download eng fmt url).1) in
          match (download eng fmt url).2 with
          | DownloadError msg => (download_error msg, fetch)
          | OtherError msg => (unexpected_error msg, fetch)
          | Returns _ =>
              match prepare_filename eng i with
              | DownloadError msg => (download_error msg, fetch ++ [PrepareFilename])
              | OtherError msg => (unexpected_error msg, fetch ++ [PrepareFilename])
              | Returns filename =>
                  let selected_format :=
                    if Py.truthy format_id
                    then List.find (fun f => Py.eq (Py.get f "format_id") format_id)
                                   (formats_of i)
                    else None in
                  (Downloaded
                     (Py.get_or (info_fields i) "title" (PyStr "Unknown title"))
                     (Py.get_or (info_fields i) "uploader" (PyStr "Unknown"))
                     (Py.get_or (info_fields i) "duration" (PyStr "Unknown"))
                     (basename filename) filename
                     match selected_format with
                     | Some f => Py.get_or f "format_note" (PyStr "Auto")
                     | None => PyStr "Auto"
                     end
                     match selected_format with
                     | Some f => Py.get_or f "resolution" (PyStr "Unknown")
                     | None => PyStr "Best available"
                     end,
                   fetch ++ [PrepareFilename])
              end
          end
      end
  end.
Proof.
  unfold download_video_web, format_of.
  destruct (is_valid_twitter_url url); [|done]. cbn [negb].
  unfold mbind, prog_bind, call, emit, emits, return_, mret, prog_ret, run_prog, raised.
  destruct (hooked progress_id) as [id|];
    (destruct (extract_info eng _ url) as [[i|]|msg|msg]; [|done..];
     destruct (info_falsy (Some i)); [done|];
     destruct (filter _ (formats_of i)); [done|];
     destruct ((download eng _ url).2) as [[]|msg|msg];
       [|cbn [app concat]; by rewrite ?app_nil_r..];
     destruct (prepare_filename eng i) as [f|msg|msg];
       cbn [app]; by rewrite ?app_nil_r, <- ?app_assoc).
Qed.

(** [get_video_info_web], case by case. *)
Lemma get_video_info_web_cases (eng : Engine) (url : string) :
  get_video_info_web eng url =
  if negb (is_valid_twitter_url url) then (invalid_url, []) else
  let probe := [ExtractInfo None url] in
  match extract_info eng None url with
  | DownloadError msg => (download_error msg, probe)
  | OtherError msg => (unexpected_error msg, probe)
  | Returns None => (no_video_found, probe)
  | Returns (Some i) =>
      if info_falsy (Some i) then (no_video_found, probe) else
      match video_formats_of (formats_of i) with
      | [] => (no_video_content, probe)
      | _ =>
          match Py.sort_desc sort_key (video_formats_of (formats_of i)) with
          | inl e => (unexpected_error e, probe)
          | inr sorted =>
              (VideoInfo
                 (Py.get_or (info_fields i) "title" (PyStr "Unknown title"))
                 (Py.get_or (info_fields i) "uploader" (PyStr "Unknown"))
                 (Py.get_or (info_fields i) "duration" (PyStr "Unknown"))
                 (Py.get (info_fields i) "thumbnail") sorted,
               probe)
          end
      end
  end.
Proof.
  unfold get_video_info_web.
  destruct (is_valid_twitter_url url); [|done]. cbn [negb].
  unfold mbind, prog_bind, call, return_, mret, prog_ret, run_prog, raised.
  destruct (extract_info eng None url) as [[i|]|msg|msg]; [|done..].
  destruct (info_falsy (Some i)); [done|].
  destruct (video_formats_of (formats_of i)) as [|v vs]; [done|].
  by destruct (Py.sort_desc sort_key (v :: vs)).
Qed.

(** ** The file name of a download *)

Lemma contains_slash_cons (c : ascii) (s : string) :
  Str.contains "/" (String c s) =
  (if ascii_dec "/" c then true else false) || Str.contains "/" s.
Proof.
  rewrite contains_unfold. reflexivity.
Qed.

Lemma basename_no_slash (path : string) : Str.contains "/" (basename path) = false.
Proof.
  induction path as [|c rest IH]; [done|]. simpl basename.
  destruct (Str.contains "/" rest) eqn:Hrest; [done|].
  destruct (ascii_dec c "/") as [->|Hc]; [done|].
  rewrite contains_slash_cons, Hrest. destruct (ascii_dec "/" c); [congruence | done].
Qed.

Lemma basename_suffix (path : string) :
  exists dir, path = dir +:+ basename path /\
              (dir = "" \/ exists d, dir = d +:+ "/").
Proof.
  induction path as [|c rest IH]; [exists ""; by split; [|left]|]. simpl basename.
  destruct (Str.contains "/" rest) eqn:Hrest.
  - destruct IH as (dir & Hdir & Hend). exists (String c dir).
    split; [by rewrite app_cons, <- Hdir|]. right.
    destruct Hend as [->|[d ->]]; [|by exists (String c d)].
    rewrite app_empty_l in Hdir. pose proof (basename_no_slash rest) as Hb.
    rewrite <- Hdir in Hb. congruence.
  - destruct (ascii_dec c "/") as [->|Hc].
    + exists "/". split; [done|]. right. by exists "".
    + exists "". split; [done | by left].
Qed.

(** In the result of a successful job, ['filename'] is the last component
    of ['filepath']: it holds no slash, and the path ends with it, after a
    directory part that is empty or ends with a slash. *)
Theorem downloaded_filename_is_last_component
    (eng : Engine) (progress_id : option string) (url : string) (format_id : pyval)
    (title uploader duration quality resolution : pyval) (filename filepath : string) :
  (download_video_web eng progress_id url format_id).1 =
    Downloaded title uploader duration filename filepath quality resolution ->
  Str.contains "/" filename = false /\
  exists dir, filepath = dir +:+ filename /\ (dir = "" \/ exists d, dir = d +:+ "/").
Proof.
  rewrite download_video_web_cases.
  unfold invalid_url, no_video_found, no_video_content, unexpected_error.
  destruct (is_valid_twitter_url url); [|done]. cbn [negb].
  assert (forall msg t u d f p q r, download_error msg <> Downloaded t u d f p q r) as Hde.
  { intros msg *. destruct (download_error_name msg) as (e & m & -> & _). done. }
  cbv zeta.
  destruct (extract_info eng _ url) as [[i|]|msg|msg]; simpl;
    [| done | intros H; by apply Hde in H | done].
  destruct (info_falsy (Some i)); [done|].
  destruct (filter _ (formats_of i)); [done|].
  destruct ((download eng _ url).2) as [[]|msg|msg]; simpl;
    [| intros H; by apply Hde in H | done].
  destruct (prepare_filename eng i) as [f|msg|msg]; simpl;
    [| intros H; by apply Hde in H | done].
  intros [= _ _ _ <- <- _ _]. split; [apply basename_no_slash | apply basename_suffix].
Qed.

End Proofs.

Section Samples.
#[local] Existing Instance ascii_tables.

Lemma downloaded_filename_is_last_component_witness :
  Str.contains "/" "user_clip_1.mp4" = false /\
  exists dir, "downloads/user_clip_1.mp4" = dir +:+ "user_clip_1.mp4" /\
              (dir = "" \/ exists d, dir = d +:+ "/").
Proof.
  apply (downloaded_filename_is_last_component Sample.plain (Some "download_0")
           Sample.url PyNone (PyStr "clip") (PyStr "Unknown") (PyStr "Unknown")
           (PyStr "Auto") (PyStr "Best available")).
  vm_compute. reflexivity.
Defined.

End Samples.

Section Proofs.
Context `{U : Unicode}.

(** ** What a job's thread writes, and where *)

Lemma run_actions_app (l1 l2 : list action) (st : store) :
  run_actions (l1 ++ l2) st = run_actions l2 (run_actions l1 st).
Proof. apply foldl_app. Qed.

Lemma perform_frame (a : action) (st : store) (id : string) :
  mentions id a = false ->
  download_progress (perform a st) !! id = download_progress st !! id /\
  download_results (perform a st) !! id = download_results st !! id.
Proof.
  destruct a as [i p|i r| | | |]; simpl; try done;
    intros H; apply String.eqb_neq in H; by rewrite lookup_insert_ne.
Qed.

Lemma run_actions_frame (l : list action) (st : store) (id : string) :
  Forall (fun a => mentions id a = false) l ->
  download_progress (run_actions l st) !! id = download_progress st !! id /\
  download_results (run_actions l st) !! id = download_results st !! id.
Proof.
  intros H. revert st. induction H as [|a l Ha _ IH]; intros st; [done|].
  change (run_actions (a :: l) st) with (run_actions l (perform a st)).
  destruct (IH (perform a st)) as [-> ->]. by apply perform_frame.
Qed.

Lemma progress_hook_mentions (progress_id : option string) (d : hook_event) :
  Forall (fun a => forall id, mentions id a = true -> hooked progress_id = Some id)
    (_progress_hook progress_id d).
Proof.
  unfold _progress_hook. destruct (hooked progress_id) as [id'|]; [|constructor].
  assert (forall p, Forall (fun a => forall id, mentions id a = true -> Some id' = Some id)
                      [SetProgress id' p]) as Hone.
  { intros p. constructor; [|constructor].
    intros id H. simpl in H. apply String.eqb_eq in H. by subst. }
  destruct (String.eqb (h_status d) "downloading").
  - destruct (Py.get_or (h_data d) "_percent_str" (PyStr "0%"));
      first [apply Hone | constructor].
  - destruct (String.eqb (h_status d) "finished"); [apply Hone | constructor].
Qed.

Lemma download_video_web_mentions (eng : Engine) (progress_id : option string)
    (url : string) (format_id : pyval) :
  Forall (fun a => forall id, mentions id a = true -> hooked progress_id = Some id)
    (download_video_web eng progress_id url format_id).2.
Proof.
  rewrite download_video_web_cases.
  destruct (is_valid_twitter_url url); [|constructor]. cbn [negb]. cbv zeta.
  set (P := fun a => forall id, mentions id a = true -> hooked progress_id = Some id).
  assert (Forall P (match hooked progress_id with
                    | Some id => [SetProgress id
                        (progress_msg Extracting "0%" "Extracting video information...")]
                    | None => []
                    end ++ [ExtractInfo (Some (format_of format_id)) url])) as Hprobe.
  { apply Forall_app. split; [|by repeat constructor].
    destruct (hooked progress_id) as [id'|]; repeat constructor.
    intros id H. simpl in H. apply String.eqb_eq in H. by subst. }
  assert (Forall P (concat (_progress_hook progress_id <$>
                      (download eng (format_of format_id) url).1))) as Hhooks.
  { apply Forall_concat, Forall_fmap, Forall_forall. intros d _.
    apply progress_hook_mentions. }
  assert (Forall P [PrepareFilename]) as Hprep by (by repeat constructor).
  assert (Forall P [Download (format_of format_id) url]) as Hdown
    by (by repeat constructor).
  destruct (extract_info eng _ url) as [[i|]|msg|msg]; try done.
  destruct (info_falsy (Some i)); [done|].
  destruct (filter _ (formats_of i)); [done|].
  assert (Forall P
            ((match hooked progress_id with
              | Some id => [SetProgress id
                  (progress_msg Extracting "0%" "Extracting video information...")]
              | None => []
              end ++ [ExtractInfo (Some (format_of format_id)) url]) ++
             Download (format_of format_id) url
             :: concat (_progress_hook progress_id <$>
                          (download eng (format_of format_id) url).1))) as Hfetch.
  { apply Forall_app. split; [done|]. constructor; [|done]. by intros id H. }
  destruct ((download eng _ url).2) as [[]|msg|msg]; try done.
  destruct (prepare_filename eng i) as [f|msg|msg]; simpl;
    apply Forall_app; by split.
Qed.

Lemma download_thread_mentions (eng : Engine) (progress_id url : string)
    (format_id : pyval) :
  Forall (fun a => forall id, mentions id a = true -> id = progress_id)
    (download_thread eng progress_id url format_id).
Proof.
  unfold download_thread.
  pose proof (download_video_web_mentions eng (Some progress_id) url format_id) as H.
  destruct (download_video_web eng (Some progress_id) url format_id) as [result log].
  simpl in H. apply Forall_app. split.
  - eapply Forall_impl; [exact H|]. intros a Ha id Hid.
    symmetry. by apply hooked_some, Ha.
  - repeat constructor; intros id Hid; simpl in Hid; by apply String.eqb_eq in Hid.
Qed.

(** A job's thread writes under its own progress id only: however far it
    has run, the progress entry and the result of every other id are what
    they were. *)
Theorem job_leaves_other_ids_alone
    (eng : Engine) (progress_id url : string) (format_id : pyval)
    (st : store) (n : nat) (id : string) :
  id <> progress_id ->
  let st' := run_actions (take n (download_thread eng progress_id url format_id)) st in
  download_progress st' !! id = download_progress st !! id /\
  download_results st' !! id = download_results st !! id.
Proof.
  intros Hne. apply run_actions_frame.
  apply Forall_take.
  eapply Forall_impl; [apply download_thread_mentions|].
  intros a Ha. destruct (mentions id a) eqn:Hm; [|done].
  by apply Ha in Hm.
Qed.

End Proofs.

Section Samples.
#[local] Existing Instance ascii_tables.

Lemma job_leaves_other_ids_alone_witness :
  let st' := run_actions
               (take 5 (download_thread Sample.plain "download_0" Sample.url PyNone))
               Sample.result_stored in
  download_progress st' !! "download_1700000000"
    = download_progress Sample.result_stored !! "download_1700000000" /\
  download_results st' !! "download_1700000000"
    = download_results Sample.result_stored !! "download_1700000000".
Proof.
  apply (job_leaves_other_ids_alone Sample.plain "download_0" Sample.url PyNone
           Sample.result_stored 5 "download_1700000000").
  discriminate.
Defined.

End Samples.

Section Proofs.
Context `{U : Unicode}.

Lemma download_error_message (msg : string) :
  exists e m, download_error msg = Failure e (Some m).
Proof. unfold download_error. repeat case_match; eauto. Qed.

Lemma download_video_web_message (eng : Engine) (progress_id : option string)
    (url : string) (format_id : pyval) (e : string) (m : option string) :
  (download_video_web eng progress_id url format_id).1 = Failure e m ->
  exists msg, m = Some msg.
Proof.
  rewrite download_video_web_cases.
  unfold invalid_url, no_video_found, no_video_content, unexpected_error.
  assert (forall msg, download_error msg = Failure e m -> exists msg', m = Some msg') as Hde.
  { intros msg H. destruct (download_error_message msg) as (e' & m' & Hm).
    rewrite Hm in H. injection H as _ <-. eauto. }
  destruct (is_valid_twitter_url url); cbn [negb]; [|intros [= _ <-]; eauto].
  cbv zeta.
  destruct (extract_info eng _ url) as [[i|]|msg|msg]; simpl;
    [| intros [= _ <-]; eauto | apply Hde | intros [= _ <-]; eauto].
  destruct (info_falsy (Some i)); [intros [= _ <-]; eauto|].
  destruct (filter _ (formats_of i)); [intros [= _ <-]; eauto|].
  destruct ((download eng _ url).2) as [[]|msg|msg]; simpl;
    [| apply Hde | intros [= _ <-]; eauto].
  destruct (prepare_filename eng i) as [f|msg|msg]; simpl;
    [done | apply Hde | intros [= _ <-]; eauto].
Qed.

(** A job's thread that runs to its end leaves the result of
    [download_video_web] under its id, and a terminal progress entry:
    'completed' at 100% for a success, and for a failure 'error' at 0% with
    the message of the failure, which is always there, so that the stand-in
    text 'Download failed' is never shown. *)
Theorem job_ends_in_terminal_entry
    (eng : Engine) (progress_id url : string) (format_id : pyval) (st : store) :
  let result := (download_video_web eng (Some progress_id) url format_id).1 in
  let st' := run_actions (download_thread eng progress_id url format_id) st in
  download_results st' !! progress_id = Some result /\
  match result with
  | Failure _ m =>
      exists msg, m = Some msg /\
        download_progress st' !! progress_id = Some (progress_msg Error "0%" msg)
  | _ =>
      download_progress st' !! progress_id
        = Some (progress_msg Completed "100%" "Download completed successfully!")
  end.
Proof.
  cbv zeta. unfold download_thread.
  pose proof (download_video_web_message eng (Some progress_id) url format_id) as Hm.
  destruct (download_video_web eng (Some progress_id) url format_id) as [r log].
  cbn [fst] in *. rewrite run_actions_app.
  generalize (run_actions log st). intros st1.
  change (run_actions [?a; ?b] st1) with (perform b (perform a st1)).
  cbn [perform download_results download_progress].
  rewrite !lookup_insert_eq. split; [done|].
  destruct r as [e m| |]; cbn [success]; [|done..].
  destruct (Hm e m eq_refl) as [msg ->]. by exists msg.
Qed.

(** ** The calls into the engine *)

Lemma engine_calls_app (l1 l2 : list action) :
  engine_calls (l1 ++ l2) = engine_calls l1 ++ engine_calls l2.
Proof. apply List.filter_app. Qed.

Lemma engine_calls_writes (l : list action) :
  Forall (fun a => is_engine_call a = false) l -> engine_calls l = [].
Proof.
  induction 1 as [|a l Ha _ IH]; [done|]. unfold engine_calls in *. simpl.
  by rewrite Ha.
Qed.

Lemma progress_hook_no_calls (progress_id : option string) (d : hook_event) :
  Forall (fun a => is_engine_call a = false) (_progress_hook progress_id d).
Proof.
  unfold _progress_hook.
  destruct (hooked progress_id) as [id|]; [|constructor].
  destruct (String.eqb (h_status d) "downloading").
  - destruct (Py.get_or (h_data d) "_percent_str" (PyStr "0%")); by repeat constructor.
  - destruct (String.eqb (h_status d) "finished"); by repeat constructor.
Qed.

Lemma engine_calls_hooks (progress_id : option string) (hs : list hook_event) :
  engine_calls (concat (_progress_hook progress_id <$> hs)) = [].
Proof.
  apply engine_calls_writes, Forall_concat, Forall_fmap, Forall_forall.
  intros d _. apply progress_hook_no_calls.
Qed.

Lemma engine_calls_probe (progress_id : option string) (a : action) :
  is_engine_call a = true ->
  engine_calls
    (match hooked progress_id with
     | Some id => [SetProgress id
                     (progress_msg Extracting "0%" "Extracting video information...")]
     | None => []
     end ++ [a]) = [a].
Proof.
  intros Ha. rewrite engine_calls_app. unfold engine_calls at 2. simpl. rewrite Ha.
  by destruct (hooked progress_id).
Qed.

(** One run of [download_video_web] calls the engine at most three times,
    in the order probe, download, file name, each at most once and under
    the one format: nothing is retried.  A rejected URL leads to no call, a
    download is only started after a probe that found a video format, and a
    success has made all three calls. *)
Theorem download_video_web_calls_in_order
    (eng : Engine) (progress_id : option string) (url : string) (format_id : pyval) :
  let fmt := format_of format_id in
  let calls := engine_calls (download_video_web eng progress_id url format_id).2 in
  let all := [ExtractInfo (Some fmt) url; Download fmt url; PrepareFilename] in
  calls `prefix_of` all /\
  (calls = [] <-> is_valid_twitter_url url = false) /\
  (In (Download fmt url) calls ->
     exists i, extract_info eng (Some fmt) url = Returns (Some i) /\
               filter (fun f => has_video f = true) (formats_of i) <> []) /\
  (success (download_video_web eng progress_id url format_id).1 = true -> calls = all).
Proof.
  cbv zeta. rewrite download_video_web_cases.
  unfold invalid_url, no_video_found, no_video_content, unexpected_error.
  destruct (is_valid_twitter_url url); cbn [negb fst snd].
  2:{ split; [by eexists|]. split; [done|]. split; [intros []|done]. }
  cbv zeta.
  pose proof (engine_calls_probe progress_id
                (ExtractInfo (Some (format_of format_id)) url) eq_refl) as Hp.
  pose proof (engine_calls_hooks progress_id
                (download eng (format_of format_id) url).1) as Hh.
  assert (forall msg, success (download_error msg) = false) as Hde.
  { intros msg. by destruct (download_error_message msg) as (e & m & ->). }
  assert (forall X : Prop, In (Download (format_of format_id) url)
            [ExtractInfo (Some (format_of format_id)) url] -> X) as Hno.
  { intros X [H|[]]. discriminate. }
  destruct (extract_info eng _ url) as [[i|]|msg|msg]; cbn [fst snd];
    rewrite ?Hp, ?Hde;
    try (split; [by eexists|]; split; [done|]; split; [apply Hno | done]).
  destruct (info_falsy (Some i)); cbn [fst snd]; rewrite ?Hp;
    try (split; [by eexists|]; split; [done|]; split; [apply Hno | done]).
  destruct (filter _ (formats_of i)) as [|f fs] eqn:Hf; cbn [fst snd]; rewrite ?Hp;
    try (split; [by eexists|]; split; [done|]; split; [apply Hno | done]).
  assert (engine_calls
            ((match hooked progress_id with
              | Some id => [SetProgress id
                  (progress_msg Extracting "0%" "Extracting video information...")]
              | None => []
              end ++ [ExtractInfo (Some (format_of format_id)) url]) ++
             Download (format_of format_id) url
             :: concat (_progress_hook progress_id <$>
                          (download eng (format_of format_id) url).1))
          = [ExtractInfo (Some (format_of format_id)) url;
             Download (format_of format_id) url]) as Hfetch.
  { rewrite engine_calls_app, Hp.
    change (Download ?f ?u :: ?l) with ([Download f u] ++ l).
    by rewrite engine_calls_app, Hh. }
  assert (exists i0, Returns (Some i) = Returns (Some i0) /\
            filter (fun f => has_video f = true) (formats_of i0) <> []) as Hi
    by (exists i; by rewrite Hf).
  destruct ((download eng _ url).2) as [[]|msg|msg]; cbn [fst snd];
    rewrite ?Hfetch, ?Hde;
    try (split; [by exists [PrepareFilename]|]; split; [done|];
         split; [intros _; exact Hi | done]).
  destruct (prepare_filename eng i) as [fn|msg|msg]; cbn [fst snd];
    rewrite engine_calls_app, Hfetch, ?Hde;
    (split; [by exists []|]; split; [done|]; split; [intros _; exact Hi | done]).
Qed.

(** ** The formats of the metadata query *)

Lemma insert_desc_perm {A : Type} (key : A -> pyval * pyval) (x : A) (s r : list A) :
  Py.insert_desc key x s = inr r -> Permutation (x :: s) r.
Proof.
  revert r. induction s as [|y s IH]; intros r; simpl.
  - by intros [= <-].
  - destruct (Py.pair_lt (key x) (key y)) as [e|[|]]; [done| |by intros [= <-]].
    destruct (Py.insert_desc key x s) as [e|r'] eqn:Hr; [done|].
    intros [= <-]. rewrite perm_swap. constructor. by apply IH.
Qed.

Lemma sort_desc_unfold {A : Type} (key : A -> pyval * pyval) (x : A) (l : list A) :
  Py.sort_desc key (x :: l) =
  match Py.sort_desc key l with
  | inl e => inl e
  | inr s => Py.insert_desc key x s
  end.
Proof. reflexivity. Qed.

Lemma sort_desc_perm {A : Type} (key : A -> pyval * pyval) (l r : list A) :
  Py.sort_desc key l = inr r -> Permutation l r.
Proof.
  revert r. induction l as [|x l IH]; intros r.
  - by intros [= <-].
  - rewrite sort_desc_unfold.
    destruct (Py.sort_desc key l) as [e|s] eqn:Hs; [done|].
    intros H. apply insert_desc_perm in H. rewrite <- H. constructor. by apply IH.
Qed.

(** What a successful metadata query lists is, in some order, exactly the
    engine's formats that have a video codec and a source location, each
    turned into an entry; there is at least one, and the engine was called
    once, for the probe. *)
Theorem video_info_lists_the_playable_formats
    (eng : Engine) (url : string) (title uploader duration thumbnail : pyval)
    (formats : list quality_info) (log : list action) :
  get_video_info_web eng url
    = (VideoInfo title uploader duration thumbnail formats, log) ->
  exists i,
    extract_info eng None url = Returns (Some i) /\
    log = [ExtractInfo None url] /\
    formats <> [] /\
    Permutation (video_formats_of (formats_of i)) formats /\
    forall fmt,
      fmt ∈ formats <->
      exists f, f ∈ formats_of i /\ fmt = quality_info_of f /\
                has_video f = true /\ Py.truthy (Py.get f "url") = true.
Proof.
  intros H. apply get_video_info_web_ranked in H as (i & Hi & Hne & Hsort & ->).
  exists i. apply sort_desc_perm in Hsort as Hperm.
  split; [done|]. split; [done|]. split; [|split; [done|]].
  - intros ->. apply Permutation_nil_r in Hperm. done.
  - intros fmt. rewrite <- Hperm. unfold video_formats_of.
    rewrite list_elem_of_fmap. split.
    + intros (f & -> & Hf). apply list_elem_of_filter in Hf as [Hf Hin].
      apply andb_true_iff in Hf as [Hv Hu]. by exists f.
    + intros (f & Hin & -> & Hv & Hu). exists f. split; [done|].
      apply list_elem_of_filter. split; [|done]. by apply andb_true_iff.
Qed.

End Proofs.

Section Samples.
#[local] Existing Instance ascii_tables.

Lemma video_info_lists_the_playable_formats_witness :
  exists i,
    extract_info Sample.plain None Sample.url = Returns (Some i) /\
    [ExtractInfo None Sample.url] = [ExtractInfo None Sample.url] /\
    video_formats_of (rev Sample.two_formats) <> [] /\
    Permutation (video_formats_of (formats_of i))
      (video_formats_of (rev Sample.two_formats)) /\
    forall fmt,
      fmt ∈ video_formats_of (rev Sample.two_formats) <->
      exists f, f ∈ formats_of i /\ fmt = quality_info_of f /\
                has_video f = true /\ Py.truthy (Py.get f "url") = true.
Proof.
  apply (video_info_lists_the_playable_formats Sample.plain Sample.url
           (PyStr "clip") (PyStr "Unknown") (PyStr "Unknown") PyNone).
  vm_compute. reflexivity.
Defined.

End Samples.

Section Proofs.
Context `{U : Unicode}.

Lemma pair_lt_kind (a b : pyval * pyval) (c : bool) :
  Py.pair_lt a b = inr c -> kind_of a.1 = kind_of b.1.
Proof.
  destruct a as [h1 t1], b as [h2 t2]. unfold Py.pair_lt. simpl.
  destruct h1, h2; simpl; try done; by destruct (negb _).
Qed.

Lemma sort_desc_one_kind {A : Type} (key : A -> pyval * pyval) (l r : list A) :
  Py.sort_desc key l = inr r ->
  forall a b, a ∈ l -> b ∈ l -> kind_of (key a).1 = kind_of (key b).1.
Proof.
  revert r. induction l as [|x l IH]; intros r; [by intros _ a b Ha%elem_of_nil|].
  rewrite sort_desc_unfold.
  destruct (Py.sort_desc key l) as [e|s] eqn:Hs; [done|]. intros Hins.
  specialize (IH s eq_refl). apply sort_desc_perm in Hs as Hperm.
  assert (forall b, b ∈ l -> kind_of (key x).1 = kind_of (key b).1) as Hx.
  { intros b Hb. destruct s as [|y s'].
    - apply Permutation_nil_r in Hperm. subst. by apply elem_of_nil in Hb.
    - assert (y ∈ l) as Hy by (rewrite Hperm; by left).
      simpl in Hins. destruct (Py.pair_lt (key x) (key y)) as [e|c] eqn:Hlt; [done|].
      apply pair_lt_kind in Hlt. rewrite Hlt. by apply IH. }
  intros a b Ha Hb. apply elem_of_cons in Ha as [->|Ha], Hb as [->|Hb]; auto.
  symmetry. auto.
Qed.

(** When two of the video formats carry heights of different kinds (one has
    none and another a number, say), the metadata query cannot rank them:
    it answers 'Unexpected error', whatever else the formats hold. *)
Theorem heights_of_two_kinds_fail
    (eng : Engine) (url : string) (i : info_dict) (x y : quality_info) :
  is_valid_twitter_url url = true ->
  extract_info eng None url = Returns (Some i) ->
  info_falsy (Some i) = false ->
  x ∈ video_formats_of (formats_of i) ->
  y ∈ video_formats_of (formats_of i) ->
  kind_of (q_height x) <> kind_of (q_height y) ->
  exists msg,
    get_video_info_web eng url
      = (Failure "Unexpected error" (Some msg), [ExtractInfo None url]).
Proof.
  intros Hv Hi Hf Hx Hy Hk. rewrite get_video_info_web_cases, Hv, Hi, Hf.
  cbn [negb]. cbv zeta.
  destruct (video_formats_of (formats_of i)) as [|v vs] eqn:Hvf;
    [by apply elem_of_nil in Hx|].
  destruct (Py.sort_desc sort_key (v :: vs)) as [e|sorted] eqn:Hs; [by exists e|].
  destruct Hk. by apply (sort_desc_one_kind sort_key _ _ Hs x y).
Qed.

End Proofs.

Section Samples.
#[local] Existing Instance ascii_tables.

Lemma heights_of_two_kinds_fail_witness :
  exists msg,
    get_video_info_web (Sample.engine Sample.height_missing []) Sample.url
      = (Failure "Unexpected error" (Some msg), [ExtractInfo None Sample.url]).
Proof.
  apply (heights_of_two_kinds_fail (Sample.engine Sample.height_missing []) Sample.url
           {| info_fields := {[ "title" := PyStr "clip" ]};
              info_formats := Some Sample.height_missing |}
           (quality_info_of (Sample.entry "http-2176" (Some 720) (Some (2176 # 1)%Q)))
           (quality_info_of (Sample.entry "hls-audio-video" None (Some (832 # 1)%Q)))).
  - reflexivity.
  - reflexivity.
  - vm_compute. reflexivity.
  - vm_compute. by left.
  - vm_compute. right. by left.
  - vm_compute. discriminate.
Defined.

Lemma get_video_info_web_numeric_witness :
  exists ranked,
    get_video_info_web Sample.plain Sample.url =
      (VideoInfo
         (Py.get_or (info_fields (Demo.clip Sample.two_formats)) "title" (PyStr "Unknown title"))
         (Py.get_or (info_fields (Demo.clip Sample.two_formats)) "uploader" (PyStr "Unknown"))
         (Py.get_or (info_fields (Demo.clip Sample.two_formats)) "duration" (PyStr "Unknown"))
         (Py.get (info_fields (Demo.clip Sample.two_formats)) "thumbnail") ranked,
       [ExtractInfo None Sample.url]) /\
    Permutation (video_formats_of (formats_of (Demo.clip Sample.two_formats))) ranked /\
    StronglySorted (fun x y => ranks_before (sort_key x) (sort_key y)) ranked /\
    forall k,
      List.filter (fun z => same_rank k (sort_key z)) ranked =
      List.filter (fun z => same_rank k (sort_key z))
        (video_formats_of (formats_of (Demo.clip Sample.two_formats))).
Proof.
  apply (get_video_info_web_numeric Sample.plain Sample.url (Demo.clip Sample.two_formats)).
  - reflexivity.
  - reflexivity.
  - vm_compute. reflexivity.
  - vm_compute. discriminate.
  - vm_compute. repeat constructor; eexists; reflexivity.
Defined.

End Samples.

Section Proofs.
Context `{U : Unicode}.

Lemma ranks_before_refl (k : pyval * pyval) : numeric_key k -> ranks_before k k.
Proof.
  unfold numeric_key, ranks_before. intros [[h ->] [t ->]]. right. split; lra.
Qed.

(** A streaming request without a format id takes the best format: when the
    video formats all carry a numeric height and bitrate and the title can
    be cleaned, the stream is that of a video format that ranks before every
    video format of the probe, and the only process started is the one that
    fetches it. *)
Theorem stream_without_format_id_takes_the_best
    (eng : Engine) (url : string) (format_id : pyval) (i : info_dict) (clean : string) :
  is_valid_twitter_url url = true ->
  extract_info eng None url = Returns (Some i) ->
  info_falsy (Some i) = false ->
  video_formats_of (formats_of i) <> [] ->
  Forall (fun x => numeric_key (sort_key x)) (video_formats_of (formats_of i)) ->
  Py.truthy format_id = false ->
  clean_title (Py.get_or (info_fields i) "title" (PyStr "Unknown title")) = inr clean ->
  exists fmt,
    stream_download_from_url eng url format_id =
      (Stream fmt clean (stream_cmd fmt url),
       [ExtractInfo None url; Popen (stream_cmd fmt url)]) /\
    fmt ∈ video_formats_of (formats_of i) /\
    forall g, g ∈ video_formats_of (formats_of i) ->
              ranks_before (sort_key fmt) (sort_key g).
Proof.
  intros Hv Hi Hf Hne Hnum Ht Hclean.
  destruct (sort_desc_numeric sort_key _ Hnum) as (ranked & Hs & Hperm & Hsorted & _).
  destruct ranked as [|best rest].
  { apply Permutation_nil_r in Hperm. done. }
  exists best. split; [|split].
  - unfold stream_download_from_url.
    rewrite get_video_info_web_cases, Hv, Hi, Hf. cbn [negb]. cbv zeta.
    destruct (video_formats_of (formats_of i)) as [|v vs]; [done|].
    rewrite Hs, Ht. cbn [head]. by rewrite Hclean.
  - rewrite Hperm. by left.
  - intros g Hg. rewrite Hperm in Hg. apply StronglySorted_inv in Hsorted as [_ Hall].
    apply elem_of_cons in Hg as [->|Hg].
    + apply ranks_before_refl.
      assert (best ∈ video_formats_of (formats_of i)) as Hb by (rewrite Hperm; by left).
      by apply (proj1 (Forall_forall _ _) Hnum).
    + by apply (proj1 (Forall_forall _ _) Hall).
Qed.

End Proofs.

Section Samples.
#[local] Existing Instance ascii_tables.

Lemma stream_without_format_id_takes_the_best_witness :
  exists fmt,
    stream_download_from_url Sample.plain Sample.url PyNone =
      (Stream fmt "clip" (stream_cmd fmt Sample.url),
       [ExtractInfo None Sample.url; Popen (stream_cmd fmt Sample.url)]) /\
    fmt ∈ video_formats_of (formats_of (Demo.clip Sample.two_formats)) /\
    forall g, g ∈ video_formats_of (formats_of (Demo.clip Sample.two_formats)) ->
              ranks_before (sort_key fmt) (sort_key g).
Proof.
  apply (stream_without_format_id_takes_the_best Sample.plain Sample.url PyNone
           (Demo.clip Sample.two_formats) "clip").
  - reflexivity.
  - reflexivity.
  - vm_compute. reflexivity.
  - vm_compute. discriminate.
  - vm_compute. repeat constructor; eexists; reflexivity.
  - reflexivity.
  - vm_compute. reflexivity.
Defined.

End Samples.

Section Proofs.
Context `{U : Unicode}.

(** ** The streaming handler *)

Lemma clean_char_allowed (c : ascii) : forbidden (clean_char c) = false.
Proof.
  unfold clean_char. fold (forbidden c).
  destruct (forbidden c) eqn:E; [reflexivity | exact E].
Qed.

Lemma clean_string_allowed (s : string) :
  Forall (fun c => forbidden c = false) (Str.to_list (clean_string s)).
Proof.
  induction s as [|c s IH]; [constructor|].
  cbn [clean_string Str.to_list list_ascii_of_string]. constructor; [|exact IH].
  apply clean_char_allowed.
Qed.

Lemma take_chars_length (n : nat) (s : string) : (Str.len (take_chars n s) <= n)%nat.
Proof.
  revert n. induction s as [|c s IH]; intros n; cbn [take_chars Str.len]; [lia|].
  destruct (Str.is_cont c) eqn:Hc.
  - cbn [Str.len]. rewrite Hc. apply IH.
  - destruct n as [|n]; cbn [Str.len]; [lia|]. rewrite Hc. specialize (IH n). lia.
Qed.

Lemma take_chars_Forall (P : ascii -> Prop) (n : nat) (s : string) :
  Forall P (Str.to_list s) -> Forall P (Str.to_list (take_chars n s)).
Proof.
  revert n. induction s as [|c s IH]; intros n H; cbn [take_chars]; [constructor|].
  cbn [Str.to_list list_ascii_of_string] in H. apply Forall_cons_1 in H as [Hc Hs].
  destruct (Str.is_cont c); [|destruct n as [|n]];
    cbn [Str.to_list list_ascii_of_string]; constructor; try done; by apply IH.
Qed.

Example take_chars_counts_characters :
  take_chars 2 (Demo.e_acute +:+ "ab") = Demo.e_acute +:+ "a" /\
  Str.len (Demo.e_acute +:+ "ab") = 3%nat.
Proof. split; reflexivity. Qed.

Lemma clean_title_safe (title : pyval) (clean : string) :
  clean_title title = inr clean ->
  (Str.len clean <= 100)%nat /\
  Forall (fun c => forbidden c = false) (Str.to_list clean).
Proof.
  unfold clean_title. intros H.
  assert (exists s, clean = take_chars 100 (clean_string s)) as [s ->].
  { destruct (Py.truthy title).
    - destruct title as [| | |s]; try discriminate. injection H as <-. by exists s.
    - injection H as <-. by exists "twitter_video". }
  split; [apply take_chars_length|]. apply take_chars_Forall, clean_string_allowed.
Qed.

(** The title part of the name under which a stream is offered has at most
    100 characters, counted as [len] counts them, and none of the nine
    characters that the handler replaces, whatever title the probe
    returned. *)
Theorem streamed_title_is_clean
    (data : request) (eng : Engine) (fmt : quality_info) (clean : string)
    (cmd : list pyval) (log : list action) :
  stream_download data eng = (Stream fmt clean cmd, log) ->
  (Str.len clean <= 100)%nat /\
  Forall (fun c => forbidden c = false) (Str.to_list clean).
Proof.
  unfold stream_download, stream_download_from_url.
  destruct (String.eqb (url_of data) ""); [discriminate|].
  destruct (negb (is_valid_twitter_url (url_of data))); [discriminate|].
  destruct (get_video_info_web eng (url_of data)) as [info_result probe].
  destruct info_result as [| title uploader duration thumbnail formats |]; try discriminate.
  cbv zeta.
  destruct (match (if Py.truthy (req_format_id data)
                   then List.find (fun f => Py.eq (q_format_id f) (req_format_id data)) formats
                   else None) with Some f => Some f | None => head formats end) as [f|];
    [|discriminate].
  destruct (clean_title title) as [e|c] eqn:Hc; [discriminate|].
  intros H. injection H as _ <- _ _. by apply (clean_title_safe title).
Qed.

End Proofs.

Section Samples.
#[local] Existing Instance ascii_tables.

Lemma streamed_title_is_clean_witness :
  (Str.len (Demo.e_acute +:+ "who_ what_") <= 100)%nat /\
  Forall (fun c => forbidden c = false) (Str.to_list (Demo.e_acute +:+ "who_ what_")).
Proof.
  eapply (streamed_title_is_clean (Sample.post Sample.url PyNone)
            (Demo.titled (PyStr (Demo.e_acute +:+ "who? what*")))).
  reflexivity.
Defined.

End Samples.

Section Proofs.
Context `{U : Unicode}.

Lemma get_video_info_web_log (eng : Engine) (url : string) :
  is_valid_twitter_url url = true ->
  (get_video_info_web eng url).2 = [ExtractInfo None url].
Proof.
  intros Hv. rewrite get_video_info_web_cases, Hv. cbn [negb]. cbv zeta.
  destruct (extract_info eng None url) as [[i|]|msg|msg]; [|done..].
  destruct (info_falsy (Some i)); [done|].
  destruct (video_formats_of (formats_of i)) as [|v vs]; [done|].
  by destruct (Py.sort_desc sort_key (v :: vs)).
Qed.

(** [/stream_download] starts a process only with a streaming answer: then
    the URL is valid, the engine was probed once, and the one process fetches
    the selected format from the stripped URL.  With any other answer there
    was at most the probe.  The handler never writes to the store. *)
Theorem stream_download_starts_one_process (data : request) (eng : Engine) :
  match stream_download data eng with
  | (Stream fmt _ cmd, log) =>
      is_valid_twitter_url (url_of data) = true /\
      cmd = stream_cmd fmt (url_of data) /\
      log = [ExtractInfo None (url_of data); Popen cmd]
  | (_, log) => log = [] \/ log = [ExtractInfo None (url_of data)]
  end.
Proof.
  unfold stream_download, stream_download_from_url.
  destruct (String.eqb (url_of data) ""); [by left|].
  destruct (is_valid_twitter_url (url_of data)) eqn:Hv; [|by left]. cbn [negb].
  pose proof (get_video_info_web_log eng _ Hv) as Hlog.
  destruct (get_video_info_web eng (url_of data)) as [info_result probe].
  cbn [snd] in Hlog. subst probe.
  destruct info_result as [| title uploader duration thumbnail formats |];
    [by right | | by right].
  cbv zeta.
  destruct (match (if Py.truthy (req_format_id data)
                   then List.find (fun f => Py.eq (q_format_id f) (req_format_id data)) formats
                   else None) with Some f => Some f | None => head formats end) as [f|];
    [|by right].
  destruct (clean_title title) as [e|c]; [by right|].
  by split.
Qed.

(** ** The command-line method *)

Lemma download_error_lines_calls (msg : string) :
  TwitterDownloader.calls (TwitterDownloader.download_error_lines msg) = [].
Proof.
  unfold TwitterDownloader.download_error_lines.
  destruct (Str.contains "Private" msg || Str.contains "protected" (Str.lower msg));
    [reflexivity|].
  by destruct (Str.contains "not found" (Str.lower msg)).
Qed.

Lemma except_calls {A : Type} (o : outcome A) :
  TwitterDownloader.calls (TwitterDownloader.except o) = [].
Proof.
  destruct o as [a|msg|msg]; [reflexivity| |reflexivity].
  apply download_error_lines_calls.
Qed.

(** The command-line method never fails silently: it answers [False] exactly
    when one of the lines it printed is an error line, and so a run that
    answers [True] has printed none. *)
Theorem cli_download_reports_every_failure (eng : Engine) (output_dir url : string) :
  (TwitterDownloader.download_video eng output_dir url).1 =
  negb (existsb TwitterDownloader.is_error_line
          (TwitterDownloader.download_video eng output_dir url).2).
Proof.
  unfold TwitterDownloader.download_video.
  destruct (is_valid_twitter_url url); [|reflexivity]. cbn [negb]. cbv zeta.
  destruct (extract_info eng (Some default_format) url) as [[i|]|msg|msg] eqn:Hi;
    [| reflexivity | reflexivity | reflexivity].
  destruct (info_falsy (Some i)); [reflexivity|].
  destruct (filter _ (formats_of i)) as [|f fs]; [reflexivity|].
  destruct ((download eng default_format url).2) as [[]|msg|msg] eqn:Hd;
    reflexivity.
Qed.

Lemma calls_print (l : TwitterDownloader.line) (r : list TwitterDownloader.effect) :
  TwitterDownloader.calls (TwitterDownloader.Print l :: r) = TwitterDownloader.calls r.
Proof. reflexivity. Qed.

Lemma calls_call (a : action) (r : list TwitterDownloader.effect) :
  TwitterDownloader.calls (TwitterDownloader.Call a :: r) = a :: TwitterDownloader.calls r.
Proof. reflexivity. Qed.

Lemma download_error_fails (msg : string) : success (download_error msg) = false.
Proof. destruct (download_error_message msg) as (e & m & ->). reflexivity. Qed.

(** The command-line method and the method of the web server take the same
    way through the engine.  When the engine answers the probe and the
    download alike for both, the web method under the default format makes
    the calls of the command-line method, followed by the request for the
    file name exactly when the command-line method answers [True]; and where
    the command-line method answers [False], the web method fails too. *)
Theorem cli_and_web_downloads_agree
    (cli web : Engine) (output_dir url : string) :
  extract_info cli (Some default_format) url = extract_info web (Some default_format) url ->
  (download cli default_format url).2 = (download web default_format url).2 ->
  let c := TwitterDownloader.download_video cli output_dir url in
  let w := download_video_web web None url PyNone in
  engine_calls w.2 =
    TwitterDownloader.calls c.2 ++ (if c.1 then [PrepareFilename] else []) /\
  (c.1 = false -> success w.1 = false).
Proof.
  intros Hprobe Hfetch. cbv zeta.
  rewrite download_video_web_cases. unfold TwitterDownloader.download_video.
  destruct (is_valid_twitter_url url); [|by split]. cbn [negb]. cbv zeta.
  change (format_of PyNone) with default_format.
  change (hooked None) with (@None string). cbn [app].
  rewrite Hprobe, Hfetch.
  destruct (extract_info web (Some default_format) url) as [[i|]|msg|msg];
    [| by split | | by split].
  - destruct (info_falsy (Some i)); [by split|].
    destruct (filter _ (formats_of i)) as [|f fs]; [by split|].
    set (hooks := concat (_progress_hook None <$> (download web default_format url).1)).
    assert (engine_calls hooks = []) as Hhooks by apply engine_calls_hooks.
    assert (forall rest, engine_calls
              (ExtractInfo (Some default_format) url :: Download default_format url
                 :: hooks ++ rest) =
            ExtractInfo (Some default_format) url :: Download default_format url
              :: engine_calls rest) as Hcalls.
    { intros rest. change (?a :: ?b :: hooks ++ rest) with ([a; b] ++ hooks ++ rest).
      by rewrite !engine_calls_app, Hhooks. }
    destruct ((download web default_format url).2) as [[]|msg|msg].
    + destruct (prepare_filename web i) as [name|msg|msg]; cbn [fst snd app];
        (split; [|discriminate]);
        change (?a :: ?b :: hooks ++ ?r) with (a :: b :: hooks ++ r);
        by rewrite Hcalls.
    + cbn [fst snd]. split; [|intros _; apply download_error_fails].
      rewrite <- (app_nil_r hooks), Hcalls, app_nil_r.
      by rewrite !calls_print, calls_call, !calls_print, calls_call, except_calls.
    + cbn [fst snd]. split; [|reflexivity].
      rewrite <- (app_nil_r hooks), Hcalls. reflexivity.
  - cbn [fst snd]. split; [|intros _; apply download_error_fails].
    by rewrite app_nil_r, !calls_print, calls_call, except_calls.
Qed.

End Proofs.

Section Samples.
#[local] Existing Instance ascii_tables.

Lemma cli_and_web_downloads_agree_witness :
  let c := TwitterDownloader.download_video Sample.plain "downloads" Sample.url in
  let w := download_video_web Sample.two_files None Sample.url PyNone in
  engine_calls w.2 =
    TwitterDownloader.calls c.2 ++ (if c.1 then [PrepareFilename] else []) /\
  (c.1 = false -> success w.1 = false).
Proof.
  apply (cli_and_web_downloads_agree Sample.plain Sample.two_files "downloads" Sample.url).
  - reflexivity.
  - reflexivity.
Defined.

End Samples.

Section Proofs.
Context `{U : Unicode}.

(** ** The downloads directory *)

Lemma list_downloads_names (entries : gmap string file_stat) :
  lf_name <$> list_downloads (Some entries) =
  fst <$> filter (fun ne : string * file_stat => is_file ne.2 = true) (map_to_list entries).
Proof.
  unfold list_downloads. rewrite <- list_fmap_compose. reflexivity.
Qed.

Example listing_skips_directories :
  lf_name <$> list_downloads Demo.listing = ["user_clip_1.mp4"] /\
  download_file Demo.listing "partial" = FileNotFound /\
  download_file Demo.listing "user_clip_1.mp4" = SendFile "downloads/user_clip_1.mp4".
Proof. vm_compute. repeat split. Qed.

(** The two handlers of the downloads directory decide alike:
    [/download_file] answers 'File not found' exactly for the names that
    [/downloads] does not list, and for a listed name it hands the path of
    that name under [downloads] to [send_file]; no name is listed twice. *)
Theorem found_iff_listed (downloads : directory) (filename : string) :
  (download_file downloads filename = SendFile ("downloads/" +:+ filename) <->
   filename ∈ lf_name <$> list_downloads downloads) /\
  (download_file downloads filename = FileNotFound <->
   filename ∉ lf_name <$> list_downloads downloads) /\
  NoDup (lf_name <$> list_downloads downloads).
Proof.
  destruct downloads as [entries|]; cycle 1.
  { cbn. split; [|split]; [|by split; [intros _; apply not_elem_of_nil|]|constructor].
    split; [discriminate|]. by intros ?%elem_of_nil. }
  rewrite list_downloads_names.
  assert (filename ∈ fst <$> filter (fun ne : string * file_stat => is_file ne.2 = true)
                               (map_to_list entries) <->
          exists st, entries !! filename = Some st /\ is_file st = true) as Hin.
  { rewrite list_elem_of_fmap. split.
    - intros ([n st] & -> & [Hf Hl%elem_of_map_to_list]%list_elem_of_filter). eauto.
    - intros (st & Hl & Hf). exists (filename, st). split; [done|].
      apply list_elem_of_filter. split; [done|]. by apply elem_of_map_to_list. }
  split; [|split].
  - rewrite Hin. unfold download_file.
    destruct (entries !! filename) as [st|]; [destruct (is_file st) eqn:Hf|].
    + split; [eauto|done].
    + split; [discriminate|]. intros (st' & [= <-] & ?). congruence.
    + split; [discriminate|]. by intros (st' & [=] & ?).
  - rewrite Hin. unfold download_file.
    destruct (entries !! filename) as [st|]; [destruct (is_file st) eqn:Hf|].
    + split; [discriminate|]. intros []. eauto.
    + split; [|done]. intros _ (st' & [= <-] & ?). congruence.
    + split; [|done]. by intros _ (st' & [=] & ?).
  - eapply sublist_NoDup; [apply (NoDup_fst_map_to_list entries)|].
    apply fmap_sublist, sublist_filter.
Qed.

(** ** The store along a run *)

Lemma download_thread_absent (eng : Engine) (progress_id url : string)
    (format_id : pyval) (id : string) :
  progress_id <> id ->
  Forall (fun a => mentions id a = false) (download_thread eng progress_id url format_id).
Proof.
  intros Hne. eapply Forall_impl; [apply download_thread_mentions|].
  intros a Ha. destruct (mentions id a) eqn:Hm; [|done].
  apply Ha in Hm. congruence.
Qed.

Lemma get_progress_absent (id : string) (st : store) :
  download_progress st !! id = None -> download_results st !! id = None ->
  get_progress id st = (unknown_progress, st).
Proof. unfold get_progress. by intros -> ->. Qed.

Lemma get_progress_frame_results (id : string) (st : store) :
  download_results (get_progress id st).2 = download_results st.
Proof.
  unfold get_progress.
  by destruct (download_progress st !! id), (download_results st !! id).
Qed.

Lemma step_absent (id : string) (e : event) (s : server) :
  absent id s -> creates id e = false -> absent id (step e s).1.
Proof.
  intros (Hp & Hr & Ht) Hc. destruct s as [st ths]. unfold absent. simpl in *.
  destruct e as [data now eng|id'|n]; simpl.
  - unfold download_video.
    apply creates_false in Hc as [Hc|Hc].
    { rewrite Hc. simpl. rewrite app_nil_r. by split. }
    destruct (String.eqb (url_of data) ""); simpl; [rewrite app_nil_r; by split|].
    split; [by rewrite lookup_insert_ne|]. split; [done|].
    apply Forall_app. split; [done|]. constructor; [|constructor].
    by apply download_thread_absent.
  - pose proof (get_progress_fresh id' id st Hp) as Hf.
    pose proof (get_progress_frame_results id' st) as Hres.
    destruct (get_progress id' st) as [p st']. simpl in *. by rewrite Hres.
  - destruct (ths !! n) as [[|a rest]|] eqn:Hn; simpl; try (by split).
    pose proof (proj1 (Forall_lookup _ _) Ht n _ Hn) as Ha.
    apply Forall_cons in Ha as [Ha Hrest].
    destruct (perform_frame a st id Ha) as [-> ->].
    split; [done|]. split; [done|]. by apply Forall_insert.
Qed.

(** An id that no request of the run was answered with stays unknown: every
    poll of it gets the default answer, status 'unknown' at 0% without a
    result, and at the end of the run neither dictionary has an entry for
    it. *)
Theorem never_started_id_polls_unknown (id : string) (es : list event) :
  creations id es = 0%nat ->
  Forall (fun p => p = unknown_progress) (polled id (run es initial).2) /\
  download_progress (srv_store (run es initial).1) !! id = None /\
  download_results (srv_store (run es initial).1) !! id = None.
Proof.
  assert (absent id initial) as Hinit.
  { split; [apply lookup_empty|]. split; [apply lookup_empty|]. constructor. }
  revert Hinit. generalize initial.
  induction es as [|e es IH]; intros s Hs Hc.
  { destruct Hs as (Hp & Hr & _). split; [constructor|]. by split. }
  rewrite creations_cons in Hc.
  destruct (creates id e) eqn:He; [simpl in Hc; lia|].
  pose proof (step_absent id e s Hs He) as Hs'.
  specialize (IH _ Hs' ltac:(simpl in Hc; lia)).
  assert (forall p, (step e s).2 = Some (Snapshot p) -> e = GetProgress id ->
                    p = unknown_progress) as Hans.
  { intros p Hp ->. destruct Hs as (H1 & H2 & _). simpl in Hp.
    rewrite (get_progress_absent id _ H1 H2) in Hp. by injection Hp as <-. }
  simpl. destruct (step e s) as [s' r]. simpl in *.
  destruct (run es s') as [s'' rs]. simpl in *.
  destruct IH as (IH1 & IH2 & IH3). split; [|by split].
  destruct r as [resp|]; [|done].
  destruct e as [data now eng|id'|n]; simpl; try done.
  destruct resp as [| | |p]; try done.
  destruct (String.eqb_spec id' id) as [->|Hne]; [|done].
  constructor; [|done]. by apply Hans.
Qed.

End Proofs.

Section Samples.
#[local] Existing Instance ascii_tables.

Lemma never_started_id_polls_unknown_witness :
  Forall (fun p => p = unknown_progress)
    (polled "download_7" (run (Demo.other_id_polled "download_7") initial).2) /\
  download_progress
    (srv_store (run (Demo.other_id_polled "download_7") initial).1) !! "download_7" = None /\
  download_results
    (srv_store (run (Demo.other_id_polled "download_7") initial).1) !! "download_7" = None.
Proof.
  apply (never_started_id_polls_unknown "download_7" (Demo.other_id_polled "download_7")).
  vm_compute. reflexivity.
Defined.

End Samples.

Section Proofs.
Context `{U : Unicode}.

(** ** A terminal answer carries the job's result (C2) *)

Lemma progress_hook_plain (progress_id : option string) (d : hook_event) :
  Forall plain_write (_progress_hook progress_id d).
Proof.
  unfold _progress_hook.
  destruct (hooked progress_id) as [id|]; [|constructor].
  destruct (String.eqb (h_status d) "downloading").
  - destruct (Py.get_or (h_data d) "_percent_str" (PyStr "0%")); by repeat constructor.
  - destruct (String.eqb (h_status d) "finished"); by repeat constructor.
Qed.

Lemma download_video_web_plain (eng : Engine) (progress_id : option string)
    (url : string) (format_id : pyval) :
  Forall plain_write (download_video_web eng progress_id url format_id).2.
Proof.
  rewrite download_video_web_cases.
  destruct (is_valid_twitter_url url); [|constructor]. cbn [negb]. cbv zeta.
  set (probe := _ ++ [ExtractInfo _ url]).
  assert (Forall plain_write probe) as Hprobe.
  { subst probe. destruct (hooked progress_id); by repeat constructor. }
  destruct (extract_info eng _ url) as [[i|]|msg|msg]; [|done..].
  destruct (info_falsy (Some i)); [done|].
  destruct (filter _ (formats_of i)) as [|f fs]; [done|].
  set (fetch := probe ++ _).
  assert (Forall plain_write fetch) as Hfetch.
  { subst fetch. apply Forall_app. split; [done|]. constructor; [done|].
    apply Forall_concat, Forall_fmap, Forall_forall. intros d _.
    apply progress_hook_plain. }
  destruct ((download eng _ url).2) as [[]|msg|msg]; [|done..].
  destruct (prepare_filename eng i) as [name|msg|msg]; cbn [snd];
    apply Forall_app; split; try done; by repeat constructor.
Qed.

Lemma download_thread_writes_result (eng : Engine) (id progress_id url : string)
    (format_id : pyval) :
  Forall (writes_result id (download_video_web eng (Some progress_id) url format_id).1)
    (download_thread eng progress_id url format_id).
Proof.
  unfold download_thread.
  pose proof (download_video_web_plain eng (Some progress_id) url format_id) as H.
  destruct (download_video_web eng (Some progress_id) url format_id) as [result log].
  cbn [fst snd] in *. apply Forall_app. split.
  - eapply Forall_impl; [exact H|]. intros a Ha.
    destruct a; simpl in *; try done; by intros _.
  - constructor; [by intros _|]. constructor; [|constructor].
    intros _. by destruct (success result).
Qed.

Lemma absent_owned (id : string) (r : payload) (s : server) : absent id s -> owned id r s.
Proof.
  intros (Hp & Hr & Ht). split; [|split].
  - intros r'. by rewrite Hr.
  - intros p. by rewrite Hp.
  - eapply Forall_impl; [exact Ht|]. intros t Hth.
    eapply Forall_impl; [exact Hth|]. intros a Ha.
    destruct a as [i p|i r'| | | |]; try exact I; simpl in *;
      intros ->; by rewrite String.eqb_refl in Ha.
Qed.

Lemma step_owned (id : string) (r : payload) (e : event) (s : server) :
  owned id r s -> (forall r', result_of id e = Some r' -> r' = r) ->
  owned id r (step e s).1.
Proof.
  intros (Hr & Hp & Ht) He. destruct s as [st ths]. unfold owned. simpl in *.
  destruct e as [data now eng|id'|n]; simpl.
  - unfold download_video.
    destruct (String.eqb (url_of data) "") eqn:Hu; simpl.
    { rewrite app_nil_r. by split. }
    cbn [result_of creates] in He. rewrite Hu in He. cbn [negb andb] in He.
    split; [done|]. split.
    + intros p. destruct (decide (new_progress_id now = id)) as [<-|Hne].
      * rewrite lookup_insert_eq. intros [= <-]. by left.
      * rewrite lookup_insert_ne by done. apply Hp.
    + apply Forall_app. split; [done|]. constructor; [|constructor].
      destruct (String.eqb_spec (new_progress_id now) id) as [E|Hne].
      * rewrite <- (He _ eq_refl), <- E. apply download_thread_writes_result.
      * eapply Forall_impl; [apply download_thread_mentions|]. intros a Ha.
        destruct a as [i p|i r'| | | |]; try exact I; simpl;
          intros ->; destruct Hne; symmetry; apply Ha; simpl; apply String.eqb_refl.
  - unfold get_progress.
    destruct (download_progress st !! id') as [p|] eqn:Hp';
      destruct (download_results st !! id') as [r'|] eqn:Hr'; simpl; try (by split).
    split; [done|]. split; [|done].
    intros p0. destruct (decide (id' = id)) as [->|Hne].
    + rewrite lookup_insert_eq. intros [= <-]. right. simpl. f_equal. by apply Hr.
    + rewrite lookup_insert_ne by done. apply Hp.
  - destruct (ths !! n) as [[|a rest]|] eqn:Hn; simpl; try (by split).
    pose proof (proj1 (Forall_lookup _ _) Ht n _ Hn) as Ha.
    apply Forall_cons in Ha as [Ha Hrest].
    split; [|split; [|by apply Forall_insert]].
    + destruct a as [i p|i r'| | | |]; simpl in *; try done.
      intros r0. destruct (decide (i = id)) as [->|Hne].
      * rewrite lookup_insert_eq. intros [= <-]. by apply Ha.
      * rewrite lookup_insert_ne by done. apply Hr.
    + destruct a as [i p|i r'| | | |]; simpl in *; try done.
      intros p0. destruct (decide (i = id)) as [->|Hne].
      * rewrite lookup_insert_eq. intros [= <-]. left. by apply Ha.
      * rewrite lookup_insert_ne by done. apply Hp.
Qed.

Lemma get_progress_owned (id : string) (r : payload) (s : server) :
  owned id r s -> results_precede s ->
  terminal (p_status (get_progress id (srv_store s)).1) = true ->
  p_result (get_progress id (srv_store s)).1 = Some r.
Proof.
  intros (Hr & Hp & _) Hs Ht.
  pose proof (get_progress_terminal id s Hs Ht) as [r' Hsome].
  revert Hsome. unfold get_progress.
  destruct (download_progress (srv_store s) !! id) as [p|] eqn:Hp';
    destruct (download_results (srv_store s) !! id) as [r0|] eqn:Hr'; simpl.
  - intros _. f_equal. by apply Hr.
  - intros Hsome. destruct (Hp p eq_refl) as [E|E]; congruence.
  - intros _. f_equal. by apply Hr.
  - done.
Qed.

Lemma polled_cons (id : string) (e : event) (es : list event) (s : server) :
  polled id (run (e :: es) s).2 =
  match e with
  | GetProgress id' =>
      if String.eqb id' id then [(get_progress id' (srv_store s)).1] else []
  | _ => []
  end ++ polled id (run es (step e s).1).2.
Proof.
  simpl. destruct e as [data now eng|id'|n].
  - simpl. unfold download_video.
    destruct (String.eqb (url_of data) ""); simpl;
      by destruct (run es _) as [s'' rs].
  - simpl. destruct (get_progress id' (srv_store s)) as [p st']. simpl.
    destruct (run es _) as [s'' rs]. simpl. by destruct (String.eqb id' id).
  - simpl. destruct (srv_threads s !! n) as [[|a rest]|]; simpl;
      by destruct (run es _) as [s'' rs].
Qed.

Lemma run_owned (id : string) (r : payload) (es : list event) :
  forall s : server,
    owned id r s -> results_precede s -> creations id es = 0%nat ->
    Forall (fun p => terminal (p_status p) = true -> p_result p = Some r)
      (polled id (run es s).2).
Proof.
  induction es as [|e es IH]; intros s Ho Hs Hc; [constructor|].
  rewrite creations_cons in Hc.
  destruct (creates id e) eqn:He; [simpl in Hc; lia|].
  assert (forall r', result_of id e = Some r' -> r' = r) as Hres.
  { intros r'. destruct e; simpl in *; try done. by rewrite He. }
  rewrite polled_cons. apply Forall_app. split.
  - destruct e as [data now eng|id'|n]; try constructor.
    destruct (String.eqb_spec id' id) as [->|Hne]; constructor; [|constructor].
    by apply get_progress_owned.
  - apply IH; [by apply step_owned | by apply step_results_precede | simpl in Hc; lia].
Qed.

Lemma run_absent (id : string) (es : list event) :
  forall s : server,
    absent id s -> results_precede s -> (creations id es <= 1)%nat ->
    Forall (fun p => terminal (p_status p) = true ->
              exists e r, e ∈ es /\ result_of id e = Some r /\ p_result p = Some r)
      (polled id (run es s).2).
Proof.
  induction es as [|e es IH]; intros s Ha Hs Hc; [constructor|].
  rewrite creations_cons in Hc. rewrite polled_cons.
  destruct (creates id e) eqn:He.
  - destruct e as [data now eng|id'|n]; try (simpl in He; discriminate).
    cbn [app].
    set (e := PostDownload data now eng) in *.
    set (r := (download_video_web eng (Some id) (url_of data) (req_format_id data)).1).
    assert (result_of id e = Some r) as Hr by (subst e r; simpl in *; by rewrite He).
    assert (owned id r (step e s).1) as Ho.
    { apply step_owned; [by apply absent_owned|]. intros r'. rewrite Hr. by intros [= <-]. }
    pose proof (run_owned id r es _ Ho (step_results_precede e s Hs)
                  ltac:(simpl in Hc; lia)) as Hrun.
    eapply Forall_impl; [exact Hrun|]. intros p Hp Ht.
    exists e, r. split; [by left|]. split; [done | by apply Hp].
  - apply Forall_app. split.
    + destruct e as [data now eng|id'|n]; try constructor.
      destruct (String.eqb_spec id' id) as [->|Hne]; constructor; [|constructor].
      destruct Ha as (H1 & H2 & _). by rewrite (get_progress_absent id _ H1 H2).
    + specialize (IH _ (step_absent id e s Ha He) (step_results_precede e s Hs)
                    ltac:(simpl in Hc; lia)).
      eapply Forall_impl; [exact IH|]. intros p Hp Ht.
      destruct (Hp Ht) as (e' & r & Hin & Hr & Hpr).
      exists e', r. split; [by right | by split].
Qed.

(** C2, as the code has it.  Take a progress id that at most one request of
    the run is answered with.  Then every answer of the progress query for
    that id whose status is 'completed' or 'error' carries the result of that
    request's job, which is what [download_video_web] returned for it.  And
    whatever ids are shared, an answer whose status is 'completed' or 'error'
    carries a result: the download thread stores its result first and writes
    the terminal status after it, and a stored result is never removed. *)
Theorem terminal_status_carries_result (progress_id : string) (es : list event) :
  (creations progress_id es <= 1)%nat ->
  Forall (fun p => terminal (p_status p) = true ->
            exists data now eng,
              PostDownload data now eng ∈ es /\
              creates progress_id (PostDownload data now eng) = true /\
              p_result p =
                Some (download_video_web eng (Some progress_id) (url_of data)
                        (req_format_id data)).1)
    (polled progress_id (run es initial).2) /\
  Forall (fun p => terminal (p_status p) = true -> is_Some (p_result p))
    (snapshots (run es initial).2).
Proof.
  intros Hc. split; [|apply run_snapshots, initial_results_precede].
  assert (absent progress_id initial) as Hinit.
  { split; [apply lookup_empty|]. split; [apply lookup_empty|]. constructor. }
  pose proof (run_absent progress_id es initial Hinit initial_results_precede Hc) as H.
  eapply Forall_impl; [exact H|]. intros p Hp Ht.
  destruct (Hp Ht) as (e & r & Hin & Hr & Hpr).
  destruct e as [data now eng|id'|n]; try (simpl in Hr; discriminate).
  exists data, now, eng. split; [done|].
  cbn [result_of] in Hr. destruct (creates progress_id (PostDownload data now eng));
    [|discriminate].
  injection Hr as <-. by split.
Qed.

End Proofs.

Section Samples.
#[local] Existing Instance ascii_tables.

Lemma terminal_status_carries_result_witness :
  let es := Sample.polled_run (Sample.post Sample.url PyNone) Sample.plain 8 in
  Forall (fun p => terminal (p_status p) = true ->
            exists data now eng,
              PostDownload data now eng ∈ es /\
              creates "download_0" (PostDownload data now eng) = true /\
              p_result p =
                Some (download_video_web eng (Some "download_0") (url_of data)
                        (req_format_id data)).1)
    (polled "download_0" (run es initial).2) /\
  Forall (fun p => terminal (p_status p) = true -> is_Some (p_result p))
    (snapshots (run es initial).2).
Proof.
  apply (terminal_status_carries_result "download_0"
           (Sample.polled_run (Sample.post Sample.url PyNone) Sample.plain 8)).
  vm_compute. lia.
Defined.

End Samples.

Section Proofs.
Context `{U : Unicode}.

Lemma get_progress_dom (id : string) (st : store) :
  dom (download_progress (get_progress id st).2) = dom (download_progress st).
Proof.
  unfold get_progress.
  destruct (download_progress st !! id) as [p|] eqn:Hp;
    destruct (download_results st !! id) as [r|]; try done.
  cbn [snd download_progress]. by apply dom_insert_lookup_L.
Qed.

Lemma perform_grows (a : action) (st : store) :
  dom (download_progress st) ⊆ dom (download_progress (perform a st)) /\
  dom (download_results st) ⊆ dom (download_results (perform a st)).
Proof.
  destruct a as [i p|i r| | | |]; cbn [perform download_progress download_results];
    rewrite ?dom_insert_L; split; set_solver.
Qed.

Lemma step_grows (e : event) (s : server) :
  dom (download_progress (srv_store s)) ⊆ dom (download_progress (srv_store (step e s).1)) /\
  dom (download_results (srv_store s)) ⊆ dom (download_results (srv_store (step e s).1)).
Proof.
  destruct s as [st ths]. destruct e as [data now eng|id|n]; simpl.
  - unfold download_video. destruct (String.eqb (url_of data) ""); simpl; [done|].
    rewrite dom_insert_L. split; set_solver.
  - pose proof (get_progress_dom id st) as Hd.
    pose proof (get_progress_frame_results id st) as Hr.
    destruct (get_progress id st) as [p st']. simpl in *. by rewrite Hd, Hr.
  - destruct (ths !! n) as [[|a rest]|]; simpl; try done. apply perform_grows.
Qed.

(** Nothing is ever taken out of the two dictionaries: along a run, from any
    state of the server, every id with a progress entry keeps one, and every
    id with a result keeps one. *)
Theorem entries_are_never_removed (es : list event) (s : server) :
  dom (download_progress (srv_store s))
    ⊆ dom (download_progress (srv_store (run es s).1)) /\
  dom (download_results (srv_store s))
    ⊆ dom (download_results (srv_store (run es s).1)).
Proof.
  revert s. induction es as [|e es IH]; intros s; [done|].
  simpl. destruct (step_grows e s) as [Hp Hr].
  destruct (step e s) as [s' r]. specialize (IH s').
  destruct (run es s') as [s'' rs]. simpl in *. destruct IH as [IHp IHr].
  split; etrans; eauto.
Qed.












(** ** Polling twice, and ids a second apart *)

(** A poll repeated at once gets the same answer and leaves the store as
    the first poll left it: the write that a poll makes to the store happens
    once. *)
Theorem get_progress_twice (progress_id : string) (st : store) :
  get_progress progress_id (get_progress progress_id st).2 =
  ((get_progress progress_id st).1, (get_progress progress_id st).2).
Proof.
  unfold get_progress.
  destruct (download_progress st !! progress_id) as [p|] eqn:Hp;
    destruct (download_results st !! progress_id) as [r|] eqn:Hr;
    cbn [fst snd]; rewrite ?Hp, ?Hr; try reflexivity.
  cbn [download_progress download_results]. rewrite lookup_insert_eq, Hr.
  by rewrite insert_insert_eq.
Qed.

Lemma int_floor (x : Q) : (0 <= x)%Q -> Py.int x = Qfloor x.
Proof.
  destruct x as [n d]. unfold Qle, Py.int. simpl. intros H.
  apply Z.quot_div_nonneg; lia.
Qed.

(** Requests that come at least one second apart are answered with
    different progress ids. *)
Theorem ids_differ_a_second_apart (now1 now2 : Q) :
  (0 <= now1)%Q -> (now1 + 1 <= now2)%Q ->
  new_progress_id now1 <> new_progress_id now2.
Proof.
  intros H0 H1 Heq. apply new_progress_id_eq in Heq.
  assert (0 <= now2)%Q as H2 by lra.
  rewrite (int_floor _ H0), (int_floor _ H2) in Heq.
  pose proof (Qfloor_le now1) as Hle.
  assert (inject_Z (Qfloor now1 + 1) <= now2)%Q as Hstep.
  { rewrite inject_Z_plus. change (inject_Z 1) with 1%Q. lra. }
  apply Qfloor_resp_le in Hstep. rewrite Qfloor_Z in Hstep. lia.
Qed.

End Proofs.

Section Samples.
#[local] Existing Instance ascii_tables.

Lemma ids_differ_a_second_apart_witness :
  ((17000000002 # 10) + 1 <= 17000000012 # 10)%Q /\
  new_progress_id (17000000002 # 10) <> new_progress_id (17000000012 # 10).
Proof.
  split.
  - vm_compute. discriminate.
  - apply (ids_differ_a_second_apart (17000000002 # 10) (17000000012 # 10)).
    + vm_compute. discriminate.
    + vm_compute. discriminate.
Defined.

End Samples.
